(** * ArduinoMultimeter: the transient-timing measurement engine

    A shallow embedding of the firmware of shyam-king/ArduinoMultimeter:
    [Resistance/Resistance.ino] (the multimeter) and the calibration sketch
    that measures a bare time constant.  The AVR peripherals the code talks to
    (ADC, timer 1, ports, USART) are modelled as a record of registers with the
    hardware behaviour written out next to it; the firmware functions are
    written in a small outcome monad over that record. *)

From Stdlib Require Import ZArith List Bool Lia String Ascii Zpower.
From Stdlib Require Import SpecFloat.
Import ListNotations.

Local Open Scope Z_scope.

(** ** IEEE-754 binary32

    avr-gcc's [float] (and, with its default options, [double]) is binary32.
    The operations are those of the Standard Library's executable IEEE-754
    specification at precision 24, round to nearest even. *)
Module Float32.

Definition prec : Z := 24.
Definition emax : Z := 128.

Definition float : Type := spec_float.

(** Conversion of an integer, as in a C cast [(float) n]. *)
Definition of_Z (n : Z) : float := binary_normalize prec emax n 0 false.

Definition add : float -> float -> float := SFadd prec emax.
Definition mul : float -> float -> float := SFmul prec emax.
Definition div : float -> float -> float := SFdiv prec emax.

Definition leb : float -> float -> bool := SFleb.
Definition ltb : float -> float -> bool := SFltb.
Definition eqb : float -> float -> bool := SFeqb.

(** The constant [+0.0f]. *)
Definition zero : float := S754_zero false.

(** A decimal literal [n / 10^k] written in the source ([0.00488f] is
    [488 / 10^5]): numerator and denominator are exact in binary32, so the
    correctly rounded quotient is the correctly rounded literal. *)
Definition decimal (n : Z) (k : Z) : float := div (of_Z n) (of_Z (10 ^ k)).

End Float32.

Abbreviation float := Float32.float.

Declare Scope f32_scope.
Delimit Scope f32_scope with f32.
Infix "+" := Float32.add : f32_scope.
Infix "*" := Float32.mul : f32_scope.
Infix "/" := Float32.div : f32_scope.
Infix "<=?" := Float32.leb : f32_scope.
Infix "<?" := Float32.ltb : f32_scope.

(** ** binary32 values as integers

    Every finite binary32 number is a multiple of 2^-149.  Counting in that
    unit turns the sound (non-negative, well-formed) numbers into integers,
    their order into the order of integers, and their addition into integer
    addition followed by rounding to 24 significant bits. *)

(** Round to nearest even to 24 significant bits, on integers. *)
Definition round24 (n : Z) : Z :=
  let k := Z.log2 n + 1 - 24 in
  if k <=? 0 then n
  else
    let q := n / 2 ^ k in
    let r := n mod 2 ^ k in
    let up := (2 ^ k <? 2 * r) || ((2 * r =? 2 ^ k) && Z.odd q) in
    (q + (if up then 1 else 0)) * 2 ^ k.

(** The nearest-even quotient of [m] by [2^n], as [round24] takes it. *)
Definition rne (m n : Z) : Z :=
  let q := m / 2 ^ n in
  let r := m mod 2 ^ n in
  q + (if (2 ^ n <? 2 * r) || ((2 * r =? 2 ^ n) && Z.odd q) then 1 else 0).

(** [rec] is [m] shifted right [j] times: the bits shifted out are the round
    bit, worth [2^(j-1)], and [lo] below it, of which the sticky bit records
    whether it is zero. *)
Definition shifted (m j : Z) (rec : shr_record) : Prop :=
  0 <= shr_m rec /\
  exists lo,
    0 <= lo /\
    (lo < 2 ^ (j - 1) \/ (j = 0 /\ lo = 0 /\ shr_r rec = false)) /\
    shr_s rec = negb (lo =? 0) /\
    m = shr_m rec * 2 ^ j + (if shr_r rec then 2 ^ (j - 1) else 0) + lo.

(** The value in units of 2^-149; [+inf] counts as 2^128. *)
Definition fkey (x : float) : Z :=
  match x with
  | S754_zero _ => 0
  | S754_infinity _ => 2 ^ 277
  | S754_nan => 0
  | S754_finite _ m e => Z.pos m * 2 ^ (e + 149)
  end.

(** [+0], [+inf] and the well-formed positive finite numbers. *)
Definition sound (x : float) : bool :=
  match x with
  | S754_zero false => true
  | S754_infinity false => true
  | S754_finite false m e => bounded 24 128 m e
  | _ => false
  end.

(** Rounding, with overflow to [+inf]. *)
Definition clamp (n : Z) : Z := Z.min (round24 n) (2 ^ 277).

(** ** The machine

    The I/O registers the firmware reads and writes, its two globals, and the
    environment: what the analog inputs and the serial line will deliver, and
    how a read of the elapsed time is laid out in time. *)

(** One analog-to-digital conversion as the environment provides it: the
    number of timer-1 ticks that pass while it runs, and the voltage present
    on each input channel. *)
Record conversion := {
  conv_ticks : nat;
  conv_input : Z -> Z
}.

(** What the firmware hands to the USART. *)
Inductive tx_item :=
| TxStr (text : string)
| TxByte (byte : Z)
| TxFloat (value : float).

(** Ghost trace of the routines entered (not part of the firmware state). *)
Inductive call :=
| Call_readADC (pin : Z)
| Call_calculateCapacitance
| Call_calculateResistance.

(** The two operands of [timer1_overflow + (float)(TCNT1)/250.0f] are two
    loads, [timer1_overflow] from memory and [TCNT1] from the timer, in an
    order C leaves to the compiler. *)
Inductive load_order := OverflowFirst | CountFirst.

Record machine := {
  ADMUX : Z;
  ADCSRA : Z;
  ADC : Z;
  PORTB : Z;
  PORTD : Z;
  TCCR1A : Z;
  TCCR1B : Z;
  TIMSK1 : Z;
  TCNT1 : Z;
  timer1_overflow : float;        (* float timer1_overflow *)
  mode : Z;                       (* uint8_t mode *)
  adc_feed : list conversion;     (* conversions still to come *)
  rx_feed : list Z;               (* bytes still to arrive on the serial line *)
  load_first : load_order;        (* the operand a read of the time loads first *)
  load_gap : nat;                 (* ticks between the two loads of such a read *)
  tx : list tx_item;              (* what was sent, oldest first *)
  calls : list call               (* ghost, oldest first *)
}.

Definition set_ADMUX (v : Z) (s : machine) : machine :=
  {| ADMUX := v; ADCSRA := ADCSRA s; ADC := ADC s; PORTB := PORTB s; PORTD :=
     PORTD s; TCCR1A := TCCR1A s; TCCR1B := TCCR1B s; TIMSK1 := TIMSK1 s; TCNT1
     := TCNT1 s; timer1_overflow := timer1_overflow s; mode := mode s; adc_feed
     := adc_feed s; rx_feed := rx_feed s; load_first := load_first s; load_gap :=
     load_gap s; tx := tx s; calls := calls s |}.

Definition set_ADCSRA (v : Z) (s : machine) : machine :=
  {| ADMUX := ADMUX s; ADCSRA := v; ADC := ADC s; PORTB := PORTB s; PORTD :=
     PORTD s; TCCR1A := TCCR1A s; TCCR1B := TCCR1B s; TIMSK1 := TIMSK1 s; TCNT1
     := TCNT1 s; timer1_overflow := timer1_overflow s; mode := mode s; adc_feed
     := adc_feed s; rx_feed := rx_feed s; load_first := load_first s; load_gap :=
     load_gap s; tx := tx s; calls := calls s |}.

Definition set_ADC (v : Z) (s : machine) : machine :=
  {| ADMUX := ADMUX s; ADCSRA := ADCSRA s; ADC := v; PORTB := PORTB s; PORTD
     := PORTD s; TCCR1A := TCCR1A s; TCCR1B := TCCR1B s; TIMSK1 := TIMSK1 s;
     TCNT1 := TCNT1 s; timer1_overflow := timer1_overflow s; mode := mode s;
     adc_feed := adc_feed s; rx_feed := rx_feed s; load_first := load_first s;
     load_gap := load_gap s; tx := tx s; calls := calls s |}.

Definition set_PORTB (v : Z) (s : machine) : machine :=
  {| ADMUX := ADMUX s; ADCSRA := ADCSRA s; ADC := ADC s; PORTB := v; PORTD :=
     PORTD s; TCCR1A := TCCR1A s; TCCR1B := TCCR1B s; TIMSK1 := TIMSK1 s; TCNT1
     := TCNT1 s; timer1_overflow := timer1_overflow s; mode := mode s; adc_feed
     := adc_feed s; rx_feed := rx_feed s; load_first := load_first s; load_gap :=
     load_gap s; tx := tx s; calls := calls s |}.

Definition set_PORTD (v : Z) (s : machine) : machine :=
  {| ADMUX := ADMUX s; ADCSRA := ADCSRA s; ADC := ADC s; PORTB := PORTB s;
     PORTD := v; TCCR1A := TCCR1A s; TCCR1B := TCCR1B s; TIMSK1 := TIMSK1 s;
     TCNT1 := TCNT1 s; timer1_overflow := timer1_overflow s; mode := mode s;
     adc_feed := adc_feed s; rx_feed := rx_feed s; load_first := load_first s;
     load_gap := load_gap s; tx := tx s; calls := calls s |}.

Definition set_TCCR1A (v : Z) (s : machine) : machine :=
  {| ADMUX := ADMUX s; ADCSRA := ADCSRA s; ADC := ADC s; PORTB := PORTB s;
     PORTD := PORTD s; TCCR1A := v; TCCR1B := TCCR1B s; TIMSK1 := TIMSK1 s; TCNT1
     := TCNT1 s; timer1_overflow := timer1_overflow s; mode := mode s; adc_feed
     := adc_feed s; rx_feed := rx_feed s; load_first := load_first s; load_gap :=
     load_gap s; tx := tx s; calls := calls s |}.

Definition set_TCCR1B (v : Z) (s : machine) : machine :=
  {| ADMUX := ADMUX s; ADCSRA := ADCSRA s; ADC := ADC s; PORTB := PORTB s;
     PORTD := PORTD s; TCCR1A := TCCR1A s; TCCR1B := v; TIMSK1 := TIMSK1 s; TCNT1
     := TCNT1 s; timer1_overflow := timer1_overflow s; mode := mode s; adc_feed
     := adc_feed s; rx_feed := rx_feed s; load_first := load_first s; load_gap :=
     load_gap s; tx := tx s; calls := calls s |}.

Definition set_TIMSK1 (v : Z) (s : machine) : machine :=
  {| ADMUX := ADMUX s; ADCSRA := ADCSRA s; ADC := ADC s; PORTB := PORTB s;
     PORTD := PORTD s; TCCR1A := TCCR1A s; TCCR1B := TCCR1B s; TIMSK1 := v; TCNT1
     := TCNT1 s; timer1_overflow := timer1_overflow s; mode := mode s; adc_feed
     := adc_feed s; rx_feed := rx_feed s; load_first := load_first s; load_gap :=
     load_gap s; tx := tx s; calls := calls s |}.

Definition set_TCNT1 (v : Z) (s : machine) : machine :=
  {| ADMUX := ADMUX s; ADCSRA := ADCSRA s; ADC := ADC s; PORTB := PORTB s;
     PORTD := PORTD s; TCCR1A := TCCR1A s; TCCR1B := TCCR1B s; TIMSK1 := TIMSK1
     s; TCNT1 := v; timer1_overflow := timer1_overflow s; mode := mode s;
     adc_feed := adc_feed s; rx_feed := rx_feed s; load_first := load_first s;
     load_gap := load_gap s; tx := tx s; calls := calls s |}.

Definition set_timer1_overflow (v : float) (s : machine) : machine :=
  {| ADMUX := ADMUX s; ADCSRA := ADCSRA s; ADC := ADC s; PORTB := PORTB s;
     PORTD := PORTD s; TCCR1A := TCCR1A s; TCCR1B := TCCR1B s; TIMSK1 := TIMSK1
     s; TCNT1 := TCNT1 s; timer1_overflow := v; mode := mode s; adc_feed :=
     adc_feed s; rx_feed := rx_feed s; load_first := load_first s; load_gap :=
     load_gap s; tx := tx s; calls := calls s |}.

Definition set_mode (v : Z) (s : machine) : machine :=
  {| ADMUX := ADMUX s; ADCSRA := ADCSRA s; ADC := ADC s; PORTB := PORTB s;
     PORTD := PORTD s; TCCR1A := TCCR1A s; TCCR1B := TCCR1B s; TIMSK1 := TIMSK1
     s; TCNT1 := TCNT1 s; timer1_overflow := timer1_overflow s; mode := v;
     adc_feed := adc_feed s; rx_feed := rx_feed s; load_first := load_first s;
     load_gap := load_gap s; tx := tx s; calls := calls s |}.

Definition set_adc_feed (v : list conversion) (s : machine) : machine :=
  {| ADMUX := ADMUX s; ADCSRA := ADCSRA s; ADC := ADC s; PORTB := PORTB s;
     PORTD := PORTD s; TCCR1A := TCCR1A s; TCCR1B := TCCR1B s; TIMSK1 := TIMSK1
     s; TCNT1 := TCNT1 s; timer1_overflow := timer1_overflow s; mode := mode s;
     adc_feed := v; rx_feed := rx_feed s; load_first := load_first s; load_gap :=
     load_gap s; tx := tx s; calls := calls s |}.

Definition set_rx_feed (v : list Z) (s : machine) : machine :=
  {| ADMUX := ADMUX s; ADCSRA := ADCSRA s; ADC := ADC s; PORTB := PORTB s;
     PORTD := PORTD s; TCCR1A := TCCR1A s; TCCR1B := TCCR1B s; TIMSK1 := TIMSK1
     s; TCNT1 := TCNT1 s; timer1_overflow := timer1_overflow s; mode := mode s;
     adc_feed := adc_feed s; rx_feed := v; load_first := load_first s; load_gap
     := load_gap s; tx := tx s; calls := calls s |}.

Definition set_load_first (v : load_order) (s : machine) : machine :=
  {| ADMUX := ADMUX s; ADCSRA := ADCSRA s; ADC := ADC s; PORTB := PORTB s;
     PORTD := PORTD s; TCCR1A := TCCR1A s; TCCR1B := TCCR1B s; TIMSK1 := TIMSK1
     s; TCNT1 := TCNT1 s; timer1_overflow := timer1_overflow s; mode := mode s;
     adc_feed := adc_feed s; rx_feed := rx_feed s; load_first := v; load_gap :=
     load_gap s; tx := tx s; calls := calls s |}.

Definition set_load_gap (v : nat) (s : machine) : machine :=
  {| ADMUX := ADMUX s; ADCSRA := ADCSRA s; ADC := ADC s; PORTB := PORTB s;
     PORTD := PORTD s; TCCR1A := TCCR1A s; TCCR1B := TCCR1B s; TIMSK1 := TIMSK1
     s; TCNT1 := TCNT1 s; timer1_overflow := timer1_overflow s; mode := mode s;
     adc_feed := adc_feed s; rx_feed := rx_feed s; load_first := load_first s;
     load_gap := v; tx := tx s; calls := calls s |}.

Definition set_tx (v : list tx_item) (s : machine) : machine :=
  {| ADMUX := ADMUX s; ADCSRA := ADCSRA s; ADC := ADC s; PORTB := PORTB s;
     PORTD := PORTD s; TCCR1A := TCCR1A s; TCCR1B := TCCR1B s; TIMSK1 := TIMSK1
     s; TCNT1 := TCNT1 s; timer1_overflow := timer1_overflow s; mode := mode s;
     adc_feed := adc_feed s; rx_feed := rx_feed s; load_first := load_first s;
     load_gap := load_gap s; tx := v; calls := calls s |}.

Definition set_calls (v : list call) (s : machine) : machine :=
  {| ADMUX := ADMUX s; ADCSRA := ADCSRA s; ADC := ADC s; PORTB := PORTB s;
     PORTD := PORTD s; TCCR1A := TCCR1A s; TCCR1B := TCCR1B s; TIMSK1 := TIMSK1
     s; TCNT1 := TCNT1 s; timer1_overflow := timer1_overflow s; mode := mode s;
     adc_feed := adc_feed s; rx_feed := rx_feed s; load_first := load_first s;
     load_gap := load_gap s; tx := tx s; calls := v |}.

(** Bit positions from <avr/io.h> (ATmega328P). *)
Definition REFS0 : Z := 6.
Definition ADEN : Z := 7.
Definition ADSC : Z := 6.
Definition ADIF : Z := 4.
Definition ADATE : Z := 5.
Definition ADIE : Z := 3.
Definition ADLAR : Z := 5.
Definition ADPS2 : Z := 2.
Definition ADPS1 : Z := 1.
Definition ADPS0 : Z := 0.
Definition CS11 : Z := 1.
Definition CS10 : Z := 0.

(** C's logical negation [!x] on an [int]. *)
Definition lnot (x : Z) : Z := if x =? 0 then 1 else 0.

(** Truncation to [uint8_t] and [uint16_t]. *)
Definition u8 (x : Z) : Z := x mod 256.
Definition u16 (x : Z) : Z := x mod 65536.

(** ** Outcomes

    A firmware function either returns a value, or never returns because a
    busy-wait loop spins on a condition the hardware never raises; the machine
    is kept in both cases. *)
Inductive outcome (A : Type) :=
| Ret (a : A) (s : machine)
| Hang (s : machine).

Arguments Ret {A} a s.
Arguments Hang {A} s.

Definition M (A : Type) : Type := machine -> outcome A.

Definition ret {A} (a : A) : M A := fun s => Ret a s.

Definition bind {A B} (m : M A) (k : A -> M B) : M B :=
  fun s => match m s with
           | Ret a s' => k a s'
           | Hang s' => Hang s'
           end.

Definition gets {A} (f : machine -> A) : M A := fun s => Ret (f s) s.
Definition modify (f : machine -> machine) : M unit := fun s => Ret tt (f s).
Definition spin {A} : M A := fun s => Hang s.

(** The machine an outcome ends in. *)
Definition final {A} (o : outcome A) : machine :=
  match o with
  | Ret _ s => s
  | Hang s => s
  end.

Declare Scope fw_scope.
Delimit Scope fw_scope with fw.
Notation "x <- m ;; k" := (bind m (fun x => k))
  (at level 61, m at next level, right associativity) : fw_scope.
Notation "m ;; k" := (bind m (fun _ => k))
  (at level 61, right associativity) : fw_scope.

Local Open Scope fw_scope.

(** ** Peripherals *)

(** What both sketches share.  The overflow handler differs between them, so
    the hardware that runs it takes it as a parameter. *)
Section Peripherals.

(** [ISR (TIMER1_OVF_vect)] of the sketch at hand. *)
Variable TIMER1_OVF_vect : machine -> machine.

(** *** Timer 1 *)

(** The counter is clocked when a clock source is selected in [CS12:0]. *)
Definition clocked (s : machine) : bool := negb (Z.land (TCCR1B s) 7 =? 0).

(** The overflow interrupt is enabled by [TOIE1], bit 0 of [TIMSK1]
    (global interrupts are on: [main] executes [sei()] first thing). *)
Definition overflow_irq_enabled (s : machine) : bool := Z.testbit (TIMSK1 s) 0.

(** One increment of the 16-bit counter.  When it wraps from [0xFFFF] to 0
    the overflow interrupt fires and the handler runs, once. *)
Definition tick (s : machine) : machine :=
  if clocked s then
    let s' := set_TCNT1 (u16 (TCNT1 s + 1)) s in
    if (TCNT1 s' =? 0) && overflow_irq_enabled s' then TIMER1_OVF_vect s'
    else s'
  else s.

Fixpoint ticks (n : nat) (s : machine) : machine :=
  match n with
  | O => s
  | S n' => ticks n' (tick s)
  end.

(** *** The analog-to-digital converter

    The converter is modelled in the configuration the firmware uses it in,
    the one [initADC] sets up: enabled, one conversion per start, no
    conversion-complete interrupt, the result right-adjusted. *)

(** The input selected by [MUX3:0]. *)
Definition channel (s : machine) : Z := Z.land (ADMUX s) 15.

(** A store to [ADCSRA]: [ADIF] is cleared by writing a one to it and is
    left alone by writing a zero. *)
Definition ADCSRA_stored (v old : Z) : Z :=
  if Z.testbit v ADIF then Z.clearbit v ADIF
  else Z.lor v (Z.land old (Z.shiftl 1 ADIF)).

Definition write_ADCSRA (v : Z) (s : machine) : machine :=
  set_ADCSRA (ADCSRA_stored v (ADCSRA s)) s.

(** The converter finishing conversion [c]: time has passed, the 10-bit
    result of the selected channel is in [ADC], [ADSC] reads zero again and
    [ADIF] is raised. *)
Definition complete_conversion (c : conversion) (s : machine) : machine :=
  let s1 := ticks (conv_ticks c) s in
  let s2 := set_ADC (Z.land (conv_input c (channel s1)) 1023) s1 in
  set_ADCSRA (Z.setbit (Z.clearbit (ADCSRA s2) ADSC) ADIF) s2.

(** [while (!(ADCSRA & (1 << ADIF)));] -- the flag is raised by the
    conversion in progress, and by nothing else. *)
Definition wait_ADIF : M unit :=
  fun s =>
    if negb (lnot (Z.land (ADCSRA s) (Z.shiftl 1 ADIF)) =? 0) then
      if Z.testbit (ADCSRA s) ADSC then
        match adc_feed s with
        | c :: feed => Ret tt (complete_conversion c (set_adc_feed feed s))
        | [] => Hang s
        end
      else Hang s
    else Ret tt s.

Definition initADC : M unit :=
  modify (set_ADMUX (Z.shiftl 1 REFS0)) ;;
  modify (fun s => write_ADCSRA
    (Z.lor (Z.lor (Z.lor (Z.shiftl 1 ADEN) (Z.shiftl 1 ADPS2))
                  (Z.shiftl 1 ADPS1)) (Z.shiftl 1 ADPS0)) s).

(** The first line of [readADC], and of the two measurement routines below,
    is the ghost trace; the rest is the body of the function. *)
Definition readADC (pin : Z) : M Z :=
  modify (fun s => set_calls (calls s ++ [Call_readADC pin]) s) ;;
  modify (fun s => set_ADMUX (u8 (Z.lor (ADMUX s) (u8 pin))) s) ;;
  modify (fun s => write_ADCSRA (Z.lor (ADCSRA s) (Z.shiftl 1 ADSC)) s) ;;
  wait_ADIF ;;
  modify (fun s => write_ADCSRA (Z.lor (ADCSRA s) (Z.shiftl 1 ADIF)) s) ;;
  gets ADC.

(** [while (again (readADC (pin)));] -- every round consumes one conversion
    of the feed, so one round more than the feed is long is fuel enough. *)
Fixpoint poll (fuel : nat) (pin : Z) (again : Z -> bool) : M unit :=
  match fuel with
  | O => spin
  | S fuel' =>
      v <- readADC pin ;;
      if again v then poll fuel' pin again else ret tt
  end.

Definition while_readADC (pin : Z) (again : Z -> bool) : M unit :=
  fun s => poll (S (List.length (adc_feed s))) pin again s.

(** *** Timer functions common to both sketches *)

Definition stopTimer1 : M unit :=
  modify (set_TCCR1B 0) ;;
  modify (set_timer1_overflow Float32.zero) ;;
  modify (set_TCNT1 0).

(** [timer1_overflow + (float)(TCNT1)/250.0f], read in one piece. *)
Definition elapsed (overflow : float) (count : Z) : float :=
  (overflow + Float32.of_Z count / Float32.of_Z 250)%f32.

Definition getMilliseconds : M float :=
  gets (fun s => elapsed (timer1_overflow s) (TCNT1 s)).

(** The same expression with the overflow interrupt in view.  Its two
    operands are two loads, [timer1_overflow] from memory and [TCNT1] from
    the timer, in an order C leaves to the compiler; nothing masks the
    interrupt, so the counter goes on for [between] ticks from the first
    load to the second, and the handler runs if it wraps meanwhile. *)
Definition getMilliseconds_irq (order : load_order) (between : nat) : M float :=
  fun s =>
    let s' := ticks between s in
    match order with
    | OverflowFirst => Ret (elapsed (timer1_overflow s) (TCNT1 s')) s'
    | CountFirst => Ret (elapsed (timer1_overflow s') (TCNT1 s)) s'
    end.

(** [getMilliseconds()] as a measurement calls it while the timer runs: the
    two loads in the order, and as far apart, as the machine has them. *)
Definition getMilliseconds_exec : M float :=
  fun s => getMilliseconds_irq (load_first s) (load_gap s) s.

(** *** USART

    The transmitter is taken to be ready whenever [USART_sendByte] waits for
    it; what is sent is kept as the firmware passed it, a string, a byte or a
    [float] still to be formatted by [dtostrf]. *)

Definition USART_sendByte (data : Z) : M unit :=
  modify (fun s => set_tx (tx s ++ [TxByte (u8 data)]) s).

Definition USART_sendData (data : string) : M unit :=
  modify (fun s => set_tx (tx s ++ [TxStr data]) s).

Definition USART_sendFloat (data : float) : M unit :=
  modify (fun s => set_tx (tx s ++ [TxFloat data]) s).

End Peripherals.

(** [PORTx &= !(1 << pin)] and [PORTx |= (1 << pin)]. *)
Inductive port := B | D.

Definition PORT (p : port) : machine -> Z :=
  match p with B => PORTB | D => PORTD end.

Definition set_PORT (p : port) : Z -> machine -> machine :=
  match p with B => set_PORTB | D => set_PORTD end.

Definition PIN_LOW (p : port) (pin : Z) : M unit :=
  modify (fun s =>
    set_PORT p (u8 (Z.land (PORT p s) (lnot (Z.shiftl 1 pin)))) s).

Definition PIN_HIGH (p : port) (pin : Z) : M unit :=
  modify (fun s => set_PORT p (u8 (Z.lor (PORT p s) (Z.shiftl 1 pin))) s).

(** Line feed and tab, the [\n] and [\t] of the C string literals. *)
Definition LF : string := String (ascii_of_nat 10) EmptyString.
Definition TAB : string := String (ascii_of_nat 9) EmptyString.

(** ** The board

    The registers that only the start-up code writes -- pin directions, the
    USART configuration, the global interrupt flag -- and the one global of
    the calibration sketch, around the machine. *)
Record board := {
  DDRB : Z;
  DDRC : Z;
  DDRD : Z;
  UCSR0B : Z;
  UCSR0C : Z;
  UBRR0 : Z;
  SREG_I : bool;                  (* set by sei() *)
  time_constant : float;          (* float time_constant *)
  mcu : machine
}.

Definition set_DDRB (v : Z) (b : board) : board :=
  {| DDRB := v; DDRC := DDRC b; DDRD := DDRD b; UCSR0B := UCSR0B b; UCSR0C
     := UCSR0C b; UBRR0 := UBRR0 b; SREG_I := SREG_I b; time_constant :=
     time_constant b; mcu := mcu b |}.

Definition set_DDRC (v : Z) (b : board) : board :=
  {| DDRB := DDRB b; DDRC := v; DDRD := DDRD b; UCSR0B := UCSR0B b; UCSR0C
     := UCSR0C b; UBRR0 := UBRR0 b; SREG_I := SREG_I b; time_constant :=
     time_constant b; mcu := mcu b |}.

Definition set_DDRD (v : Z) (b : board) : board :=
  {| DDRB := DDRB b; DDRC := DDRC b; DDRD := v; UCSR0B := UCSR0B b; UCSR0C
     := UCSR0C b; UBRR0 := UBRR0 b; SREG_I := SREG_I b; time_constant :=
     time_constant b; mcu := mcu b |}.

Definition set_UCSR0B (v : Z) (b : board) : board :=
  {| DDRB := DDRB b; DDRC := DDRC b; DDRD := DDRD b; UCSR0B := v; UCSR0C :=
     UCSR0C b; UBRR0 := UBRR0 b; SREG_I := SREG_I b; time_constant :=
     time_constant b; mcu := mcu b |}.

Definition set_UCSR0C (v : Z) (b : board) : board :=
  {| DDRB := DDRB b; DDRC := DDRC b; DDRD := DDRD b; UCSR0B := UCSR0B b;
     UCSR0C := v; UBRR0 := UBRR0 b; SREG_I := SREG_I b; time_constant :=
     time_constant b; mcu := mcu b |}.

Definition set_UBRR0 (v : Z) (b : board) : board :=
  {| DDRB := DDRB b; DDRC := DDRC b; DDRD := DDRD b; UCSR0B := UCSR0B b;
     UCSR0C := UCSR0C b; UBRR0 := v; SREG_I := SREG_I b; time_constant :=
     time_constant b; mcu := mcu b |}.

Definition set_SREG_I (v : bool) (b : board) : board :=
  {| DDRB := DDRB b; DDRC := DDRC b; DDRD := DDRD b; UCSR0B := UCSR0B b;
     UCSR0C := UCSR0C b; UBRR0 := UBRR0 b; SREG_I := v; time_constant :=
     time_constant b; mcu := mcu b |}.

Definition set_time_constant (v : float) (b : board) : board :=
  {| DDRB := DDRB b; DDRC := DDRC b; DDRD := DDRD b; UCSR0B := UCSR0B b;
     UCSR0C := UCSR0C b; UBRR0 := UBRR0 b; SREG_I := SREG_I b; time_constant
     := v; mcu := mcu b |}.

Definition set_mcu (v : machine) (b : board) : board :=
  {| DDRB := DDRB b; DDRC := DDRC b; DDRD := DDRD b; UCSR0B := UCSR0B b;
     UCSR0C := UCSR0C b; UBRR0 := UBRR0 b; SREG_I := SREG_I b; time_constant
     := time_constant b; mcu := v |}.

(** Bit positions of the USART registers. *)
Definition UCSZ00 : Z := 1.
Definition UCSZ01 : Z := 2.
Definition RXEN0 : Z := 4.
Definition TXEN0 : Z := 3.

(** Outcomes of code that runs on the board. *)
Inductive run (A : Type) :=
| Returned (a : A) (b : board)
| Stuck (b : board).

Arguments Returned {A} a b.
Arguments Stuck {A} b.

Definition MB (A : Type) : Type := board -> run A.

Definition retB {A} (a : A) : MB A := fun b => Returned a b.

Definition bindB {A C} (m : MB A) (k : A -> MB C) : MB C :=
  fun b => match m b with
           | Returned a b' => k a b'
           | Stuck b' => Stuck b'
           end.

Definition modifyB (f : board -> board) : MB unit :=
  fun b => Returned tt (f b).

Definition getsB {A} (f : board -> A) : MB A := fun b => Returned (f b) b.

(** Code of the machine, run on the board. *)
Definition on_mcu {A} (m : M A) : MB A :=
  fun b => match m (mcu b) with
           | Ret a s => Returned a (set_mcu s b)
           | Hang s => Stuck (set_mcu s b)
           end.

(** The board an outcome ends in. *)
Definition ends_in {A} (r : run A) : board :=
  match r with
  | Returned _ b => b
  | Stuck b => b
  end.

Declare Scope board_scope.
Delimit Scope board_scope with board.
Notation "x <- m ;; k" := (bindB m (fun x => k))
  (at level 61, m at next level, right associativity) : board_scope.
Notation "m ;; k" := (bindB m (fun _ => k))
  (at level 61, right associativity) : board_scope.

(** [sei()]. *)
Definition sei : MB unit := modifyB (set_SREG_I true).

(** [initUSART], the same in both sketches. *)
Definition initUSART : MB unit :=
  (modifyB (set_UCSR0C (Z.lor (Z.shiftl 1 UCSZ00) (Z.shiftl 1 UCSZ01))) ;;
   modifyB (set_UBRR0 103) ;;
   modifyB (set_UCSR0B (Z.lor (Z.shiftl 1 RXEN0) (Z.shiftl 1 TXEN0))))%board.

(** ** Resistance/Resistance.ino *)
Module Resistance.

Definition MODE_IDLE : Z := 0.
Definition MODE_CAPACITANCE : Z := 3.
Definition MODE_RESISTANCE : Z := 2.
Definition MODE_VOLTAGE : Z := 1.
Definition MODE_CURRENT : Z := 4.

Definition pin_capacitance : Z := 0.
Definition pin_resistance : Z := 1.
Definition pin_voltage : Z := 2.
Definition pin_charge : Z := 4.
Definition pin_current : Z := 3.
Definition pin_ts : Z := 5.

(** [timer1_overflow += (float)(0xFFFF)/250.0f;] *)
Definition TIMER1_OVF_vect (s : machine) : machine :=
  set_timer1_overflow
    (timer1_overflow s + Float32.of_Z 65535 / Float32.of_Z 250)%f32 s.

Definition initTimer1 : M unit :=
  modify (set_TCCR1A 0) ;;
  modify (fun s => set_TIMSK1 (u8 (Z.lor (TIMSK1 s) 1)) s) ;;
  modify (set_timer1_overflow Float32.zero).

Definition startTimer1 : M unit :=
  initTimer1 ;;
  modify (set_TCCR1B (Z.lor (Z.shiftl 1 CS11) (Z.shiftl 1 CS10))) ;;
  modify (set_TCNT1 0).

Definition calculateCapacitance : M float :=
  modify (fun s => set_calls (calls s ++ [Call_calculateCapacitance]) s) ;;
  PIN_LOW B pin_charge ;;
  while_readADC TIMER1_OVF_vect pin_capacitance (fun v => negb (v =? 0)) ;;
  startTimer1 ;;
  PIN_HIGH B pin_charge ;;
  while_readADC TIMER1_OVF_vect pin_capacitance (fun v => v <? 647) ;;
  tc <- getMilliseconds_exec TIMER1_OVF_vect ;;
  PIN_LOW B pin_charge ;;
  stopTimer1 ;;
  ret (tc / Float32.of_Z 10)%f32.

Definition calculateResistance : M float :=
  modify (fun s => set_calls (calls s ++ [Call_calculateResistance]) s) ;;
  PIN_LOW B pin_charge ;;
  while_readADC TIMER1_OVF_vect pin_resistance (fun v => negb (v =? 0)) ;;
  startTimer1 ;;
  PIN_HIGH B pin_charge ;;
  while_readADC TIMER1_OVF_vect pin_resistance
    (fun v => u16 (1023 - v) <? 647) ;;
  tc <- getMilliseconds_exec TIMER1_OVF_vect ;;
  PIN_LOW B pin_charge ;;
  stopTimer1 ;;
  ret (tc / Float32.of_Z 100)%f32.

(** [while (!(UCSR0A & (1 << RXC0))); mode = UDR0; mode -= '0';] after the
    menu has been sent. *)
Definition checkMode : M unit :=
  USART_sendData ("SHYAM'S MULTIMETER" ++ LF) ;;
  USART_sendData ("KEY" ++ TAB ++ TAB ++ "FUNCTION" ++ LF) ;;
  USART_sendData ("1" ++ TAB ++ TAB ++ "VOLTMETER" ++ LF) ;;
  USART_sendData ("2" ++ TAB ++ TAB ++ "RESISTANCE METER" ++ LF) ;;
  USART_sendData ("3" ++ TAB ++ TAB ++ "CAPACITANCE METER" ++ LF) ;;
  USART_sendData ("4" ++ TAB ++ TAB ++ "AMMETER" ++ LF) ;;
  (fun s => match rx_feed s with
            | byte :: rest =>
                Ret tt (set_mode (u8 (u8 byte - 48)) (set_rx_feed rest s))
            | [] => Hang s
            end).

(** The two direct readings of [main]: [readADC(pin_voltage)*0.00488f] and
    [readADC(pin_current)*0.488f]. *)
Definition VOLTS_PER_COUNT : float := Float32.decimal 488 5.
Definition MILLIAMPS_PER_COUNT : float := Float32.decimal 488 3.

Definition toVoltage (sample : Z) : float :=
  (Float32.of_Z sample * VOLTS_PER_COUNT)%f32.

Definition toCurrent (sample : Z) : float :=
  (Float32.of_Z sample * MILLIAMPS_PER_COUNT)%f32.

(** The [switch (mode)] of [main], with [float value = 0;] before it; the
    result is [value] after it. *)
Definition main_switch : M float :=
  m <- gets mode ;;
  if m =? MODE_CAPACITANCE then
    USART_sendData ("Capacitance meter" ++ LF) ;;
    USART_sendData ("Calculating time constant..." ++ LF) ;;
    value <- calculateCapacitance ;;
    USART_sendData "The capacitance is: " ;;
    USART_sendFloat value ;;
    USART_sendData (" uF" ++ LF) ;;
    USART_sendByte 10 ;;
    ret value
  else if m =? MODE_RESISTANCE then
    USART_sendData ("Resistance meter" ++ LF) ;;
    USART_sendData ("Calculating time constant..." ++ LF) ;;
    value <- calculateResistance ;;
    USART_sendData "The resistance is: " ;;
    USART_sendFloat value ;;
    USART_sendData (" k ohm" ++ LF) ;;
    USART_sendByte 10 ;;
    ret value
  else if m =? MODE_VOLTAGE then
    USART_sendData ("Volt meter" ++ LF) ;;
    sample <- readADC TIMER1_OVF_vect pin_voltage ;;
    let value := toVoltage sample in
    USART_sendData "The Voltage is: " ;;
    USART_sendFloat value ;;
    USART_sendData (" V" ++ LF) ;;
    USART_sendByte 10 ;;
    ret value
  else if m =? MODE_CURRENT then
    USART_sendData ("Ammeter" ++ LF) ;;
    sample <- readADC TIMER1_OVF_vect pin_current ;;
    let value := toCurrent sample in
    USART_sendData "The current is: " ;;
    USART_sendFloat value ;;
    USART_sendData (" mA" ++ LF) ;;
    USART_sendByte 10 ;;
    ret value
  else
    USART_sendData ("Invalid" ++ LF) ;;
    ret Float32.zero.

Definition pin_led : list Z := [4; 5; 6; 7].

(** [pin_led[i]]. *)
Definition led (i : Z) : Z := nth (Z.to_nat i) pin_led 0.

Definition initPins : MB unit :=
  (modifyB (set_DDRC 0) ;;
   modifyB (fun b =>
     set_DDRB (u8 (Z.lor (DDRB b)
                     (Z.lor (Z.shiftl 1 pin_ts) (Z.shiftl 1 pin_charge)))) b) ;;
   modifyB (fun b =>
     set_DDRD (u8 (Z.lor (DDRD b)
                     (Z.lor (Z.lor (Z.lor (Z.shiftl 1 (led 0))
                                          (Z.shiftl 1 (led 1)))
                                   (Z.shiftl 1 (led 2)))
                            (Z.shiftl 1 (led 3))))) b) ;;
   on_mcu (PIN_LOW B pin_charge) ;;
   on_mcu (PIN_HIGH B pin_ts) ;;
   on_mcu (PIN_LOW D (led 0)) ;;
   on_mcu (PIN_LOW D (led 1)) ;;
   on_mcu (PIN_LOW D (led 2)) ;;
   on_mcu (PIN_LOW D (led 3)))%board.

Definition updateLED : M unit :=
  PIN_LOW D (led 0) ;;
  PIN_LOW D (led 1) ;;
  PIN_LOW D (led 2) ;;
  PIN_LOW D (led 3) ;;
  m <- gets mode ;;
  if (1 <=? m) && (m <=? 4) then PIN_HIGH D (led (m - 1)) else ret tt.

Definition main : MB Z :=
  (initPins ;;
   sei ;;
   initUSART ;;
   on_mcu initADC ;;
   on_mcu checkMode ;;
   on_mcu updateLED ;;
   on_mcu (USART_sendData "MODE: ") ;;
   value <- on_mcu main_switch ;;
   on_mcu (USART_sendData (LF ++ "RESET to reuse")) ;;
   retB 0)%board.

End Resistance.

(** ** The calibration sketch

    The second sketch of the repository measures the time constant of the
    reference network and prints it for ever.  It shares [readADC],
    [stopTimer1], [getMilliseconds] and the USART functions with
    [Resistance.ino]; its overflow handler and [startTimer1] differ. *)
Module Calibration.

Definition pin_capacitor : Z := 0.
Definition pin_charge : Z := 2.

(** [timer1_overflow += (float)TCNT1/250;] *)
Definition TIMER1_OVF_vect (s : machine) : machine :=
  set_timer1_overflow
    (timer1_overflow s + Float32.of_Z (TCNT1 s) / Float32.of_Z 250)%f32 s.

Definition initTimers : M unit :=
  modify (set_TCCR1A 0) ;;
  modify (fun s => set_TIMSK1 (u8 (Z.lor (TIMSK1 s) 1)) s).

Definition startTimer1 : M unit :=
  modify (set_TCCR1B (Z.lor (Z.shiftl 1 CS11) (Z.shiftl 1 CS10))) ;;
  modify (set_timer1_overflow Float32.zero) ;;
  modify (set_TCNT1 0).

Definition getTimeConstant : M float :=
  PIN_LOW D pin_charge ;;
  while_readADC TIMER1_OVF_vect 0 (fun v => negb (v =? 0)) ;;
  startTimer1 ;;
  PIN_HIGH D pin_charge ;;
  while_readADC TIMER1_OVF_vect 0 (fun v => v <? 645) ;;
  tc <- getMilliseconds ;;
  stopTimer1 ;;
  PIN_LOW D pin_charge ;;
  USART_sendData ("Callibration complete" ++ LF) ;;
  ret tc.

Definition initPins : MB unit :=
  (modifyB (fun b => set_DDRD (u8 (Z.lor (DDRD b) (Z.shiftl 1 pin_charge))) b) ;;
   modifyB (fun b =>
     set_DDRC (u8 (Z.land (DDRC b) (lnot (Z.shiftl 1 pin_capacitor)))) b) ;;
   on_mcu (PIN_LOW D pin_charge))%board.

(** The body of [while (1)] in [main], [rounds] times over. *)
Fixpoint main_loop (rounds : nat) : MB unit :=
  match rounds with
  | O => retB tt
  | S rounds' =>
      (on_mcu (USART_sendData "Time constant: ") ;;
       tc <- getsB time_constant ;;
       on_mcu (USART_sendFloat tc) ;;
       on_mcu (USART_sendByte 10) ;;
       main_loop rounds')%board
  end.

(** [main] up to the end of round [rounds] of its loop; it never returns. *)
Definition main (rounds : nat) : MB unit :=
  (initPins ;;
   sei ;;
   on_mcu initADC ;;
   on_mcu initTimers ;;
   initUSART ;;
   tc <- on_mcu getTimeConstant ;;
   modifyB (set_time_constant tc) ;;
   main_loop rounds)%board.

End Calibration.

(** ** Machines to run the firmware on *)

(** The registers after reset, with the inputs the environment will supply,
    and reads of the elapsed time that take no time. *)
Definition power_on (feed : list conversion) (rx : list Z) : machine :=
  {| ADMUX := 0; ADCSRA := 0; ADC := 0; PORTB := 0; PORTD := 0;
     TCCR1A := 0; TCCR1B := 0; TIMSK1 := 0; TCNT1 := 0;
     timer1_overflow := Float32.zero; mode := 0;
     adc_feed := feed; rx_feed := rx;
     load_first := OverflowFirst; load_gap := 0%nat;
     tx := []; calls := [] |}.

(** A conversion that takes [n] ticks and finds [v] on every channel. *)
Definition reading (n : nat) (v : Z) : conversion :=
  {| conv_ticks := n; conv_input := fun _ => v |}.

(** The machine once [main] has run [initADC]. *)
Definition booted (feed : list conversion) (rx : list Z) : machine :=
  final (initADC (power_on feed rx)).

(** The board after reset, around a machine. *)
Definition reset_board (s : machine) : board :=
  {| DDRB := 0; DDRC := 0; DDRD := 0; UCSR0B := 0; UCSR0C := 0; UBRR0 := 0;
     SREG_I := false; time_constant := Float32.zero; mcu := s |}.

(** * Vocabulary of the properties *)

(** ** Machines to reason about *)

(** An input network that puts [100 * k] counts on channel [k]. *)
Definition staircase : conversion :=
  {| conv_ticks := 0; conv_input := fun k => 100 * k |}.

(** A capacitor on channel 0 that charges past the threshold while 250110
    ticks (1000.44 ms) go by. *)
Definition slow_charge : list conversion :=
  [reading 3 5; reading 3 0;
   reading 100 300; reading (Z.to_nat 250000) 646; reading 10 647].

(** The timer of the calibration sketch one tick before its first wrap. *)
Definition calibration_before_wrap : machine :=
  ticks Calibration.TIMER1_OVF_vect (Z.to_nat 65535)
    (final ((Calibration.initTimers ;; Calibration.startTimer1)
              (power_on [] []))).

(** The timer of [Resistance.ino], [count] ticks after it was started. *)
Definition resistance_at (count : Z) : machine :=
  ticks Resistance.TIMER1_OVF_vect (Z.to_nat count)
    (final (Resistance.startTimer1 (power_on [] []))).

(** ** The timer *)

(** Both overflow handlers write [timer1_overflow] and nothing else. *)
Definition writes_overflow_only (isr : machine -> machine) : Prop :=
  forall s, isr s = set_timer1_overflow (timer1_overflow (isr s)) s.

(** The time the counter takes to run through its whole range,
    [MAX_TICK_VALUE / TICKS_PER_MILLISECOND] = 65535/250 ms, in binary32. *)
Definition FULL_RANGE : float := (Float32.of_Z 65535 / Float32.of_Z 250)%f32.

(** A timer that counts and interrupts on overflow. *)
Definition running (s : machine) : Prop :=
  clocked s = true /\ overflow_irq_enabled s = true /\ 0 <= TCNT1 s < 65536.

(** A running timer whose accumulator is a sound number. *)
Definition tracker_ok (s : machine) : Prop :=
  running s /\ sound (timer1_overflow s) = true.

(** What [getMilliseconds] reads when nothing happens between its loads. *)
Definition elapsed_of (s : machine) : float :=
  elapsed (timer1_overflow s) (TCNT1 s).

(** What [getMilliseconds] reads as a measurement calls it: one operand
    before and one after the ticks that go by between the loads. *)
Definition read_of (isr : machine -> machine) (s : machine) : float :=
  match load_first s with
  | OverflowFirst =>
      elapsed (timer1_overflow s) (TCNT1 (ticks isr (load_gap s) s))
  | CountFirst =>
      elapsed (timer1_overflow (ticks isr (load_gap s) s)) (TCNT1 s)
  end.

(** [(float)(count)/250.0f], and a check that from [count] on, [n] more
    times, it is a sound number not below the one before it. *)
Definition quotient (count : Z) : float :=
  (Float32.of_Z count / Float32.of_Z 250)%f32.

Fixpoint quotients_ascend (n : nat) (count : Z) (prev : float) : bool :=
  let q := quotient count in
  sound q && (prev <=? q)%f32 &&
  match n with
  | O => true
  | S n' => quotients_ascend n' (count + 1) q
  end.

(** The charge line low, the timer stopped, accumulator and counter zero. *)
Definition idle (s : machine) : Prop :=
  Z.testbit (PORTB s) Resistance.pin_charge = false /\
  TCCR1B s = 0 /\ clocked s = false /\
  timer1_overflow s = Float32.zero /\
  TCNT1 s = 0.

(** ** [readADC] and the polling loops *)

(** The machine when the conversion has been started, and when its result
    has been fetched. *)
Definition started (pin : Z) (s : machine) : machine :=
  write_ADCSRA (Z.lor (ADCSRA s) (Z.shiftl 1 ADSC))
    (set_ADMUX (u8 (Z.lor (ADMUX s) (u8 pin)))
       (set_calls (calls s ++ [Call_readADC pin]) s)).

Definition fetched (isr : machine -> machine) (pin : Z) (c : conversion)
    (feed : list conversion) (s : machine) : machine :=
  let s3 := complete_conversion isr c (set_adc_feed feed (started pin s)) in
  write_ADCSRA (Z.lor (ADCSRA s3) (Z.shiftl 1 ADIF)) s3.

(** What a conversion reads once [pin] has been OR-ed into [admux]. *)
Definition sampled (admux pin : Z) (c : conversion) : Z :=
  Z.land (conv_input c (Z.land (u8 (Z.lor admux (u8 pin))) 15)) 1023.

(** The converter as [initADC] sets it up: enabled, a single conversion per
    start, no conversion-complete interrupt, the result right-adjusted.  The
    converter of this model is the converter in that configuration. *)
Definition converter_ready (s : machine) : Prop :=
  Z.testbit (ADCSRA s) ADEN = true /\
  Z.testbit (ADCSRA s) ADATE = false /\
  Z.testbit (ADCSRA s) ADIE = false /\
  Z.testbit (ADMUX s) ADLAR = false.

(** How the machine lays out a read of the elapsed time. *)
Definition loads (s : machine) : load_order * nat :=
  (load_first s, load_gap s).

(** What [n] calls of [readADC pin] leave alone, and what they record. *)
Definition polled (pin : Z) (n : nat) (s s' : machine) : Prop :=
  ADMUX s' = u8 (Z.lor (ADMUX s) (u8 pin)) /\
  PORTB s' = PORTB s /\ PORTD s' = PORTD s /\
  TCCR1A s' = TCCR1A s /\ TCCR1B s' = TCCR1B s /\ TIMSK1 s' = TIMSK1 s /\
  mode s' = mode s /\ rx_feed s' = rx_feed s /\ tx s' = tx s /\
  calls s' = calls s ++ repeat (Call_readADC pin) n.

(** The loop [while (again (readADC (pin)))] goes round on conversion [c]
    when started from [s]. *)
Definition goes_on (pin : Z) (again : Z -> bool) (s : machine)
    (c : conversion) : Prop :=
  again (sampled (ADMUX s) pin c) = true.

(** ** The transient measurements *)

(** [feed] leads a measurement through both loops and leaves [rest]: the
    discharge loop goes on over [pre_d] and ends on [d], the charge loop
    goes on over [pre_c] and ends on [c]. *)
Definition leads_through (pin : Z) (discharging charging : Z -> bool)
    (admux : Z) (feed rest : list conversion) : Prop :=
  exists pre_d d pre_c c,
    feed = pre_d ++ d :: pre_c ++ c :: rest /\
    Forall (fun x => discharging (sampled admux pin x) = true) pre_d /\
    discharging (sampled admux pin d) = false /\
    Forall (fun x => charging (sampled admux pin x) = true) pre_c /\
    charging (sampled admux pin c) = false.

(** [f] returns exactly on the feeds that lead it through, having consumed
    them up to the conversion that ended the charge loop. *)
Definition polls_through (pin : Z) (discharging charging : Z -> bool)
    {A} (f : M A) : Prop :=
  forall s rest,
    (exists v s', f s = Ret v s' /\ adc_feed s' = rest) <->
    leads_through pin discharging charging (ADMUX s) (adc_feed s) rest.

(** Straight-line code that leaves the converter alone. *)
Definition quiet {A} (m : M A) : Prop :=
  forall s, exists v s',
    m s = Ret v s' /\ ADMUX s' = ADMUX s /\ adc_feed s' = adc_feed s.

(** Code that returns and enters no routine. *)
Definition silent {A} (m : M A) : Prop :=
  forall s, exists v s', m s = Ret v s' /\ calls s' = calls s.

(** The shape the three measurements share: some register writes, the
    discharge loop, more register writes, the charge loop, the read-out. *)
Definition transient (isr : machine -> machine) (pin : Z)
    (discharging charging : Z -> bool) (before between : M unit)
    {A} (after : M A) : M A :=
  before ;;
  while_readADC isr pin discharging ;;
  between ;;
  while_readADC isr pin charging ;;
  after.

(** The same up to the sample that ends the charge loop. *)
Definition until_crossing (isr : machine -> machine) (pin : Z)
    (discharging charging : Z -> bool) (before between : M unit) : M unit :=
  before ;;
  while_readADC isr pin discharging ;;
  between ;;
  while_readADC isr pin charging.

(** The three measurements, cut at their loops. *)
Definition capacitance_before : M unit :=
  modify (fun s => set_calls (calls s ++ [Call_calculateCapacitance]) s) ;;
  PIN_LOW B Resistance.pin_charge.

Definition resistance_before : M unit :=
  modify (fun s => set_calls (calls s ++ [Call_calculateResistance]) s) ;;
  PIN_LOW B Resistance.pin_charge.

Definition charge_start : M unit :=
  Resistance.startTimer1 ;; PIN_HIGH B Resistance.pin_charge.

Definition read_out (divisor : Z) : M float :=
  tc <- getMilliseconds_exec Resistance.TIMER1_OVF_vect ;;
  PIN_LOW B Resistance.pin_charge ;;
  stopTimer1 ;;
  ret (tc / Float32.of_Z divisor)%f32.

(** [calculateCapacitance] and [calculateResistance] up to the crossing. *)
Definition capacitance_until_crossing : M unit :=
  until_crossing Resistance.TIMER1_OVF_vect Resistance.pin_capacitance
    (fun v => negb (v =? 0)) (fun v => v <? 647)
    capacitance_before charge_start.

Definition resistance_until_crossing : M unit :=
  until_crossing Resistance.TIMER1_OVF_vect Resistance.pin_resistance
    (fun v => negb (v =? 0)) (fun v => u16 (1023 - v) <? 647)
    resistance_before charge_start.

Definition calibration_start : M unit :=
  Calibration.startTimer1 ;; PIN_HIGH D Calibration.pin_charge.

Definition calibration_read_out : M float :=
  tc <- getMilliseconds ;;
  stopTimer1 ;;
  PIN_LOW D Calibration.pin_charge ;;
  USART_sendData ("Callibration complete" ++ LF) ;;
  ret tc.

(** ** The direct readings *)

(** Every element is below all that follow it. *)
Fixpoint ascending (l : list float) : bool :=
  match l with
  | [] => true
  | x :: rest => forallb (fun y => (x <? y)%f32) rest && ascending rest
  end.

(** The sample domain, 0 to [MAX_SAMPLE] = 1023. *)
Definition samples : list Z := map Z.of_nat (seq 0 1024).

(** ** Ticks and laps *)

(** [k] times the full range, added up as the overflow handler of
    [Resistance.ino] does. *)
Definition laps (k : nat) : float :=
  Nat.iter k (fun a => (a + FULL_RANGE)%f32) Float32.zero.

(** A timer just started: clocked, counter and accumulator zero. *)
Definition fresh (s : machine) : Prop :=
  clocked s = true /\ TCNT1 s = 0 /\ timer1_overflow s = Float32.zero.

(** Whole laps and the rest of [n] ticks. *)
Definition laps_of (n : nat) : nat := Z.to_nat (Z.of_nat n / 65536).
Definition rest_of (n : nat) : Z := Z.of_nat n mod 65536.

(** What a read laid out as [first] and [gap] returns, [n] ticks after the
    timer of [Resistance.ino] was started: one operand as it is after [n]
    ticks, the other as it is [gap] ticks later. *)
Definition read_after (first : load_order) (gap n : nat) : float :=
  match first with
  | OverflowFirst => (laps (laps_of n) + quotient (rest_of (n + gap)))%f32
  | CountFirst => (laps (laps_of (n + gap)) + quotient (rest_of n))%f32
  end.

(** The ticks that go by during the conversions of [l]. *)
Definition ticks_of (l : list conversion) : nat :=
  fold_right (fun c n => (conv_ticks c + n)%nat) 0%nat l.

(** Two machines whose timers are in the same state. *)
Definition same_timer (s t : machine) : Prop :=
  TCCR1B s = TCCR1B t /\ TIMSK1 s = TIMSK1 t /\
  TCNT1 s = TCNT1 t /\ timer1_overflow s = timer1_overflow t.

(** A handler whose addend depends on the timer alone. *)
Definition reads_timer_only (isr : machine -> machine) : Prop :=
  forall s t, TCNT1 s = TCNT1 t -> timer1_overflow s = timer1_overflow t ->
              timer1_overflow (isr s) = timer1_overflow (isr t).

(** [feed] leads a measurement through both loops, leaves [rest], and the
    conversions of the charge loop, the one that ends it included, are
    [charge]. *)
Definition charges_over (pin : Z) (discharging charging : Z -> bool)
    (admux : Z) (feed rest charge : list conversion) : Prop :=
  exists pre_d d pre_c c,
    feed = pre_d ++ d :: pre_c ++ c :: rest /\
    Forall (fun x => discharging (sampled admux pin x) = true) pre_d /\
    discharging (sampled admux pin d) = false /\
    Forall (fun x => charging (sampled admux pin x) = true) pre_c /\
    charging (sampled admux pin c) = false /\
    charge = pre_c ++ [c].

(** ** The front end and [main] *)

(** The menu [checkMode] prints. *)
Definition menu : list tx_item :=
  [TxStr ("SHYAM'S MULTIMETER" ++ LF);
   TxStr ("KEY" ++ TAB ++ TAB ++ "FUNCTION" ++ LF);
   TxStr ("1" ++ TAB ++ TAB ++ "VOLTMETER" ++ LF);
   TxStr ("2" ++ TAB ++ TAB ++ "RESISTANCE METER" ++ LF);
   TxStr ("3" ++ TAB ++ TAB ++ "CAPACITANCE METER" ++ LF);
   TxStr ("4" ++ TAB ++ TAB ++ "AMMETER" ++ LF)].

(** The character a host sends for key [k]. *)
Definition key (k : Z) : Z := 48 + k.


(** What [PORTD] shows for a mode: the LED of modes 1 to 4 on pins 4 to 7. *)
Definition led_lit (m : Z) : Z :=
  if (1 <=? m) && (m <=? 4) then 2 ^ (m + 3) else 0.

(** What a measurement leaves alone: port D and what was sent. *)
Definition kept (s s' : machine) : Prop :=
  PORTD s' = PORTD s /\ tx s' = tx s.

(** [main] up to its [switch]. *)
Definition front (b : board) (byte : Z) (rx : list Z) : board :=
  let m := u8 (u8 byte - 48) in
  set_mcu
    (set_tx (tx (mcu b) ++ menu ++ [TxStr "MODE: "])
       (set_PORTD (led_lit m)
          (set_mode m
             (set_rx_feed rx
                (final (initADC (set_PORTD 0 (set_PORTB 32 (mcu b)))))))))
    (set_UCSR0B 24
       (set_UBRR0 103
          (set_UCSR0C 6
             (set_SREG_I true
                (set_DDRD (u8 (Z.lor (DDRD b) 240))
                   (set_DDRB (u8 (Z.lor (DDRB b) 48)) (set_DDRC 0 b))))))).

(** What one round of the loop of [main] sends. *)
Definition report (tc : float) : list tx_item :=
  [TxStr "Time constant: "; TxFloat tc; TxByte 10].

(** * Properties *)

(** ** binary32 arithmetic on sound numbers *)

Lemma round24_small (n : Z) : Z.log2 n < 24 -> round24 n = n.
Proof.
  intros H. unfold round24.
  destruct (Z.leb_spec (Z.log2 n + 1 - 24) 0); [reflexivity|lia].
Qed.

(** A number of [d > 24] bits rounds into [2^(d-1), 2^d]. *)
Lemma round24_range (n : Z) :
  0 < n ->
  2 ^ Z.log2 n <= round24 n <= 2 ^ (Z.log2 n + 1).
Proof.
  intros Hn. pose proof (Z.log2_spec n Hn) as [Hlo Hhi].
  replace (Z.succ (Z.log2 n)) with (Z.log2 n + 1) in Hhi by lia.
  unfold round24.
  destruct (Z.leb_spec (Z.log2 n + 1 - 24) 0) as [Hk|Hk]; [lia|].
  set (k := Z.log2 n + 1 - 24) in *.
  assert (Hpk : 0 < 2 ^ k) by (apply Z.pow_pos_nonneg; lia).
  pose proof (Z.div_mod n (2 ^ k) ltac:(lia)) as Hdm.
  pose proof (Z.mod_pos_bound n (2 ^ k) Hpk) as Hr.
  set (q := n / 2 ^ k) in *. set (r := n mod 2 ^ k) in *.
  assert (E1 : 2 ^ Z.log2 n = 2 ^ 23 * 2 ^ k)
    by (rewrite <- Z.pow_add_r by lia; f_equal; lia).
  assert (E2 : 2 ^ (Z.log2 n + 1) = 2 ^ 24 * 2 ^ k)
    by (rewrite <- Z.pow_add_r by lia; f_equal; lia).
  assert (Hq : 2 ^ 23 <= q < 2 ^ 24) by (split; nia).
  rewrite E1, E2.
  destruct ((2 ^ k <? 2 * r) || ((2 * r =? 2 ^ k) && Z.odd q)); nia.
Qed.

Lemma round24_mono (a b : Z) : 0 <= a <= b -> round24 a <= round24 b.
Proof.
  intros [Ha Hab].
  destruct (Z.eq_dec a 0) as [->|Ha0].
  { rewrite (round24_small 0) by (simpl; lia).
    destruct (Z.eq_dec b 0) as [->|Hb0].
    - rewrite round24_small; simpl; lia.
    - pose proof (round24_range b ltac:(lia)).
      assert (0 < 2 ^ Z.log2 b)
        by (apply Z.pow_pos_nonneg; [lia | apply Z.log2_nonneg]).
      lia. }
  assert (Hpa : 0 < a) by lia. assert (Hpb : 0 < b) by lia.
  pose proof (Z.log2_le_mono a b Hab) as Hl.
  destruct (Z.eq_dec (Z.log2 a) (Z.log2 b)) as [El|Nl].
  - unfold round24. rewrite El.
    destruct (Z.leb_spec (Z.log2 b + 1 - 24) 0) as [Hk|Hk]; [lia|].
    set (k := Z.log2 b + 1 - 24) in *.
    assert (Hpk : 0 < 2 ^ k) by (apply Z.pow_pos_nonneg; lia).
    pose proof (Z.div_mod a (2 ^ k) ltac:(lia)) as Hda.
    pose proof (Z.mod_pos_bound a (2 ^ k) Hpk) as Hra.
    pose proof (Z.div_mod b (2 ^ k) ltac:(lia)) as Hdb.
    pose proof (Z.mod_pos_bound b (2 ^ k) Hpk) as Hrb.
    set (qa := a / 2 ^ k) in *. set (ra := a mod 2 ^ k) in *.
    set (qb := b / 2 ^ k) in *. set (rb := b mod 2 ^ k) in *.
    assert (Hq : qa <= qb) by nia.
    apply Z.mul_le_mono_nonneg_r; [lia|].
    destruct (Z.eq_dec qa qb) as [Eq|Nq].
    + rewrite Eq in *. assert (Hrr : ra <= rb) by lia.
      destruct (Z.ltb_spec (2 ^ k) (2 * ra)) as [H1|H1];
        destruct (Z.ltb_spec (2 ^ k) (2 * rb)) as [H2|H2];
        destruct (Z.eqb_spec (2 * ra) (2 ^ k)) as [E1|E1];
        destruct (Z.eqb_spec (2 * rb) (2 ^ k)) as [E2|E2];
        destruct (Z.odd qb); simpl; lia.
    + destruct ((2 ^ k <? 2 * ra) || ((2 * ra =? 2 ^ k) && Z.odd qa));
        destruct ((2 ^ k <? 2 * rb) || ((2 * rb =? 2 ^ k) && Z.odd qb)); lia.
  - pose proof (round24_range a Hpa) as [_ Hra].
    pose proof (round24_range b Hpb) as [Hrb _].
    assert (2 ^ (Z.log2 a + 1) <= 2 ^ Z.log2 b)
      by (apply Z.pow_le_mono_r; lia).
    lia.
Qed.

Lemma digits2_size (m : positive) : digits2_pos m = Pos.size m.
Proof. induction m; simpl; congruence. Qed.

Lemma digits_log2 (m : positive) : Z.pos (digits2_pos m) = Z.log2 (Z.pos m) + 1.
Proof.
  rewrite digits2_size. destruct m; simpl; try rewrite Pos2Z.inj_succ; lia.
Qed.

Lemma pos_log2_bounds (m : positive) :
  2 ^ Z.log2 (Z.pos m) <= Z.pos m < 2 ^ (Z.log2 (Z.pos m) + 1).
Proof.
  pose proof (Z.log2_spec (Z.pos m) ltac:(lia)) as H.
  replace (Z.succ (Z.log2 (Z.pos m))) with (Z.log2 (Z.pos m) + 1) in H by lia.
  exact H.
Qed.

(** A bounded mantissa is subnormal at the least exponent, or has 24 bits. *)
Lemma bounded_spec (m : positive) (e : Z) :
  bounded 24 128 m e = true <->
  ((e = -149 /\ Z.log2 (Z.pos m) <= 23) \/ (Z.log2 (Z.pos m) = 23 /\ -149 <= e))
  /\ e <= 104.
Proof.
  unfold bounded, canonical_mantissa, fexp, emin.
  rewrite andb_true_iff, Z.eqb_eq, Z.leb_le, digits_log2. lia.
Qed.

Lemma pow2_pos (k : Z) : 0 <= k -> 0 < 2 ^ k.
Proof. intros. apply Z.pow_pos_nonneg; lia. Qed.

Lemma pow2_split (a b : Z) : 0 <= a <= b -> 2 ^ b = 2 ^ a * 2 ^ (b - a).
Proof. intros. rewrite <- Z.pow_add_r by lia. f_equal. lia. Qed.

Lemma fkey_finite_bounds (m : positive) (e : Z) :
  bounded 24 128 m e = true ->
  0 < Z.pos m * 2 ^ (e + 149) < 2 ^ 277 /\
  (-149 < e -> 2 ^ 23 * 2 ^ (e + 149) <= Z.pos m * 2 ^ (e + 149)) /\
  Z.pos m * 2 ^ (e + 149) < 2 ^ 24 * 2 ^ (e + 149).
Proof.
  intros H. apply bounded_spec in H. destruct H as [H He].
  pose proof (pos_log2_bounds m) as [Hlo Hhi].
  assert (Hp : 0 < 2 ^ (e + 149)) by (apply pow2_pos; lia).
  assert (Hm24 : Z.pos m < 2 ^ 24).
  { eapply Z.lt_le_trans; [exact Hhi|]. apply Z.pow_le_mono_r; lia. }
  assert (H277 : 2 ^ 277 = 2 ^ 24 * 2 ^ (e + 149) * 2 ^ (104 - e)).
  { rewrite <- !Z.pow_add_r by lia. f_equal. lia. }
  assert (0 < 2 ^ (104 - e)) by (apply pow2_pos; lia).
  split; [split; [nia|]|split].
  - rewrite H277. nia.
  - intros He'. assert (Z.log2 (Z.pos m) = 23) as E by lia.
    rewrite E in Hlo. nia.
  - nia.
Qed.

(** On sound numbers the comparison of floats is that of their keys. *)
Lemma f32_leb_key (x y : spec_float) :
  sound x = true -> sound y = true ->
  SFleb x y = (fkey x <=? fkey y).
Proof.
  destruct x as [[]|[]| |[] mx ex]; try discriminate;
    destruct y as [[]|[]| |[] my ey]; try discriminate;
    intros Hx Hy; cbn [sound] in Hx, Hy; unfold SFleb, SFcompare; cbn [fkey];
    try reflexivity.
  - pose proof (fkey_finite_bounds my ey Hy) as ((H & _) & _).
    symmetry. apply Z.leb_le. lia.
  - pose proof (fkey_finite_bounds my ey Hy) as ((_ & H) & _).
    symmetry. apply Z.leb_gt. lia.
  - pose proof (fkey_finite_bounds mx ex Hx) as ((H & _) & _).
    symmetry. apply Z.leb_gt. lia.
  - pose proof (fkey_finite_bounds mx ex Hx) as ((_ & H) & _).
    symmetry. apply Z.leb_le. lia.
  - pose proof (fkey_finite_bounds mx ex Hx) as (_ & Hxlo & Hxhi).
    pose proof (fkey_finite_bounds my ey Hy) as (_ & Hylo & Hyhi).
    assert (Hex : -149 <= ex) by (apply bounded_spec in Hx; lia).
    assert (Hey : -149 <= ey) by (apply bounded_spec in Hy; lia).
    destruct (Z.compare_spec ex ey) as [E|E|E].
    + subst ey. rewrite Pos.compare_cont_spec. cbn [Pos.switch_Eq].
      assert (Hp : 0 < 2 ^ (ex + 149)) by (apply pow2_pos; lia).
      destruct (Pos.compare_spec mx my) as [E|E|E]; symmetry.
      * subst. apply Z.leb_le. lia.
      * apply Z.leb_le. nia.
      * apply Z.leb_gt. nia.
    + symmetry. apply Z.leb_le.
      specialize (Hylo ltac:(lia)).
      rewrite (pow2_split (ex + 149) (ey + 149)) in * by lia.
      assert (HQ : 2 <= 2 ^ (ey + 149 - (ex + 149))).
      { change 2 with (2 ^ 1) at 1. apply Z.pow_le_mono_r; lia. }
      assert (Hp : 0 < 2 ^ (ex + 149)) by (apply pow2_pos; lia).
      set (P := 2 ^ (ex + 149)) in *.
      set (Q := 2 ^ (ey + 149 - (ex + 149))) in *.
      change (2 ^ 24) with 16777216 in *. change (2 ^ 23) with 8388608 in *.
      assert (P * 2 <= P * Q) by (apply Z.mul_le_mono_nonneg_l; lia).
      lia.
    + symmetry. apply Z.leb_gt.
      specialize (Hxlo ltac:(lia)).
      rewrite (pow2_split (ey + 149) (ex + 149)) in * by lia.
      assert (HQ : 2 <= 2 ^ (ex + 149 - (ey + 149))).
      { change 2 with (2 ^ 1) at 1. apply Z.pow_le_mono_r; lia. }
      assert (Hp : 0 < 2 ^ (ey + 149)) by (apply pow2_pos; lia).
      set (P := 2 ^ (ey + 149)) in *.
      set (Q := 2 ^ (ex + 149 - (ey + 149))) in *.
      change (2 ^ 24) with 16777216 in *. change (2 ^ 23) with 8388608 in *.
      assert (P * 2 <= P * Q) by (apply Z.mul_le_mono_nonneg_l; lia).
      lia.
Qed.

Lemma shifted_start (m : Z) :
  0 <= m -> shifted m 0 (Build_shr_record m false false).
Proof.
  intros Hm. split; [exact Hm|]. exists 0. cbn [shr_m shr_r shr_s].
  split; [lia|]. split; [right; auto|]. split; [reflexivity|lia].
Qed.

Lemma shifted_step (m j : Z) (rec : shr_record) :
  0 <= j -> shifted m j rec -> shifted m (j + 1) (shr_1 rec).
Proof.
  intros Hj (Hm & lo & Hlo & Hrange & Hs & Heq).
  destruct rec as [q r s]. cbn [shr_m shr_r shr_s] in *.
  assert (Hp : 0 < 2 ^ j) by (apply pow2_pos; lia).
  assert (Hp1 : 2 ^ (j + 1) = 2 * 2 ^ j)
    by (rewrite Z.pow_add_r by lia; change (2 ^ 1) with 2; lia).
  assert (Hhalf : 0 < j -> 2 ^ j = 2 * 2 ^ (j - 1)).
  { intros. rewrite (pow2_split 1 j) by lia. reflexivity. }
  set (rem := (if r then 2 ^ (j - 1) else 0) + lo) in *.
  assert (Hrem : 0 <= rem < 2 ^ j).
  { unfold rem. destruct Hrange as [Hr|(-> & -> & ->)]; [|simpl; lia].
    destruct (Z.eq_dec j 0) as [->|Hj0]; [simpl in Hr; lia|].
    specialize (Hhalf ltac:(lia)).
    assert (0 < 2 ^ (j - 1)) by (apply pow2_pos; lia).
    destruct r; lia. }
  assert (Hsticky : (r || s)%bool = negb (rem =? 0)).
  { unfold rem. rewrite Hs.
    destruct Hrange as [Hr|(-> & -> & ->)]; [|reflexivity].
    destruct (Z.eq_dec j 0) as [->|Hj0]; [simpl in Hr; lia|].
    assert (0 < 2 ^ (j - 1)) by (apply pow2_pos; lia).
    destruct r; simpl.
    - symmetry. apply negb_true_iff, Z.eqb_neq. lia.
    - reflexivity. }
  unfold shifted. replace (j + 1 - 1) with j by lia.
  destruct q as [|[p|p|]|p]; try lia; cbn [shr_1 shr_m shr_r shr_s];
    (split; [lia|]); exists rem; rewrite Hsticky;
    (split; [lia|]); (split; [left; lia|]); (split; [reflexivity|]);
    rewrite Hp1.
  - lia.
  - rewrite Pos2Z.inj_xI in Heq. lia.
  - rewrite Pos2Z.inj_xO in Heq. lia.
  - lia.
Qed.

Lemma shifted_iter (m : Z) (p : positive) :
  forall j rec, 0 <= j -> shifted m j rec ->
                shifted m (j + Z.pos p) (iter_pos shr_1 p rec).
Proof.
  induction p as [p IH|p IH|]; intros j rec Hj H; cbn [iter_pos].
  - replace (j + Z.pos p~1) with (j + 1 + Z.pos p + Z.pos p) by lia.
    apply IH; [lia|]. apply IH; [lia|]. now apply shifted_step.
  - replace (j + Z.pos p~0) with (j + Z.pos p + Z.pos p) by lia.
    apply IH; [lia|]. now apply IH.
  - now apply shifted_step.
Qed.

(** What rounding makes of a shifted mantissa. *)
Lemma shifted_rne (m n : Z) (rec : shr_record) :
  0 < n -> shifted m n rec ->
  round_nearest_even (shr_m rec) (loc_of_shr_record rec) = rne m n.
Proof.
  intros Hn (Hm & lo & Hlo & Hrange & Hs & Heq).
  destruct rec as [q r s]. cbn [shr_m shr_r shr_s] in *.
  destruct Hrange as [Hr|(-> & _)]; [|lia].
  assert (Hhalf : 2 ^ n = 2 * 2 ^ (n - 1)).
  { rewrite (pow2_split 1 n) by lia. reflexivity. }
  assert (Hp : 0 < 2 ^ (n - 1)) by (apply pow2_pos; lia).
  set (rem := (if r then 2 ^ (n - 1) else 0) + lo) in *.
  assert (Hrem : 0 <= rem < 2 ^ n) by (unfold rem; destruct r; lia).
  assert (Hq : m / 2 ^ n = q).
  { symmetry. apply (Z.div_unique m (2 ^ n) q rem); [lia|lia]. }
  assert (Hmod : m mod 2 ^ n = rem).
  { symmetry. apply (Z.mod_unique m (2 ^ n) q rem); [lia|lia]. }
  unfold rne. rewrite Hq, Hmod.
  unfold rem.
  destruct (Z.eqb_spec lo 0) as [Hz|Hz]; cbn [negb] in Hs; subst s;
    destruct r; cbn [loc_of_shr_record round_nearest_even].
  - subst lo. replace (2 ^ n <? 2 * (2 ^ (n - 1) + 0)) with false
      by (symmetry; apply Z.ltb_ge; lia).
    replace (2 * (2 ^ (n - 1) + 0) =? 2 ^ n) with true
      by (symmetry; apply Z.eqb_eq; lia).
    cbn [orb andb]. change (IntDef.Z.even q) with (Z.even q).
    rewrite <- Z.negb_odd. destruct (Z.odd q); cbn [negb]; lia.
  - subst lo. replace (2 ^ n <? 2 * (0 + 0)) with false
      by (symmetry; apply Z.ltb_ge; lia).
    replace (2 * (0 + 0) =? 2 ^ n) with false
      by (symmetry; apply Z.eqb_neq; lia).
    cbn [orb andb]. lia.
  - replace (2 ^ n <? 2 * (2 ^ (n - 1) + lo)) with true
      by (symmetry; apply Z.ltb_lt; lia). cbn [orb]. lia.
  - replace (2 ^ n <? 2 * (0 + lo)) with false
      by (symmetry; apply Z.ltb_ge; lia).
    replace (2 * (0 + lo) =? 2 ^ n) with false
      by (symmetry; apply Z.eqb_neq; lia).
    cbn [orb andb]. lia.
Qed.

Lemma log2_scaled (m : positive) (c : Z) :
  0 <= c -> Z.log2 (Z.pos m * 2 ^ c) = Z.log2 (Z.pos m) + c.
Proof. intros Hc. rewrite Z.log2_mul_pow2 by lia. lia. Qed.

(** Rounding a number that fits leaves it as it is. *)
Lemma round24_exact (m : positive) (c : Z) :
  0 <= c -> Z.log2 (Z.pos m) <= 23 ->
  (0 < c -> Z.log2 (Z.pos m) = 23) ->
  round24 (Z.pos m * 2 ^ c) = Z.pos m * 2 ^ c.
Proof.
  intros Hc Hl Hn. unfold round24. rewrite log2_scaled by lia.
  destruct (Z.leb_spec (Z.log2 (Z.pos m) + c + 1 - 24) 0) as [Hk|Hk];
    [reflexivity|].
  rewrite Hn by lia. replace (23 + c + 1 - 24) with c by lia.
  assert (Hp : 0 < 2 ^ c) by (apply pow2_pos; lia).
  rewrite Z.div_mul, Z.mod_mul by lia.
  replace (2 ^ c <? 2 * 0) with false by (symmetry; apply Z.ltb_ge; lia).
  replace (2 * 0 =? 2 ^ c) with false by (symmetry; apply Z.eqb_neq; lia).
  cbn [orb andb]. lia.
Qed.

Lemma clamp_sound (m : positive) (e : Z) :
  bounded 24 128 m e = true ->
  clamp (Z.pos m * 2 ^ (e + 149)) = Z.pos m * 2 ^ (e + 149).
Proof.
  intros Hb. pose proof (fkey_finite_bounds m e Hb) as ((_ & Hlt) & _).
  apply bounded_spec in Hb. unfold clamp.
  rewrite round24_exact by lia. lia.
Qed.

(** Rounding [M * 2^c], for [M] of more than 24 bits, rounds [M]. *)
Lemma round24_scaled (M : positive) (c : Z) :
  0 <= c -> 0 < Z.log2 (Z.pos M) - 23 ->
  round24 (Z.pos M * 2 ^ c) =
  rne (Z.pos M) (Z.log2 (Z.pos M) - 23) * 2 ^ (Z.log2 (Z.pos M) - 23 + c).
Proof.
  intros Hc Hn. unfold round24, rne. rewrite log2_scaled by lia.
  set (n := Z.log2 (Z.pos M) - 23) in *.
  replace (Z.log2 (Z.pos M) + c + 1 - 24) with (n + c) by (unfold n; lia).
  destruct (Z.leb_spec (n + c) 0) as [Hk|Hk]; [lia|].
  assert (Hpn : 0 < 2 ^ n) by (apply pow2_pos; lia).
  assert (Hpc : 0 < 2 ^ c) by (apply pow2_pos; lia).
  rewrite Z.pow_add_r by lia.
  rewrite Z.div_mul_cancel_r by lia.
  rewrite Z.mul_mod_distr_r by lia.
  set (q := Z.pos M / 2 ^ n). set (r := Z.pos M mod 2 ^ n).
  replace (2 ^ n * 2 ^ c <? 2 * (r * 2 ^ c)) with (2 ^ n <? 2 * r).
  2:{ destruct (Z.ltb_spec (2 ^ n) (2 * r)); symmetry;
        [apply Z.ltb_lt|apply Z.ltb_ge]; nia. }
  replace (2 * (r * 2 ^ c) =? 2 ^ n * 2 ^ c) with (2 * r =? 2 ^ n).
  2:{ destruct (Z.eqb_spec (2 * r) (2 ^ n)); symmetry;
        [apply Z.eqb_eq|apply Z.eqb_neq]; nia. }
  reflexivity.
Qed.

Lemma rne_range (M : positive) :
  0 < Z.log2 (Z.pos M) - 23 ->
  2 ^ 23 <= rne (Z.pos M) (Z.log2 (Z.pos M) - 23) <= 2 ^ 24.
Proof.
  intros Hn. pose proof (pos_log2_bounds M) as [Hlo Hhi].
  set (n := Z.log2 (Z.pos M) - 23) in *.
  assert (Hpn : 0 < 2 ^ n) by (apply pow2_pos; lia).
  rewrite (pow2_split n (Z.log2 (Z.pos M))) in Hlo by (unfold n; lia).
  rewrite (pow2_split n (Z.log2 (Z.pos M) + 1)) in Hhi by (unfold n; lia).
  replace (Z.log2 (Z.pos M) - n) with 23 in Hlo by (unfold n; lia).
  replace (Z.log2 (Z.pos M) + 1 - n) with 24 in Hhi by (unfold n; lia).
  unfold rne.
  pose proof (Z.div_mod (Z.pos M) (2 ^ n) ltac:(lia)) as Hdm.
  pose proof (Z.mod_pos_bound (Z.pos M) (2 ^ n) Hpn) as Hr.
  set (q := Z.pos M / 2 ^ n) in *. set (r := Z.pos M mod 2 ^ n) in *.
  assert (Hq : 2 ^ 23 <= q < 2 ^ 24) by (split; nia).
  destruct ((2 ^ n <? 2 * r) || ((2 * r =? 2 ^ n) && Z.odd q)); lia.
Qed.

Lemma shl_align_value (m : positive) (e e' : Z) :
  snd (shl_align m e e') = Z.min e e' /\
  Z.pos (fst (shl_align m e e')) = Z.pos m * 2 ^ (e - Z.min e e').
Proof.
  unfold shl_align. destruct (e' - e) as [|d|d] eqn:E; cbn [fst snd].
  - split; [lia|]. replace (e - Z.min e e') with 0 by lia. lia.
  - split; [lia|]. replace (e - Z.min e e') with 0 by lia. lia.
  - split; [lia|]. replace (e - Z.min e e') with (Z.pos d) by lia.
    change (Pos.iter xO m d) with (shift_pos d m).
    rewrite shift_pos_correct. rewrite Zpower_pos_nat, Zpower_nat_Z.
    rewrite positive_nat_Z. lia.
Qed.

Lemma fexp_eq (d : Z) : fexp 24 128 d = Z.max (d - 24) (-149).
Proof. reflexivity. Qed.

(** A mantissa already in place is not touched. *)
Lemma binary_round_aux_fits (m : positive) (e : Z) :
  Z.max (Z.log2 (Z.pos m) + 1 + e - 24) (-149) = e -> e <= 104 ->
  binary_round_aux 24 128 false (Z.pos m) e loc_Exact = S754_finite false m e.
Proof.
  intros Hc He. unfold binary_round_aux, shr_fexp.
  cbn [Zdigits2 shr_record_of_loc]. rewrite fexp_eq, digits_log2, Hc.
  rewrite Z.sub_diag. cbn [shr shr_m loc_of_shr_record round_nearest_even].
  cbn [Zdigits2 shr_record_of_loc]. rewrite fexp_eq, digits_log2, Hc.
  rewrite Z.sub_diag. cbn [shr shr_m].
  replace (e <=? 128 - 24) with true by (symmetry; apply Z.leb_le; lia).
  reflexivity.
Qed.

Lemma pow2_succ (c : Z) : 0 <= c -> 2 ^ (c + 1) = 2 * 2 ^ c.
Proof. intros. rewrite Z.pow_add_r by lia. change (2 ^ 1) with 2. lia. Qed.

Lemma below_inf (m e : Z) :
  0 <= m < 2 ^ 24 -> -149 <= e <= 104 -> m * 2 ^ (e + 149) < 2 ^ 277.
Proof.
  intros Hm He.
  rewrite (pow2_split (e + 149) 277) by lia.
  assert (0 < 2 ^ (e + 149)) by (apply pow2_pos; lia).
  assert (2 ^ 24 <= 2 ^ (277 - (e + 149))) by (apply Z.pow_le_mono_r; lia).
  nia.
Qed.

Lemma above_inf (m e : Z) :
  2 ^ 23 <= m -> 105 <= e -> 2 ^ 277 <= m * 2 ^ (e + 149).
Proof.
  intros Hm He.
  rewrite (pow2_split 254 (e + 149)) by lia.
  rewrite (pow2_split 254 277) by lia. change (2 ^ (277 - 254)) with (2 ^ 23).
  assert (0 < 2 ^ 254) by (apply pow2_pos; lia).
  assert (0 < 2 ^ (e + 149 - 254)) by (apply pow2_pos; lia).
  nia.
Qed.

(** A longer mantissa is shifted right, rounded, and renormalised. *)
Lemma binary_round_aux_rounds (M : positive) (e : Z) :
  0 < Z.log2 (Z.pos M) - 23 -> -149 <= e ->
  sound (binary_round_aux 24 128 false (Z.pos M) e loc_Exact) = true /\
  fkey (binary_round_aux 24 128 false (Z.pos M) e loc_Exact) =
  clamp (Z.pos M * 2 ^ (e + 149)).
Proof.
  intros Hn He.
  pose proof (rne_range M Hn) as Hrange.
  unfold clamp. rewrite round24_scaled by lia.
  remember (binary_round_aux 24 128 false (Z.pos M) e loc_Exact) as x eqn:Ex.
  unfold binary_round_aux, shr_fexp at 1 in Ex.
  cbn [Zdigits2 shr_record_of_loc] in Ex. rewrite fexp_eq, digits_log2 in Ex.
  replace (Z.max (Z.log2 (Z.pos M) + 1 + e - 24) (-149) - e)
    with (Z.log2 (Z.pos M) - 23) in Ex by lia.
  destruct (Z.log2 (Z.pos M) - 23) as [|p|p] eqn:En; try lia.
  cbn [shr] in Ex.
  pose proof (shifted_iter (Z.pos M) p 0 _ (Z.le_refl 0)
                (shifted_start (Z.pos M) ltac:(lia))) as Hsh.
  cbn [Z.add] in Hsh.
  rewrite (shifted_rne (Z.pos M) (Z.pos p) _ ltac:(lia) Hsh) in Ex.
  set (m1 := rne (Z.pos M) (Z.pos p)) in *.
  set (e1 := e + Z.pos p) in *.
  replace (Z.pos p + (e + 149)) with (e1 + 149) by (unfold e1; lia).
  assert (He1 : -149 < e1) by (unfold e1; lia).
  assert (Hp1 : 0 < 2 ^ (e1 + 149)) by (apply pow2_pos; lia).
  clearbody e1 m1. clear Hsh.
  destruct m1 as [|p1|p1]; try (change (2 ^ 23) with 8388608 in Hrange; lia).
  unfold shr_fexp in Ex. cbn [Zdigits2 shr_record_of_loc] in Ex.
  rewrite fexp_eq, digits_log2 in Ex.
  destruct (Z.eq_dec (Z.pos p1) (2 ^ 24)) as [Etop|Ntop].
  - injection Etop as ->. cbn [Z.log2 Pos.size Pos.succ] in Ex.
    replace (Z.max (24 + 1 + e1 - 24) (-149) - e1) with 1 in Ex by lia.
    cbn [shr iter_pos shr_1 shr_m] in Ex.
    destruct (Z.leb_spec (e1 + 1) (128 - 24)) as [Hfin|Hinf];
      subst x; cbn [sound fkey].
    + split.
      * apply bounded_spec. cbn [Z.log2 Pos.size Pos.succ]. lia.
      * pose proof (below_inf (2 ^ 23) (e1 + 1) ltac:(lia) ltac:(lia)) as Hb.
        replace (e1 + 1 + 149) with (e1 + 149 + 1) in * by lia.
        rewrite pow2_succ in * by lia.
        change (Z.pos 8388608) with (2 ^ 23).
        change (Z.pos 16777216) with (2 * 2 ^ 23). lia.
    + split; [reflexivity|].
      pose proof (above_inf (2 ^ 23) (e1 + 1) ltac:(lia) ltac:(lia)) as Hb.
      replace (e1 + 1 + 149) with (e1 + 149 + 1) in * by lia.
      rewrite pow2_succ in * by lia.
      change (Z.pos 16777216) with (2 * 2 ^ 23). lia.
  - assert (Hl : Z.log2 (Z.pos p1) = 23).
    { apply Z.log2_unique; [lia|]. change (2 ^ (23 + 1)) with (2 ^ 24). lia. }
    rewrite Hl in Ex.
    replace (Z.max (23 + 1 + e1 - 24) (-149) - e1) with 0 in Ex by lia.
    cbn [shr shr_m] in Ex.
    destruct (Z.leb_spec e1 (128 - 24)) as [Hfin|Hinf];
      subst x; cbn [sound fkey].
    + split.
      * apply bounded_spec. rewrite Hl. lia.
      * pose proof (below_inf (Z.pos p1) e1 ltac:(lia) ltac:(lia)). lia.
    + split; [reflexivity|].
      pose proof (above_inf (Z.pos p1) e1 ltac:(lia) ltac:(lia)). lia.
Qed.

(** Rounding a positive integer scaled by a power of two in range gives a
    sound float whose key is the rounded, clamped value. *)
Lemma binary_round_key (M : positive) (e : Z) :
  -149 <= e <= 104 ->
  sound (binary_round 24 128 false M e) = true /\
  fkey (binary_round 24 128 false M e) = clamp (Z.pos M * 2 ^ (e + 149)).
Proof.
  intros He. unfold binary_round.
  pose proof (shl_align_value M e (fexp 24 128 (Z.pos (digits2_pos M) + e)))
    as [Hs Hv].
  destruct (shl_align M e (fexp 24 128 (Z.pos (digits2_pos M) + e)))
    as [mz ez]. cbn [fst snd] in Hs, Hv.
  rewrite fexp_eq, digits_log2 in Hs, Hv.
  destruct (Z_le_gt_dec (Z.log2 (Z.pos M)) 23) as [Hsmall|Hlarge].
  - assert (Hez : ez = Z.max (Z.log2 (Z.pos M) + 1 + e - 24) (-149)) by lia.
    rewrite <- Hs in Hv.
    assert (Hlz : Z.log2 (Z.pos mz) = Z.log2 (Z.pos M) + (e - ez))
      by (rewrite Hv; apply log2_scaled; lia).
    rewrite binary_round_aux_fits by lia.
    assert (Hb : bounded 24 128 mz ez = true) by (apply bounded_spec; lia).
    cbn [sound fkey]. split; [exact Hb|].
    rewrite <- (clamp_sound mz ez Hb). f_equal.
    rewrite Hv, <- Z.mul_assoc, <- Z.pow_add_r by lia. do 2 f_equal. lia.
  - rewrite Z.min_l in Hs, Hv by lia. subst ez.
    rewrite Z.sub_diag, Z.mul_1_r in Hv.
    injection Hv as ->.
    apply binary_round_aux_rounds; lia.
Qed.

Lemma round24_inf : round24 (2 ^ 277) = 2 ^ 277.
Proof. vm_compute. reflexivity. Qed.

Lemma clamp_mono (a b : Z) : 0 <= a <= b -> clamp a <= clamp b.
Proof.
  intros H. unfold clamp. pose proof (round24_mono a b H). lia.
Qed.

Lemma clamp_top (n : Z) : 2 ^ 277 <= n -> clamp n = 2 ^ 277.
Proof.
  intros H. unfold clamp.
  pose proof (round24_mono (2 ^ 277) n ltac:(lia)) as Hm.
  rewrite round24_inf in Hm. lia.
Qed.

Lemma fkey_sound_range (x : spec_float) :
  sound x = true -> 0 <= fkey x <= 2 ^ 277.
Proof.
  destruct x as [[]|[]| |[] m e]; try discriminate; intros H; cbn [fkey];
    try lia.
  cbn [sound] in H. pose proof (fkey_finite_bounds m e H). lia.
Qed.

Lemma clamp_fkey (x : spec_float) : sound x = true -> clamp (fkey x) = fkey x.
Proof.
  destruct x as [[]|[]| |[] m e]; try discriminate; intros H; cbn [fkey].
  - reflexivity.
  - apply clamp_top. lia.
  - now apply clamp_sound.
Qed.

(** Addition of sound floats adds their keys, rounds and clamps. *)
Lemma f32_add_key (x y : spec_float) :
  sound x = true -> sound y = true ->
  sound (SFadd 24 128 x y) = true /\
  fkey (SFadd 24 128 x y) = clamp (fkey x + fkey y).
Proof.
  intros Hx Hy.
  pose proof (fkey_sound_range x Hx) as Rx.
  pose proof (fkey_sound_range y Hy) as Ry.
  destruct x as [[]|[]| |[] mx ex]; try discriminate;
    destruct y as [[]|[]| |[] my ey]; try discriminate;
    cbn [SFadd]; cbn [fkey] in Rx, Ry |- *.
  - split; [reflexivity|reflexivity].
  - split; [reflexivity|]. symmetry. apply clamp_top. lia.
  - split; [exact Hy|]. rewrite Z.add_0_l. symmetry.
    apply (clamp_fkey (S754_finite false my ey) Hy).
  - split; [reflexivity|]. symmetry. apply clamp_top. lia.
  - split; [reflexivity|]. symmetry. apply clamp_top. lia.
  - split; [reflexivity|]. symmetry. apply clamp_top. lia.
  - split; [exact Hx|]. rewrite Z.add_0_r. symmetry.
    apply (clamp_fkey (S754_finite false mx ex) Hx).
  - split; [reflexivity|]. symmetry. apply clamp_top. lia.
  - cbn [sound] in Hx, Hy.
    assert (Hex : -149 <= ex <= 104) by (apply bounded_spec in Hx; lia).
    assert (Hey : -149 <= ey <= 104) by (apply bounded_spec in Hy; lia).
    change (IntDef.Z.min ex ey) with (Z.min ex ey).
    set (ez := Z.min ex ey).
    pose proof (shl_align_value mx ex ez) as [_ Hvx].
    pose proof (shl_align_value my ey ez) as [_ Hvy].
    replace (Z.min ex ez) with ez in Hvx by (unfold ez; lia).
    replace (Z.min ey ez) with ez in Hvy by (unfold ez; lia).
    cbn [cond_Zopp]. rewrite <- Pos2Z.inj_add. cbn [binary_normalize].
    destruct (binary_round_key
                (fst (shl_align mx ex ez) + fst (shl_align my ey ez)) ez)
      as [Hs Hk]; [unfold ez; lia|].
    split; [exact Hs|]. rewrite Hk. f_equal.
    rewrite Pos2Z.inj_add, Hvx, Hvy.
    rewrite Z.mul_add_distr_r, <- !Z.mul_assoc.
    rewrite <- !Z.pow_add_r by (unfold ez; lia).
    f_equal; do 2 f_equal; lia.
Qed.

Lemma f32_add_mono (x y1 y2 : spec_float) :
  sound x = true -> sound y1 = true -> sound y2 = true ->
  SFleb y1 y2 = true ->
  SFleb (SFadd 24 128 x y1) (SFadd 24 128 x y2) = true.
Proof.
  intros Hx H1 H2 Hle.
  destruct (f32_add_key x y1 Hx H1) as [S1 K1].
  destruct (f32_add_key x y2 Hx H2) as [S2 K2].
  rewrite f32_leb_key in Hle |- * by assumption.
  apply Z.leb_le in Hle. apply Z.leb_le. rewrite K1, K2.
  pose proof (fkey_sound_range x Hx). pose proof (fkey_sound_range y1 H1).
  apply clamp_mono. lia.
Qed.

Lemma f32_add_zero_r (x : spec_float) :
  sound x = true -> SFadd 24 128 x (S754_zero false) = x.
Proof. destruct x as [[]|[]| |[] m e]; try discriminate; reflexivity. Qed.

Lemma f32_leb_refl (x : spec_float) : sound x = true -> SFleb x x = true.
Proof. intros H. rewrite f32_leb_key by assumption. apply Z.leb_refl. Qed.

Lemma f32_leb_trans (x y z : spec_float) :
  sound x = true -> sound y = true -> sound z = true ->
  SFleb x y = true -> SFleb y z = true -> SFleb x z = true.
Proof.
  intros Hx Hy Hz. rewrite !f32_leb_key by assumption.
  rewrite !Z.leb_le. lia.
Qed.


(** ** Bits *)

Lemma land_bit (a n : Z) :
  0 <= n ->
  Z.land a (Z.shiftl 1 n) = if Z.testbit a n then Z.shiftl 1 n else 0.
Proof.
  intros Hn. rewrite Z.shiftl_1_l. apply Z.bits_inj'. intros k Hk.
  rewrite Z.land_spec, Z.pow2_bits_eqb by assumption.
  destruct (Z.eqb_spec n k) as [->|Hne].
  - destruct (Z.testbit a k) eqn:E.
    + now rewrite Z.pow2_bits_eqb, Z.eqb_refl.
    + now rewrite Z.bits_0.
  - rewrite andb_false_r. destruct (Z.testbit a n).
    + rewrite Z.pow2_bits_eqb by assumption.
      symmetry. now apply Z.eqb_neq.
    + now rewrite Z.bits_0.
Qed.

Lemma u8_idem (x : Z) : u8 (u8 x) = u8 x.
Proof. unfold u8. now rewrite Z.mod_mod. Qed.

Lemma u8_lor (a b : Z) : u8 (Z.lor (u8 a) (u8 b)) = Z.lor (u8 a) (u8 b).
Proof.
  unfold u8. change 256 with (2 ^ 8).
  rewrite <- !Z.land_ones by lia.
  rewrite <- Z.land_lor_distr_l, <- Z.land_assoc, Z.land_diag. reflexivity.
Qed.

Lemma u8_lor_l (a b : Z) : u8 (Z.lor a (u8 b)) = Z.lor (u8 a) (u8 b).
Proof.
  unfold u8. change 256 with (2 ^ 8).
  rewrite <- !Z.land_ones by lia.
  rewrite Z.land_lor_distr_l, <- Z.land_assoc, Z.land_diag. reflexivity.
Qed.

Lemma ten_bits (x : Z) : 0 <= Z.land x 1023 <= 1023.
Proof.
  change 1023 with (Z.ones 10) at 1 2. rewrite Z.land_ones by lia.
  pose proof (Z.mod_pos_bound x (2 ^ 10) ltac:(lia)) as H.
  change (2 ^ 10) with 1024 in *. lia.
Qed.

(** Selecting the same pin twice selects what selecting it once did. *)
Lemma select_idem (a pin : Z) :
  u8 (Z.lor (u8 (Z.lor a (u8 pin))) (u8 pin)) = u8 (Z.lor a (u8 pin)).
Proof.
  rewrite !u8_lor_l, u8_idem. rewrite <- Z.lor_assoc, Z.lor_diag. reflexivity.
Qed.

(** Starting a conversion leaves [ADIF] low and [ADSC] high, whatever the
    register held. *)
Lemma ADCSRA_stored_start (a : Z) :
  Z.testbit (ADCSRA_stored (Z.lor a (Z.shiftl 1 ADSC)) a) ADIF = false /\
  Z.testbit (ADCSRA_stored (Z.lor a (Z.shiftl 1 ADSC)) a) ADSC = true.
Proof.
  unfold ADCSRA_stored, ADIF, ADSC.
  rewrite Z.lor_spec. change (Z.testbit (Z.shiftl 1 6) 4) with false.
  rewrite orb_false_r.
  destruct (Z.testbit a 4) eqn:E.
  - rewrite Z.clearbit_eq, Z.clearbit_neq by lia.
    rewrite Z.lor_spec. split; [reflexivity|].
    change (Z.testbit (Z.shiftl 1 6) 6) with true. apply orb_true_r.
  - rewrite !Z.lor_spec, Z.land_spec, E.
    change (Z.testbit (Z.shiftl 1 6) 4) with false.
    change (Z.testbit (Z.shiftl 1 6) 6) with true.
    rewrite orb_true_r. split; reflexivity.
Qed.

(** ** The converter and [readADC] *)
Section ReadADC.

Variable isr : machine -> machine.

Hypothesis isr_frame : writes_overflow_only isr.

Lemma tick_frame (s : machine) :
  tick isr s = set_timer1_overflow (timer1_overflow (tick isr s))
                 (set_TCNT1 (TCNT1 (tick isr s)) s).
Proof.
  unfold tick. destruct (clocked s); [|now destruct s].
  match goal with |- context [if ?c then _ else _] => destruct c end.
  - rewrite isr_frame. reflexivity.
  - now destruct s.
Qed.

Lemma ticks_frame (n : nat) (s : machine) :
  ticks isr n s = set_timer1_overflow (timer1_overflow (ticks isr n s))
                    (set_TCNT1 (TCNT1 (ticks isr n s)) s).
Proof.
  revert s. induction n as [|n IH]; intros s; simpl.
  - now destruct s.
  - rewrite IH. rewrite (tick_frame s) at 3. reflexivity.
Qed.

Lemma started_flags (pin : Z) (s : machine) :
  Z.testbit (ADCSRA (started pin s)) ADIF = false /\
  Z.testbit (ADCSRA (started pin s)) ADSC = true.
Proof.
  unfold started, write_ADCSRA. cbn [ADCSRA set_ADCSRA set_ADMUX set_calls].
  apply ADCSRA_stored_start.
Qed.

(** [readADC] in one piece: it hangs when no conversion will complete, and
    otherwise returns what the conversion left in [ADC]. *)
Lemma readADC_eq (pin : Z) (s : machine) :
  readADC isr pin s =
  match adc_feed s with
  | [] => Hang (started pin s)
  | c :: feed => Ret (ADC (fetched isr pin c feed s)) (fetched isr pin c feed s)
  end.
Proof.
  destruct (started_flags pin s) as [Hif Hsc].
  change (readADC isr pin s) with
    (match wait_ADIF isr (started pin s) with
     | Ret _ s3 =>
         let s4 := write_ADCSRA (Z.lor (ADCSRA s3) (Z.shiftl 1 ADIF)) s3 in
         Ret (ADC s4) s4
     | Hang s3 => Hang s3
     end).
  unfold wait_ADIF.
  rewrite land_bit by (unfold ADIF; lia). rewrite Hif, Hsc.
  change (adc_feed (started pin s)) with (adc_feed s).
  destruct (adc_feed s) as [|c feed]; reflexivity.
Qed.

Lemma fetched_feed pin c feed s : adc_feed (fetched isr pin c feed s) = feed.
Proof.
  unfold fetched, complete_conversion. rewrite ticks_frame. reflexivity.
Qed.

Lemma fetched_ADC pin c feed s :
  ADC (fetched isr pin c feed s) = sampled (ADMUX s) pin c.
Proof.
  unfold fetched, complete_conversion, channel.
  rewrite ticks_frame. reflexivity.
Qed.

Lemma fetched_polled pin c feed s : polled pin 1 s (fetched isr pin c feed s).
Proof.
  unfold polled, fetched, complete_conversion.
  rewrite ticks_frame. repeat split; reflexivity.
Qed.

Lemma started_polled pin s : polled pin 1 s (started pin s).
Proof. unfold polled, started. repeat split; reflexivity. Qed.

Lemma polled_trans pin n m s1 s2 s3 :
  polled pin n s1 s2 -> polled pin m s2 s3 -> polled pin (n + m) s1 s3.
Proof.
  unfold polled. intros H1 H2.
  destruct H1 as (A1 & B1 & C1 & D1 & E1 & F1 & G1 & I1 & J1 & K1).
  destruct H2 as (A2 & B2 & C2 & D2 & E2 & F2 & G2 & I2 & J2 & K2).
  rewrite A2, A1, select_idem. rewrite K2, K1, repeat_app, app_assoc.
  repeat split; congruence.
Qed.

Lemma sampled_polled pin n s s' c :
  polled pin n s s' -> sampled (ADMUX s') pin c = sampled (ADMUX s) pin c.
Proof.
  intros H. destruct H as (A & _). unfold sampled.
  now rewrite A, select_idem.
Qed.

(** *** The polling loops *)

Variable pin : Z.
Variable again : Z -> bool.

Lemma goes_on_polled n s s' c :
  polled pin n s s' -> goes_on pin again s' c <-> goes_on pin again s c.
Proof.
  intros H. unfold goes_on. now rewrite (sampled_polled pin n s s' c H).
Qed.

Lemma poll_returns (pre : list conversion) :
  forall (c : conversion) (post : list conversion) (fuel : nat) (s : machine),
    adc_feed s = pre ++ c :: post ->
    Forall (goes_on pin again s) pre ->
    again (sampled (ADMUX s) pin c) = false ->
    (List.length pre < fuel)%nat ->
    exists s', poll isr fuel pin again s = Ret tt s' /\
               adc_feed s' = post /\
               ADC s' = sampled (ADMUX s) pin c /\
               polled pin (S (List.length pre)) s s'.
Proof.
  induction pre as [|a pre IH]; intros c post fuel s Hfeed Hpre Hc Hfuel;
    (destruct fuel as [|fuel]; [simpl in Hfuel; lia|]);
    simpl poll; unfold bind; rewrite readADC_eq, Hfeed;
    cbn [app]; cbv beta iota.
  - rewrite fetched_ADC, Hc.
    exists (fetched isr pin c post s).
    split; [reflexivity|]. split; [apply fetched_feed|].
    split; [apply fetched_ADC|apply fetched_polled].
  - inversion Hpre as [|? ? Ha Hpre']; subst.
    rewrite fetched_ADC. unfold goes_on in Ha. rewrite Ha.
    pose proof (fetched_polled pin a (pre ++ c :: post) s) as Hp.
    destruct (IH c post fuel (fetched isr pin a (pre ++ c :: post) s))
      as (s' & Hrun & Hpost & Hadc & Hpolled).
    + apply fetched_feed.
    + eapply Forall_impl; [|exact Hpre'].
      intros x Hx. now apply (goes_on_polled 1 s _ x Hp).
    + now rewrite (sampled_polled pin 1 s _ c Hp).
    + simpl in Hfuel. lia.
    + exists s'. split; [exact Hrun|]. split; [exact Hpost|]. split.
      * now rewrite Hadc, (sampled_polled pin 1 s _ c Hp).
      * change (S (List.length (a :: pre)))
          with (1 + S (List.length pre))%nat.
        eapply polled_trans; eassumption.
Qed.

Lemma poll_hangs (feed : list conversion) :
  forall (fuel : nat) (s : machine),
    adc_feed s = feed ->
    Forall (goes_on pin again s) feed ->
    (List.length feed < fuel)%nat ->
    exists s', poll isr fuel pin again s = Hang s' /\
               adc_feed s' = [] /\
               polled pin (S (List.length feed)) s s'.
Proof.
  induction feed as [|a feed IH]; intros fuel s Hfeed Hall Hfuel;
    (destruct fuel as [|fuel]; [simpl in Hfuel; lia|]);
    simpl poll; unfold bind; rewrite readADC_eq, Hfeed; cbv beta iota.
  - exists (started pin s). split; [reflexivity|]. split.
    + exact Hfeed.
    + apply started_polled.
  - inversion Hall as [|? ? Ha Hall']; subst.
    rewrite fetched_ADC. unfold goes_on in Ha. rewrite Ha.
    pose proof (fetched_polled pin a feed s) as Hp.
    destruct (IH fuel (fetched isr pin a feed s))
      as (s' & Hrun & Hnil & Hpolled).
    + apply fetched_feed.
    + eapply Forall_impl; [|exact Hall'].
      intros x Hx. now apply (goes_on_polled 1 s _ x Hp).
    + simpl in Hfuel. lia.
    + exists s'. split; [exact Hrun|]. split; [exact Hnil|].
      change (S (List.length (a :: feed))) with (1 + S (List.length feed))%nat.
      eapply polled_trans; eassumption.
Qed.

(** A feed either keeps the loop going for ever or has a first conversion
    that ends it. *)
Lemma first_exit (s : machine) (feed : list conversion) :
  Forall (goes_on pin again s) feed \/
  exists pre c post, feed = pre ++ c :: post /\
                     Forall (goes_on pin again s) pre /\
                     again (sampled (ADMUX s) pin c) = false.
Proof.
  induction feed as [|a feed IH].
  - left. constructor.
  - destruct (again (sampled (ADMUX s) pin a)) eqn:Ea.
    + destruct IH as [IH | (pre & c & post & -> & Hpre & Hc)].
      * left. now constructor.
      * right. exists (a :: pre), c, post. repeat split; auto.
    + right. exists [], a, feed. repeat split; auto.
Qed.

(** The loop returns exactly when the feed has such a conversion, having
    consumed the feed up to it and no further. *)
Lemma while_readADC_returns (s : machine) pre c post :
  adc_feed s = pre ++ c :: post ->
  Forall (goes_on pin again s) pre ->
  again (sampled (ADMUX s) pin c) = false ->
  exists s', while_readADC isr pin again s = Ret tt s' /\
             adc_feed s' = post /\
             ADC s' = sampled (ADMUX s) pin c /\
             polled pin (S (List.length pre)) s s'.
Proof.
  intros Hfeed Hpre Hc. unfold while_readADC.
  apply poll_returns with (post := post); auto.
  rewrite Hfeed, length_app. simpl. lia.
Qed.

Lemma while_readADC_hangs (s : machine) :
  Forall (goes_on pin again s) (adc_feed s) ->
  exists s', while_readADC isr pin again s = Hang s' /\
             adc_feed s' = [] /\
             polled pin (S (List.length (adc_feed s))) s s'.
Proof.
  intros Hall. unfold while_readADC. apply poll_hangs; auto.
Qed.

Lemma while_readADC_inv (s s' : machine) :
  while_readADC isr pin again s = Ret tt s' ->
  exists pre c,
    adc_feed s = pre ++ c :: adc_feed s' /\
    Forall (goes_on pin again s) pre /\
    again (sampled (ADMUX s) pin c) = false /\
    ADC s' = sampled (ADMUX s) pin c /\
    polled pin (S (List.length pre)) s s'.
Proof.
  intros Hrun.
  destruct (first_exit s (adc_feed s))
    as [Hall | (pre & c & post & Hf & Hpre & Hc)].
  - destruct (while_readADC_hangs s Hall) as (s1 & Hhang & _).
    congruence.
  - destruct (while_readADC_returns s pre c post Hf Hpre Hc)
      as (s1 & Hret & Hpost & Hadc & Hp).
    assert (s1 = s') by congruence. subst s1.
    exists pre, c. rewrite Hpost. auto.
Qed.

End ReadADC.

(** ** The overflow handlers *)

Lemma Resistance_isr_frame : writes_overflow_only Resistance.TIMER1_OVF_vect.
Proof. intros s. reflexivity. Qed.

Lemma Calibration_isr_frame : writes_overflow_only Calibration.TIMER1_OVF_vect.
Proof. intros s. reflexivity. Qed.

Lemma tick_no_wrap (isr : machine -> machine) (s : machine) :
  running s -> TCNT1 s <> 65535 ->
  tick isr s = set_TCNT1 (TCNT1 s + 1) s.
Proof.
  intros (Hc & _ & Hr) Hne. unfold tick. rewrite Hc.
  cbn [TCNT1 set_TCNT1]. unfold u16.
  rewrite Z.mod_small by lia.
  replace (TCNT1 s + 1 =? 0) with false by (symmetry; apply Z.eqb_neq; lia).
  reflexivity.
Qed.

Lemma tick_wrap (isr : machine -> machine) (s : machine) :
  running s -> TCNT1 s = 65535 ->
  tick isr s = isr (set_TCNT1 0 s).
Proof.
  intros (Hc & Hi & _) He. unfold tick. rewrite Hc, He.
  change (u16 (65535 + 1)) with 0. cbn [TCNT1 set_TCNT1].
  change (overflow_irq_enabled (set_TCNT1 0 s)) with (overflow_irq_enabled s).
  rewrite Hi. reflexivity.
Qed.

(** In [Resistance.ino] every wrap of the counter runs the handler once, and
    the handler adds the full range to the accumulator whatever the counter
    reads; no other tick touches the accumulator. *)
Lemma Resistance_overflow_adds_full_range (s : machine) :
  running s ->
  (forall count,
     timer1_overflow (Resistance.TIMER1_OVF_vect (set_TCNT1 count s)) =
     (timer1_overflow s + FULL_RANGE)%f32) /\
  (TCNT1 s = 65535 ->
     timer1_overflow (tick Resistance.TIMER1_OVF_vect s) =
     (timer1_overflow s + FULL_RANGE)%f32) /\
  (TCNT1 s <> 65535 ->
     timer1_overflow (tick Resistance.TIMER1_OVF_vect s) = timer1_overflow s).
Proof.
  intros Hrun. split; [|split].
  - intros count. reflexivity.
  - intros He. now rewrite tick_wrap.
  - intros Hne. now rewrite tick_no_wrap.
Qed.

(** C1, at the handler of the calibration sketch.  When the counter wraps,
    that handler adds the counter's present value over 250 -- the counter
    reads 0 then, so the accumulator gains [+0.0] and the 65535/250 ms of the
    lap are lost; run at another counter value it adds another amount. *)
Theorem Calibration_overflow_adds_current_count (s : machine) :
  running s ->
  TCNT1 s = 65535 ->
  timer1_overflow (tick Calibration.TIMER1_OVF_vect s) =
    (timer1_overflow s + Float32.of_Z 0 / Float32.of_Z 250)%f32 /\
  (Float32.of_Z 0 / Float32.of_Z 250)%f32 = Float32.zero /\
  FULL_RANGE = S754_finite false 8589804 (-15) /\
  timer1_overflow (Calibration.TIMER1_OVF_vect (set_TCNT1 250 s)) =
    (timer1_overflow s + Float32.of_Z 250 / Float32.of_Z 250)%f32.
Proof.
  intros Hrun He. split; [|split; [|split]].
  - now rewrite tick_wrap.
  - reflexivity.
  - reflexivity.
  - reflexivity.
Qed.

Lemma Calibration_overflow_adds_current_count_witness :
  running calibration_before_wrap /\
  TCNT1 calibration_before_wrap = 65535 /\
  timer1_overflow (tick Calibration.TIMER1_OVF_vect calibration_before_wrap)
  = Float32.zero.
Proof.
  assert (Hrun : running calibration_before_wrap)
    by (vm_compute; intuition congruence).
  assert (Hcount : TCNT1 calibration_before_wrap = 65535)
    by (vm_compute; reflexivity).
  split; [exact Hrun|]. split; [exact Hcount|].
  destruct (Calibration_overflow_adds_current_count _ Hrun Hcount) as (H & _).
  rewrite H. vm_compute. reflexivity.
Defined.

(** ** Channel selection *)

(** [readADC] converts on the channel whose number is [pin] OR-ed into what
    [MUX3:0] held before. *)
Lemma readADC_channel (isr : machine -> machine) (pin : Z) (s : machine)
    (c : conversion) (feed : list conversion) :
  writes_overflow_only isr ->
  adc_feed s = c :: feed ->
  exists s',
    readADC isr pin s =
      Ret (Z.land (conv_input c (Z.land (u8 (Z.lor (ADMUX s) (u8 pin))) 15))
                  1023) s'
    /\ channel s' = Z.land (u8 (Z.lor (ADMUX s) (u8 pin))) 15.
Proof.
  intros Hisr Hfeed. exists (fetched isr pin c feed s).
  rewrite readADC_eq, Hfeed by assumption.
  rewrite fetched_ADC by assumption. split; [reflexivity|].
  unfold channel.
  now destruct (fetched_polled isr Hisr pin c feed s) as (-> & _).
Qed.

(** C5, at a call that follows a call on another channel.  After
    [readADC(1)], [readADC(2)] converts with channel 3 selected and returns
    channel 3's sample (300), not channel 2's (200): [ADMUX |= pin] never
    clears the bits of the earlier selection. *)
Theorem readADC_keeps_earlier_selection :
  let s0 := booted [staircase; staircase] [] in
  exists s1 s2,
    readADC Resistance.TIMER1_OVF_vect 1 s0 = Ret 100 s1 /\
    channel s1 = 1 /\
    readADC Resistance.TIMER1_OVF_vect 2 s1 = Ret 300 s2 /\
    channel s2 = 3 /\
    Z.land (conv_input staircase 2) 1023 = 200.
Proof.
  intros s0.
  destruct (readADC Resistance.TIMER1_OVF_vect 1 s0) as [v1 s1|s1] eqn:E1;
    [|vm_compute in E1; discriminate].
  destruct (readADC Resistance.TIMER1_OVF_vect 2 s1) as [v2 s2|s2] eqn:E2;
    [|vm_compute in E1; injection E1 as <- <-; vm_compute in E2; discriminate].
  exists s1, s2.
  vm_compute in E1. injection E1 as <- <-.
  vm_compute in E2. injection E2 as <- <-.
  repeat split.
Qed.

(** ** The transient measurements *)

(** The three measurements have one shape: some register writes, the
    discharge loop, more register writes, the charge loop, and the read-out. *)
Section Transient.

Variable isr : machine -> machine.
Hypothesis isr_frame : writes_overflow_only isr.

Variable pin : Z.
Variables discharging charging : Z -> bool.

Variables (before between : M unit).
Variable A : Type.
Variable after : M A.

Abbreviation measure :=
  (transient isr pin discharging charging before between after).
Hypothesis before_quiet : quiet before.
Hypothesis between_quiet : quiet between.
Hypothesis after_quiet : quiet after.

Lemma transient_returns (s : machine) (rest : list conversion) :
  leads_through pin discharging charging (ADMUX s) (adc_feed s) rest ->
  exists v s', measure s = Ret v s' /\ adc_feed s' = rest.
Proof.
  intros (pre_d & d & pre_c & c & Hfeed & Hpd & Hd & Hpc & Hc).
  unfold transient, bind.
  destruct (before_quiet s) as ([] & s0 & -> & Hm0 & Hf0).
  rewrite <- Hm0 in Hpd, Hd, Hpc, Hc. rewrite <- Hf0 in Hfeed.
  destruct (while_readADC_returns isr isr_frame pin discharging s0
              pre_d d (pre_c ++ c :: rest) Hfeed Hpd Hd)
    as (s1 & -> & Hf1 & _ & Hp1).
  destruct (between_quiet s1) as ([] & s2 & -> & Hm2 & Hf2).
  assert (Hsame : forall x,
             sampled (ADMUX s2) pin x = sampled (ADMUX s0) pin x).
  { intros x. rewrite Hm2. eapply sampled_polled. exact Hp1. }
  destruct (while_readADC_returns isr isr_frame pin charging s2
              pre_c c rest) as (s3 & -> & Hf3 & _ & Hp3).
  - congruence.
  - eapply Forall_impl; [|exact Hpc]. intros x Hx. unfold goes_on.
    now rewrite Hsame.
  - now rewrite Hsame.
  - destruct (after_quiet s3) as (v & s' & -> & _ & Hf').
    exists v, s'. split; [reflexivity|congruence].
Qed.

Lemma transient_inv (s : machine) (v : A) (s' : machine) :
  measure s = Ret v s' ->
  leads_through pin discharging charging (ADMUX s) (adc_feed s) (adc_feed s').
Proof.
  unfold transient, bind. intros Hrun.
  destruct (before_quiet s) as ([] & s0 & E0 & Hm0 & Hf0).
  rewrite E0 in Hrun.
  destruct (while_readADC isr pin discharging s0) as [[] s1|] eqn:E1;
    [|discriminate].
  destruct (while_readADC_inv isr isr_frame pin discharging s0 s1 E1)
    as (pre_d & d & Hfd & Hpd & Hd & _ & Hp1).
  destruct (between_quiet s1) as ([] & s2 & E2 & Hm2 & Hf2).
  rewrite E2 in Hrun.
  destruct (while_readADC isr pin charging s2) as [[] s3|] eqn:E3;
    [|discriminate].
  destruct (while_readADC_inv isr isr_frame pin charging s2 s3 E3)
    as (pre_c & c & Hfc & Hpc & Hc & _ & _).
  destruct (after_quiet s3) as (v' & s'' & E4 & _ & Hf4).
  rewrite E4 in Hrun. injection Hrun as -> ->.
  assert (Hsame : forall x,
             sampled (ADMUX s2) pin x = sampled (ADMUX s0) pin x).
  { intros x. rewrite Hm2. eapply sampled_polled. exact Hp1. }
  exists pre_d, d, pre_c, c. rewrite <- Hm0. repeat split.
  - rewrite <- Hf0, Hfd, <- Hf2, Hfc, Hf4. reflexivity.
  - exact Hpd.
  - exact Hd.
  - eapply Forall_impl; [|exact Hpc]. intros x Hx. unfold goes_on in Hx.
    now rewrite <- Hsame.
  - now rewrite <- Hsame.
Qed.

(** Where a measurement that returns left its charge loop: in the machine
    the code up to there ends in, on a sample that does not keep the loop
    going; the read-out ran from there. *)
Lemma transient_after (s : machine) (v : A) (s' : machine) :
  measure s = Ret v s' ->
  exists s3,
    until_crossing isr pin discharging charging before between s = Ret tt s3 /\
    charging (ADC s3) = false /\
    after s3 = Ret v s'.
Proof.
  unfold transient, until_crossing, bind. intros Hrun.
  destruct (before s) as [[] s0|]; [|discriminate].
  destruct (while_readADC isr pin discharging s0) as [[] s1|]; [|discriminate].
  destruct (between s1) as [[] s2|]; [|discriminate].
  destruct (while_readADC isr pin charging s2) as [[] s3|] eqn:E3;
    [|discriminate].
  destruct (while_readADC_inv isr isr_frame pin charging s2 s3 E3)
    as (pre_c & c & _ & _ & Hc & Hadc & _).
  exists s3. split; [reflexivity|]. split; [congruence|exact Hrun].
Qed.

Lemma transient_polls_through : polls_through pin discharging charging measure.
Proof.
  intros s rest. split.
  - intros (v & s' & Hrun & <-). eapply transient_inv; eassumption.
  - apply transient_returns.
Qed.

End Transient.

Lemma polls_through_ext (pin : Z) (discharging charging : Z -> bool)
    {A} (f g : M A) :
  (forall s, f s = g s) ->
  polls_through pin discharging charging g ->
  polls_through pin discharging charging f.
Proof.
  intros Hfg Hg s rest. rewrite <- (Hg s rest).
  split; intros (v & s' & H & Hr); exists v, s'; split; congruence.
Qed.

(** Unfolds the straight-line code around the two loops and splits on how
    each loop ends. *)
Ltac cut_at_loops :=
  cbv [Resistance.calculateCapacitance Resistance.calculateResistance
       Calibration.getTimeConstant transient
       capacitance_before resistance_before charge_start read_out
       calibration_start calibration_read_out
       Resistance.startTimer1 Resistance.initTimer1 Calibration.startTimer1
       stopTimer1 getMilliseconds USART_sendData PIN_LOW PIN_HIGH
       bind modify gets ret];
  repeat match goal with
         | |- context [while_readADC ?i ?p ?a ?s] =>
             destruct (while_readADC i p a s) as [[] ?|?]
         end;
  reflexivity.

Lemma calculateCapacitance_shape (s : machine) :
  Resistance.calculateCapacitance s =
  transient Resistance.TIMER1_OVF_vect Resistance.pin_capacitance
    (fun v => negb (v =? 0)) (fun v => v <? 647)
    capacitance_before charge_start (read_out 10) s.
Proof. cut_at_loops. Qed.

Lemma calculateResistance_shape (s : machine) :
  Resistance.calculateResistance s =
  transient Resistance.TIMER1_OVF_vect Resistance.pin_resistance
    (fun v => negb (v =? 0)) (fun v => u16 (1023 - v) <? 647)
    resistance_before charge_start (read_out 100) s.
Proof. cut_at_loops. Qed.

Lemma getTimeConstant_shape (s : machine) :
  Calibration.getTimeConstant s =
  transient Calibration.TIMER1_OVF_vect 0
    (fun v => negb (v =? 0)) (fun v => v <? 645)
    (PIN_LOW D Calibration.pin_charge) calibration_start
    calibration_read_out s.
Proof. cut_at_loops. Qed.

Ltac straight_line :=
  intros s; eexists _, _; split; [reflexivity | split; reflexivity].

Lemma capacitance_before_quiet : quiet capacitance_before.
Proof. straight_line. Qed.

Lemma resistance_before_quiet : quiet resistance_before.
Proof. straight_line. Qed.

Lemma charge_start_quiet : quiet charge_start.
Proof. straight_line. Qed.

Lemma getMilliseconds_exec_eq (isr : machine -> machine) (s : machine) :
  getMilliseconds_exec isr s = Ret (read_of isr s) (ticks isr (load_gap s) s).
Proof.
  unfold getMilliseconds_exec, getMilliseconds_irq, read_of.
  destruct (load_first s); reflexivity.
Qed.

Lemma read_out_eq (divisor : Z) (s : machine) :
  read_out divisor s =
  Ret (read_of Resistance.TIMER1_OVF_vect s / Float32.of_Z divisor)%f32
      (set_TCNT1 0
         (set_timer1_overflow Float32.zero
            (set_TCCR1B 0
               (set_PORTB 0
                  (ticks Resistance.TIMER1_OVF_vect (load_gap s) s))))).
Proof.
  unfold read_out. unfold bind at 1. rewrite getMilliseconds_exec_eq.
  cbv [stopTimer1 PIN_LOW bind modify ret].
  change (lnot (Z.shiftl 1 Resistance.pin_charge)) with 0.
  cbn [PORT set_PORT]. rewrite Z.land_0_r. reflexivity.
Qed.

Lemma read_out_quiet (divisor : Z) : quiet (read_out divisor).
Proof.
  intros s. rewrite read_out_eq.
  rewrite (ticks_frame _ Resistance_isr_frame).
  eexists _, _. split; [reflexivity | split; reflexivity].
Qed.

Lemma calibration_before_quiet : quiet (PIN_LOW D Calibration.pin_charge).
Proof. straight_line. Qed.

Lemma calibration_start_quiet : quiet calibration_start.
Proof. straight_line. Qed.

Lemma calibration_read_out_quiet : quiet calibration_read_out.
Proof. straight_line. Qed.

Lemma calculateCapacitance_polls :
  polls_through Resistance.pin_capacitance
    (fun v => negb (v =? 0)) (fun v => v <? 647)
    Resistance.calculateCapacitance.
Proof.
  eapply polls_through_ext; [exact calculateCapacitance_shape|].
  apply transient_polls_through.
  - exact Resistance_isr_frame.
  - exact capacitance_before_quiet.
  - exact charge_start_quiet.
  - exact (read_out_quiet 10).
Qed.

Lemma calculateResistance_polls :
  polls_through Resistance.pin_resistance
    (fun v => negb (v =? 0)) (fun v => u16 (1023 - v) <? 647)
    Resistance.calculateResistance.
Proof.
  eapply polls_through_ext; [exact calculateResistance_shape|].
  apply transient_polls_through.
  - exact Resistance_isr_frame.
  - exact resistance_before_quiet.
  - exact charge_start_quiet.
  - exact (read_out_quiet 100).
Qed.

Lemma getTimeConstant_polls :
  polls_through 0 (fun v => negb (v =? 0)) (fun v => v <? 645)
    Calibration.getTimeConstant.
Proof.
  eapply polls_through_ext; [exact getTimeConstant_shape|].
  apply transient_polls_through.
  - exact Calibration_isr_frame.
  - exact calibration_before_quiet.
  - exact calibration_start_quiet.
  - exact calibration_read_out_quiet.
Qed.

(** *** The thresholds of the charge loops *)

(** C3, as stated, fails: with 645 and then 1023 counts on the input, a loop
    that polls until the sample reaches 646 = trunc (0.632 * 1023) -- or
    until it exceeds 646 -- goes on to the 1023, but [getTimeConstant] has
    returned on the 645; and with 646 and then 647 counts, a loop that polls
    until the sample reaches 646 stops on the 646, but [calculateCapacitance]
    goes on to the 647. *)
Lemma charge_loop_threshold_counterexample :
  let feed := [reading 1 0; reading 1 645; reading 1 1023] in
  let feed' := [reading 1 0; reading 1 646; reading 1 647] in
  (leads_through 0 (fun v => negb (v =? 0)) (fun v => v <? 646)
     (ADMUX (booted feed [])) feed [] /\
   leads_through 0 (fun v => negb (v =? 0)) (fun v => v <=? 646)
     (ADMUX (booted feed [])) feed [] /\
   exists v s', Calibration.getTimeConstant (booted feed []) = Ret v s' /\
                ADC s' = 645 /\ adc_feed s' = [reading 1 1023]) /\
  (leads_through 0 (fun v => negb (v =? 0)) (fun v => v <? 646)
     (ADMUX (booted feed' [])) feed' [reading 1 647] /\
   exists v s', Resistance.calculateCapacitance (booted feed' []) = Ret v s' /\
                ADC s' = 647 /\ adc_feed s' = []).
Proof.
  intros feed feed'. split; [split; [|split]|split].
  - exists [], (reading 1 0), [reading 1 645], (reading 1 1023).
    repeat split; repeat constructor.
  - exists [], (reading 1 0), [reading 1 645], (reading 1 1023).
    repeat split; repeat constructor.
  - eexists _, _. split; [vm_compute; reflexivity|]. split; reflexivity.
  - exists [], (reading 1 0), [], (reading 1 646).
    repeat split; repeat constructor.
  - eexists _, _. split; [vm_compute; reflexivity|]. split; reflexivity.
Qed.

(** C3, amended.  The charge loop of [calculateCapacitance] ends on the first
    sample that is not below 647, and that of [getTimeConstant] on the first
    that is not below 645: the measurement returns exactly when such a sample
    comes, having consumed the conversions up to it and none after it. *)
Theorem charge_loop_ends_at_first_crossing :
  polls_through Resistance.pin_capacitance
    (fun v => negb (v =? 0)) (fun v => v <? 647)
    Resistance.calculateCapacitance /\
  polls_through 0 (fun v => negb (v =? 0)) (fun v => v <? 645)
    Calibration.getTimeConstant.
Proof.
  split.
  - exact calculateCapacitance_polls.
  - exact getTimeConstant_polls.
Qed.

(** *** The discharge loops *)

(** C4, as stated, fails: with the input of [calculateResistance] at full
    scale (complement zero) the discharge loop polls on -- the timer is still
    stopped and the charge line low when the samples run out -- and with the
    input at zero (complement 1023) it ends: the timer has been started and
    the charge line driven high. *)
Lemma resistance_discharge_counterexample :
  let at_full_scale :=
    final (Resistance.calculateResistance (booted [reading 1 1023] [])) in
  let at_zero :=
    final (Resistance.calculateResistance (booted [reading 1 0] [])) in
  (TCCR1B at_full_scale = 0 /\
   Z.testbit (PORTB at_full_scale) Resistance.pin_charge = false /\
   calls at_full_scale =
     [Call_calculateResistance; Call_readADC 1; Call_readADC 1]) /\
  (TCCR1B at_zero = 3 /\
   Z.testbit (PORTB at_zero) Resistance.pin_charge = true).
Proof. vm_compute. repeat split. Qed.

(** C4, amended.  The discharge loop of [calculateResistance] polls until the
    sample itself is zero, as that of [calculateCapacitance] does; the
    complement [1023 - sample] is taken in its charge loop only. *)
Theorem discharge_loops_end_at_zero :
  polls_through Resistance.pin_resistance
    (fun v => negb (v =? 0)) (fun v => u16 (1023 - v) <? 647)
    Resistance.calculateResistance /\
  polls_through Resistance.pin_capacitance
    (fun v => negb (v =? 0)) (fun v => v <? 647)
    Resistance.calculateCapacitance.
Proof.
  split.
  - exact calculateResistance_polls.
  - exact calculateCapacitance_polls.
Qed.

(** *** Read-out *)

(** C6.  On every input that leads it through its loops
    [calculateCapacitance] returns tau / 10 and [calculateResistance]
    tau / 100, where tau is what the call of [getMilliseconds] returns in the
    machine the measurement is in when its charge loop has ended, on the
    sample that crossed the threshold; and whenever one of them returns, that
    is what it returns.  The read is the one the code makes, two loads with
    the overflow interrupt enabled. *)
Theorem conversion_divides_tau (s : machine) :
  (forall rest,
     leads_through Resistance.pin_capacitance
       (fun v => negb (v =? 0)) (fun v => v <? 647)
       (ADMUX s) (adc_feed s) rest ->
     exists s3 tau s4 s',
       capacitance_until_crossing s = Ret tt s3 /\
       (ADC s3 <? 647) = false /\
       getMilliseconds_exec Resistance.TIMER1_OVF_vect s3 = Ret tau s4 /\
       Resistance.calculateCapacitance s =
         Ret (tau / Float32.of_Z 10)%f32 s' /\
       adc_feed s' = rest) /\
  (forall rest,
     leads_through Resistance.pin_resistance
       (fun v => negb (v =? 0)) (fun v => u16 (1023 - v) <? 647)
       (ADMUX s) (adc_feed s) rest ->
     exists s3 tau s4 s',
       resistance_until_crossing s = Ret tt s3 /\
       (u16 (1023 - ADC s3) <? 647) = false /\
       getMilliseconds_exec Resistance.TIMER1_OVF_vect s3 = Ret tau s4 /\
       Resistance.calculateResistance s =
         Ret (tau / Float32.of_Z 100)%f32 s' /\
       adc_feed s' = rest) /\
  (forall v s',
     Resistance.calculateCapacitance s = Ret v s' ->
     exists s3 tau s4,
       capacitance_until_crossing s = Ret tt s3 /\
       (ADC s3 <? 647) = false /\
       getMilliseconds_exec Resistance.TIMER1_OVF_vect s3 = Ret tau s4 /\
       v = (tau / Float32.of_Z 10)%f32) /\
  (forall v s',
     Resistance.calculateResistance s = Ret v s' ->
     exists s3 tau s4,
       resistance_until_crossing s = Ret tt s3 /\
       (u16 (1023 - ADC s3) <? 647) = false /\
       getMilliseconds_exec Resistance.TIMER1_OVF_vect s3 = Ret tau s4 /\
       v = (tau / Float32.of_Z 100)%f32).
Proof.
  assert (Hcap : forall v s',
            Resistance.calculateCapacitance s = Ret v s' ->
            exists s3 tau s4,
              capacitance_until_crossing s = Ret tt s3 /\
              (ADC s3 <? 647) = false /\
              getMilliseconds_exec Resistance.TIMER1_OVF_vect s3 = Ret tau s4 /\
              v = (tau / Float32.of_Z 10)%f32).
  { intros v s' Hrun. rewrite calculateCapacitance_shape in Hrun.
    apply transient_after in Hrun; [|exact Resistance_isr_frame].
    destruct Hrun as (s3 & Hs3 & Hc & Hout). rewrite read_out_eq in Hout.
    injection Hout as <- _.
    eexists s3, _, _. split; [exact Hs3|]. split; [exact Hc|].
    split; [apply getMilliseconds_exec_eq|reflexivity]. }
  assert (Hres : forall v s',
            Resistance.calculateResistance s = Ret v s' ->
            exists s3 tau s4,
              resistance_until_crossing s = Ret tt s3 /\
              (u16 (1023 - ADC s3) <? 647) = false /\
              getMilliseconds_exec Resistance.TIMER1_OVF_vect s3 = Ret tau s4 /\
              v = (tau / Float32.of_Z 100)%f32).
  { intros v s' Hrun. rewrite calculateResistance_shape in Hrun.
    apply transient_after in Hrun; [|exact Resistance_isr_frame].
    destruct Hrun as (s3 & Hs3 & Hc & Hout). rewrite read_out_eq in Hout.
    injection Hout as <- _.
    eexists s3, _, _. split; [exact Hs3|]. split; [exact Hc|].
    split; [apply getMilliseconds_exec_eq|reflexivity]. }
  split; [|split; [|split; [exact Hcap|exact Hres]]].
  - intros rest Hlead.
    destruct (proj2 (calculateCapacitance_polls s rest) Hlead)
      as (v & s' & Hrun & Hrest).
    destruct (Hcap v s' Hrun) as (s3 & tau & s4 & Hs3 & Hc & Hread & ->).
    exists s3, tau, s4, s'. auto.
  - intros rest Hlead.
    destruct (proj2 (calculateResistance_polls s rest) Hlead)
      as (v & s' & Hrun & Hrest).
    destruct (Hres v s' Hrun) as (s3 & tau & s4 & Hs3 & Hc & Hread & ->).
    exists s3, tau, s4, s'. auto.
Qed.

(** The slow charge: 250110 ticks are 1000.44 ms, and 100.044 uF come out.
    A resistor whose charge ends one tick before the counter wraps, read with
    the accumulator loaded first and the wrap between the loads: 262.14 ms
    have gone by, tau is read as 0.0, and 0.0 k ohm come out. *)
Lemma conversion_divides_tau_witness :
  let slow := booted slow_charge [] in
  let torn := set_load_gap 1 (booted [reading 1 0; reading (Z.to_nat 65535) 376] []) in
  (leads_through Resistance.pin_capacitance
     (fun v => negb (v =? 0)) (fun v => v <? 647)
     (ADMUX slow) (adc_feed slow) [] /\
   Resistance.calculateCapacitance slow =
     Ret (S754_finite false 13112810 (-17))
         (final (Resistance.calculateCapacitance slow)) /\
   exists s3 tau s4 s',
     capacitance_until_crossing slow = Ret tt s3 /\
     (ADC s3 <? 647) = false /\
     getMilliseconds_exec Resistance.TIMER1_OVF_vect s3 = Ret tau s4 /\
     Resistance.calculateCapacitance slow =
       Ret (tau / Float32.of_Z 10)%f32 s' /\
     adc_feed s' = []) /\
  (leads_through Resistance.pin_resistance
     (fun v => negb (v =? 0)) (fun v => u16 (1023 - v) <? 647)
     (ADMUX torn) (adc_feed torn) [] /\
   Resistance.calculateResistance torn =
     Ret Float32.zero (final (Resistance.calculateResistance torn)) /\
   exists s3 tau s4 s',
     resistance_until_crossing torn = Ret tt s3 /\
     (u16 (1023 - ADC s3) <? 647) = false /\
     getMilliseconds_exec Resistance.TIMER1_OVF_vect s3 = Ret tau s4 /\
     Resistance.calculateResistance torn =
       Ret (tau / Float32.of_Z 100)%f32 s' /\
     adc_feed s' = []).
Proof.
  intros slow torn.
  assert (H1 : leads_through Resistance.pin_capacitance
                 (fun v => negb (v =? 0)) (fun v => v <? 647)
                 (ADMUX slow) (adc_feed slow) []).
  { exists [reading 3 5], (reading 3 0),
      [reading 100 300; reading (Z.to_nat 250000) 646], (reading 10 647).
    split; [reflexivity|]. split; [repeat constructor|].
    split; [reflexivity|]. split; [repeat constructor|reflexivity]. }
  assert (H2 : leads_through Resistance.pin_resistance
                 (fun v => negb (v =? 0)) (fun v => u16 (1023 - v) <? 647)
                 (ADMUX torn) (adc_feed torn) []).
  { exists [], (reading 1 0), [], (reading (Z.to_nat 65535) 376).
    split; [reflexivity|]. split; [constructor|].
    split; [reflexivity|]. split; [constructor|reflexivity]. }
  split.
  - split; [exact H1|]. split; [vm_compute; reflexivity|].
    exact (proj1 (conversion_divides_tau slow) [] H1).
  - split; [exact H2|]. split; [vm_compute; reflexivity|].
    exact (proj1 (proj2 (conversion_divides_tau torn)) [] H2).
Defined.

(** *** What a measurement leaves behind *)

Lemma booted_idle (feed : list conversion) (rx : list Z) :
  idle (booted feed rx).
Proof. repeat split. Qed.

(** C10.  When [calculateCapacitance] or [calculateResistance] returns, the
    charge line is low, the timer clock is stopped, and the overflow
    accumulator and the tick counter are zero -- the configuration the
    machine was in before the measurement. *)
Theorem measurement_leaves_idle (s : machine) (v : float) (s' : machine) :
  Resistance.calculateCapacitance s = Ret v s' \/
  Resistance.calculateResistance s = Ret v s' ->
  idle s'.
Proof.
  intros [Hrun | Hrun].
  - rewrite calculateCapacitance_shape in Hrun.
    apply transient_after in Hrun; [|exact Resistance_isr_frame].
    destruct Hrun as (s3 & _ & _ & Hout). rewrite read_out_eq in Hout.
    injection Hout as _ <-. repeat split.
  - rewrite calculateResistance_shape in Hrun.
    apply transient_after in Hrun; [|exact Resistance_isr_frame].
    destruct Hrun as (s3 & _ & _ & Hout). rewrite read_out_eq in Hout.
    injection Hout as _ <-. repeat split.
Qed.

Lemma measurement_leaves_idle_witness :
  let run := Resistance.calculateCapacitance (booted slow_charge []) in
  let v := S754_finite false 13112810 (-17) in
  run = Ret v (final run) /\ idle (final run).
Proof.
  intros run v.
  assert (E : run = Ret v (final run)) by (vm_compute; reflexivity).
  split; [exact E|].
  exact (measurement_leaves_idle _ v (final run) (or_introl E)).
Defined.

(** ** The dispatcher *)

Lemma silent_bind {A C} (m : M A) (k : A -> M C) :
  silent m -> (forall a, silent (k a)) -> silent (bind m k).
Proof.
  intros Hm Hk s. unfold bind.
  destruct (Hm s) as (a & s1 & -> & H1).
  destruct (Hk a s1) as (v & s2 & -> & H2).
  exists v, s2. split; [reflexivity|congruence].
Qed.

Lemma silent_ret {A} (a : A) : silent (ret a).
Proof. intros s. now exists a, s. Qed.

Lemma silent_USART_sendData (data : string) : silent (USART_sendData data).
Proof. intros s. eexists _, _. split; reflexivity. Qed.

Lemma silent_USART_sendFloat (data : float) : silent (USART_sendFloat data).
Proof. intros s. eexists _, _. split; reflexivity. Qed.

Lemma silent_USART_sendByte (data : Z) : silent (USART_sendByte data).
Proof. intros s. eexists _, _. split; reflexivity. Qed.

(** Silent code after [m] does not change what [m] entered. *)
Lemma calls_bind_silent {A C} (m : M A) (k : A -> M C) (s : machine) :
  (forall a, silent (k a)) ->
  calls (final (bind m k s)) = calls (final (m s)).
Proof.
  intros Hk. unfold bind. destruct (m s) as [a s1|s1]; [|reflexivity].
  destruct (Hk a s1) as (v & s2 & -> & H2). exact H2.
Qed.

Lemma calls_silent_bind {A C} (m : M A) (k : A -> M C) (s : machine) :
  silent m ->
  exists a s1, m s = Ret a s1 /\ calls s1 = calls s /\
               bind m k s = k a s1.
Proof.
  intros Hm. destruct (Hm s) as (a & s1 & E & H1).
  exists a, s1. unfold bind. rewrite E. auto.
Qed.

Section Entered.

Variable isr : machine -> machine.
Hypothesis isr_frame : writes_overflow_only isr.

(** One [readADC] enters [readADC], whether the conversion completes or
    not. *)
Lemma readADC_calls (pin : Z) (s : machine) :
  calls (final (readADC isr pin s)) = calls s ++ [Call_readADC pin].
Proof.
  rewrite readADC_eq. destruct (adc_feed s) as [|c feed]; cbn [final].
  - apply started_polled.
  - now apply fetched_polled.
Qed.

(** A polling loop enters [readADC] on its pin, some number of times. *)
Lemma while_readADC_calls (pin : Z) (again : Z -> bool) (s : machine) :
  exists n, calls (final (while_readADC isr pin again s)) =
            calls s ++ repeat (Call_readADC pin) n.
Proof.
  destruct (first_exit pin again s (adc_feed s))
    as [Hall | (pre & c & post & Hf & Hpre & Hc)].
  - destruct (while_readADC_hangs isr isr_frame pin again s Hall)
      as (s' & -> & _ & Hp).
    eexists. apply Hp.
  - destruct (while_readADC_returns isr isr_frame pin again s pre c post
                Hf Hpre Hc) as (s' & -> & _ & _ & Hp).
    eexists. apply Hp.
Qed.

(** A transient measurement enters what its first block enters and then
    only [readADC] on its pin. *)
Lemma transient_calls (pin : Z) (discharging charging : Z -> bool)
    (before between : M unit) {A} (after : M A) (entry : call) :
  (forall s, exists s',
      before s = Ret tt s' /\ calls s' = calls s ++ [entry]) ->
  silent between -> silent after ->
  forall s, exists n,
    calls (final (transient isr pin discharging charging
                    before between after s)) =
    calls s ++ entry :: repeat (Call_readADC pin) n.
Proof.
  intros Hb Hm Ha s. unfold transient, bind.
  destruct (Hb s) as (s0 & -> & H0).
  destruct (while_readADC_calls pin discharging s0) as (n1 & H1).
  destruct (while_readADC isr pin discharging s0) as [[] s1|s1];
    cbn [final] in H1.
  2:{ exists n1. cbn [final]. rewrite H1, H0, <- app_assoc. reflexivity. }
  destruct (Hm s1) as ([] & s2 & -> & H2).
  destruct (while_readADC_calls pin charging s2) as (n2 & H3).
  destruct (while_readADC isr pin charging s2) as [[] s3|s3];
    cbn [final] in H3.
  2:{ exists (n1 + n2)%nat. cbn [final].
      rewrite H3, H2, H1, H0, repeat_app, <- !app_assoc. reflexivity. }
  destruct (Ha s3) as (v & s4 & -> & H4).
  exists (n1 + n2)%nat. cbn [final].
  rewrite H4, H3, H2, H1, H0, repeat_app, <- !app_assoc. reflexivity.
Qed.

End Entered.

Ltac silence :=
  repeat first
    [ apply silent_ret
    | apply silent_USART_sendData
    | apply silent_USART_sendFloat
    | apply silent_USART_sendByte
    | apply silent_bind; [|intros ?] ].

Lemma read_out_silent (divisor : Z) : silent (read_out divisor).
Proof.
  intros s. rewrite read_out_eq.
  rewrite (ticks_frame _ Resistance_isr_frame).
  eexists _, _. split; reflexivity.
Qed.

Lemma calculateCapacitance_calls (s : machine) :
  exists n,
    calls (final (Resistance.calculateCapacitance s)) =
    calls s ++ Call_calculateCapacitance
            :: repeat (Call_readADC Resistance.pin_capacitance) n.
Proof.
  rewrite calculateCapacitance_shape.
  apply transient_calls.
  - exact Resistance_isr_frame.
  - intros s0. eexists. split; reflexivity.
  - intros s0. eexists _, _. split; reflexivity.
  - apply read_out_silent.
Qed.

Lemma calculateResistance_calls (s : machine) :
  exists n,
    calls (final (Resistance.calculateResistance s)) =
    calls s ++ Call_calculateResistance
            :: repeat (Call_readADC Resistance.pin_resistance) n.
Proof.
  rewrite calculateResistance_shape.
  apply transient_calls.
  - exact Resistance_isr_frame.
  - intros s0. eexists. split; reflexivity.
  - intros s0. eexists _, _. split; reflexivity.
  - apply read_out_silent.
Qed.

Lemma bind_gets {A C} (f : machine -> A) (k : A -> M C) (s : machine) :
  bind (gets f) k s = k (f s) s.
Proof. reflexivity. Qed.

(** The first statement of the goal's program is silent: run it. *)
Ltac run_silent :=
  match goal with
  | |- context [bind ?m ?k ?s] =>
      let Hc := fresh "Hcalls" in
      destruct (calls_silent_bind m k s ltac:(silence))
        as (? & ? & _ & Hc & ->);
      cbv beta
  end.

(** C7.  For a mode outside 1..4 the [switch] sends "Invalid", leaves [value]
    at 0 and the machine otherwise as it was: no routine is entered and no
    conversion made.  For mode 3 it enters what one run of
    [calculateCapacitance], started when the two banners have been sent,
    enters -- the routine once and [readADC] on its own pin from within it --
    and nothing before or after it; for mode 2 the same with
    [calculateResistance]; for modes 1 and 4 one [readADC], of the voltage and
    of the current pin. *)
Theorem dispatcher_invokes (s : machine) :
  (mode s = Resistance.MODE_CAPACITANCE ->
   let s0 := final ((USART_sendData ("Capacitance meter" ++ LF) ;;
                     USART_sendData ("Calculating time constant..." ++ LF))
                      s) in
   calls (final (Resistance.main_switch s)) =
     calls (final (Resistance.calculateCapacitance s0)) /\
   exists n, calls (final (Resistance.calculateCapacitance s0)) =
             calls s ++ Call_calculateCapacitance
                     :: repeat (Call_readADC Resistance.pin_capacitance) n) /\
  (mode s = Resistance.MODE_RESISTANCE ->
   let s0 := final ((USART_sendData ("Resistance meter" ++ LF) ;;
                     USART_sendData ("Calculating time constant..." ++ LF))
                      s) in
   calls (final (Resistance.main_switch s)) =
     calls (final (Resistance.calculateResistance s0)) /\
   exists n, calls (final (Resistance.calculateResistance s0)) =
             calls s ++ Call_calculateResistance
                     :: repeat (Call_readADC Resistance.pin_resistance) n) /\
  (mode s = Resistance.MODE_VOLTAGE ->
   calls (final (Resistance.main_switch s)) =
   calls s ++ [Call_readADC Resistance.pin_voltage]) /\
  (mode s = Resistance.MODE_CURRENT ->
   calls (final (Resistance.main_switch s)) =
   calls s ++ [Call_readADC Resistance.pin_current]) /\
  (~ In (mode s) [1; 2; 3; 4] ->
   Resistance.main_switch s =
   Ret Float32.zero (set_tx (tx s ++ [TxStr ("Invalid" ++ LF)]) s)).
Proof.
  unfold Resistance.main_switch. rewrite !bind_gets.
  split; [|split; [|split; [|split]]]; intros Hm.
  - rewrite Hm. cbv [Resistance.MODE_CAPACITANCE Z.eqb Pos.eqb]. cbv iota.
    match goal with
    | |- context [Resistance.calculateCapacitance ?t] => set (s0 := t)
    end.
    split.
    + match goal with
      | |- context [bind Resistance.calculateCapacitance ?k] =>
          change (calls (final (bind Resistance.calculateCapacitance k s0)) =
                  calls (final (Resistance.calculateCapacitance s0)))
      end.
      apply calls_bind_silent. intros ?. silence.
    + destruct (calculateCapacitance_calls s0) as (n & E).
      exists n. exact E.
  - rewrite Hm.
    cbv [Resistance.MODE_CAPACITANCE Resistance.MODE_RESISTANCE Z.eqb Pos.eqb].
    cbv iota.
    match goal with
    | |- context [Resistance.calculateResistance ?t] => set (s0 := t)
    end.
    split.
    + match goal with
      | |- context [bind Resistance.calculateResistance ?k] =>
          change (calls (final (bind Resistance.calculateResistance k s0)) =
                  calls (final (Resistance.calculateResistance s0)))
      end.
      apply calls_bind_silent. intros ?. silence.
    + destruct (calculateResistance_calls s0) as (n & E).
      exists n. exact E.
  - rewrite Hm.
    cbv [Resistance.MODE_CAPACITANCE Resistance.MODE_RESISTANCE
         Resistance.MODE_VOLTAGE Z.eqb Pos.eqb].
    cbv iota.
    run_silent.
    rewrite calls_bind_silent by (intros ?; silence).
    rewrite readADC_calls by exact Resistance_isr_frame. congruence.
  - rewrite Hm.
    cbv [Resistance.MODE_CAPACITANCE Resistance.MODE_RESISTANCE
         Resistance.MODE_VOLTAGE Resistance.MODE_CURRENT Z.eqb Pos.eqb].
    cbv iota.
    run_silent.
    rewrite calls_bind_silent by (intros ?; silence).
    rewrite readADC_calls by exact Resistance_isr_frame. congruence.
  - simpl in Hm.
    replace (mode s =? Resistance.MODE_CAPACITANCE) with false
      by (symmetry; apply Z.eqb_neq; unfold Resistance.MODE_CAPACITANCE; lia).
    replace (mode s =? Resistance.MODE_RESISTANCE) with false
      by (symmetry; apply Z.eqb_neq; unfold Resistance.MODE_RESISTANCE; lia).
    replace (mode s =? Resistance.MODE_VOLTAGE) with false
      by (symmetry; apply Z.eqb_neq; unfold Resistance.MODE_VOLTAGE; lia).
    replace (mode s =? Resistance.MODE_CURRENT) with false
      by (symmetry; apply Z.eqb_neq; unfold Resistance.MODE_CURRENT; lia).
    reflexivity.
Qed.

(** The host sends the character '9'; it sends '3' with the slow charge on
    the input, and the routine is entered once and polls five times; it
    sends '1', and one conversion is made. *)
Lemma dispatcher_invokes_witness :
  let s := final (Resistance.checkMode (booted [reading 1 512] [57])) in
  let s3 := final (Resistance.checkMode (booted slow_charge [51])) in
  let s1 := final (Resistance.checkMode (booted [reading 1 512] [49])) in
  (mode s = 9 /\
   ~ In (mode s) [1; 2; 3; 4] /\
   Resistance.main_switch s =
     Ret Float32.zero (set_tx (tx s ++ [TxStr ("Invalid" ++ LF)]) s) /\
   calls (final (Resistance.main_switch s)) = [] /\
   adc_feed (final (Resistance.main_switch s)) = [reading 1 512]) /\
  (mode s3 = Resistance.MODE_CAPACITANCE /\
   calls (final (Resistance.main_switch s3)) =
     calls (final (Resistance.calculateCapacitance
                     (final ((USART_sendData ("Capacitance meter" ++ LF) ;;
                              USART_sendData
                                ("Calculating time constant..." ++ LF)) s3))))
   /\
   calls (final (Resistance.main_switch s3)) =
     Call_calculateCapacitance
       :: repeat (Call_readADC Resistance.pin_capacitance) 5) /\
  (mode s1 = Resistance.MODE_VOLTAGE /\
   calls (final (Resistance.main_switch s1)) =
     calls s1 ++ [Call_readADC Resistance.pin_voltage]).
Proof.
  intros s s3 s1.
  assert (Hmode : mode s = 9) by reflexivity.
  assert (Hout : ~ In (mode s) [1; 2; 3; 4])
    by (rewrite Hmode; simpl; intuition discriminate).
  assert (H3 : mode s3 = Resistance.MODE_CAPACITANCE) by reflexivity.
  assert (H1 : mode s1 = Resistance.MODE_VOLTAGE) by reflexivity.
  split; [|split].
  - split; [exact Hmode|]. split; [exact Hout|].
    pose proof (proj2 (proj2 (proj2 (proj2 (dispatcher_invokes s)))) Hout)
      as E.
    split; [exact E|]. rewrite E. split; reflexivity.
  - split; [exact H3|].
    split; [exact (proj1 (proj1 (dispatcher_invokes s3) H3))|].
    vm_compute. reflexivity.
  - split; [exact H1|].
    exact (proj1 (proj2 (proj2 (dispatcher_invokes s1))) H1).
Defined.

(** ** The direct readings *)

Lemma ascending_nth (l : list float) (d : float) :
  ascending l = true ->
  forall i j, (i < j < List.length l)%nat ->
              (nth i l d <? nth j l d)%f32 = true.
Proof.
  induction l as [|x rest IH]; intros Hl i j Hij; [simpl in Hij; lia|].
  simpl in Hl. apply andb_true_iff in Hl. destruct Hl as [Hx Hrest].
  destruct j as [|j]; [lia|]. destruct i as [|i]; simpl.
  - rewrite forallb_forall in Hx. apply Hx. apply nth_In. simpl in Hij. lia.
  - apply IH; [exact Hrest|]. simpl in Hij. lia.
Qed.

Lemma nth_samples (f : Z -> float) (a : Z) (d : float) :
  0 <= a <= 1023 ->
  nth (Z.to_nat a) (map f samples) d = f a.
Proof.
  intros Ha. unfold samples. rewrite map_map.
  rewrite nth_indep with (d' := f (Z.of_nat 0))
    by (rewrite length_map, length_seq; lia).
  rewrite (map_nth (fun n => f (Z.of_nat n)) (seq 0 1024) 0%nat).
  rewrite seq_nth by lia. simpl. now rewrite Z2Nat.id by lia.
Qed.

Lemma toVoltage_ascending : ascending (map Resistance.toVoltage samples) = true.
Proof. vm_compute. reflexivity. Qed.

(** What the [switch] does in the two direct modes. *)
Lemma bind_send {C} (data : string) (k : unit -> M C) (s : machine) :
  bind (USART_sendData data) k s = k tt (set_tx (tx s ++ [TxStr data]) s).
Proof. reflexivity. Qed.

Lemma main_switch_voltage (s : machine) (c : conversion)
    (feed : list conversion) :
  mode s = Resistance.MODE_VOLTAGE ->
  adc_feed s = c :: feed ->
  exists s',
    Resistance.main_switch s =
      Ret (Resistance.toVoltage (sampled (ADMUX s) Resistance.pin_voltage c))
          s' /\
    tx s' = tx s ++ [TxStr ("Volt meter" ++ LF); TxStr "The Voltage is: ";
                     TxFloat (Resistance.toVoltage
                                (sampled (ADMUX s) Resistance.pin_voltage c));
                     TxStr (" V" ++ LF); TxByte 10] /\
    PORTD s' = PORTD s /\ adc_feed s' = feed.
Proof.
  intros Hm Hfeed. unfold Resistance.main_switch. rewrite bind_gets, Hm.
  change (Resistance.MODE_VOLTAGE =? Resistance.MODE_CAPACITANCE) with false.
  change (Resistance.MODE_VOLTAGE =? Resistance.MODE_RESISTANCE) with false.
  change (Resistance.MODE_VOLTAGE =? Resistance.MODE_VOLTAGE) with true.
  cbv iota. rewrite bind_send. unfold bind at 1.
  rewrite readADC_eq by exact Resistance_isr_frame.
  cbn [adc_feed set_tx]. rewrite Hfeed.
  set (s0 := set_tx (tx s ++ [TxStr ("Volt meter" ++ LF)]) s).
  pose proof (fetched_polled Resistance.TIMER1_OVF_vect Resistance_isr_frame
                Resistance.pin_voltage c feed s0)
    as (_ & _ & Hd & _ & _ & _ & _ & _ & Ht & _).
  rewrite fetched_ADC by exact Resistance_isr_frame.
  change (ADMUX s0) with (ADMUX s).
  eexists. split; [reflexivity|].
  cbn [tx set_tx PORTD adc_feed]. rewrite Ht, Hd.
  rewrite fetched_feed by exact Resistance_isr_frame.
  split; [|split; reflexivity].
  subst s0. cbn [tx set_tx]. rewrite <- !app_assoc. reflexivity.
Qed.

Lemma main_switch_current (s : machine) (c : conversion)
    (feed : list conversion) :
  mode s = Resistance.MODE_CURRENT ->
  adc_feed s = c :: feed ->
  exists s',
    Resistance.main_switch s =
      Ret (Resistance.toCurrent (sampled (ADMUX s) Resistance.pin_current c))
          s' /\
    tx s' = tx s ++ [TxStr ("Ammeter" ++ LF); TxStr "The current is: ";
                     TxFloat (Resistance.toCurrent
                                (sampled (ADMUX s) Resistance.pin_current c));
                     TxStr (" mA" ++ LF); TxByte 10] /\
    PORTD s' = PORTD s /\ adc_feed s' = feed.
Proof.
  intros Hm Hfeed. unfold Resistance.main_switch. rewrite bind_gets, Hm.
  change (Resistance.MODE_CURRENT =? Resistance.MODE_CAPACITANCE) with false.
  change (Resistance.MODE_CURRENT =? Resistance.MODE_RESISTANCE) with false.
  change (Resistance.MODE_CURRENT =? Resistance.MODE_VOLTAGE) with false.
  change (Resistance.MODE_CURRENT =? Resistance.MODE_CURRENT) with true.
  cbv iota. rewrite bind_send. unfold bind at 1.
  rewrite readADC_eq by exact Resistance_isr_frame.
  cbn [adc_feed set_tx]. rewrite Hfeed.
  set (s0 := set_tx (tx s ++ [TxStr ("Ammeter" ++ LF)]) s).
  pose proof (fetched_polled Resistance.TIMER1_OVF_vect Resistance_isr_frame
                Resistance.pin_current c feed s0)
    as (_ & _ & Hd & _ & _ & _ & _ & _ & Ht & _).
  rewrite fetched_ADC by exact Resistance_isr_frame.
  change (ADMUX s0) with (ADMUX s).
  eexists. split; [reflexivity|].
  cbn [tx set_tx PORTD adc_feed]. rewrite Ht, Hd.
  rewrite fetched_feed by exact Resistance_isr_frame.
  split; [|split; reflexivity].
  subst s0. cbn [tx set_tx]. rewrite <- !app_assoc. reflexivity.
Qed.

(** C8.  The direct readings are the sample times the scale constant, in
    binary32; [toVoltage 0] is [+0.0], and [toVoltage] is strictly increasing
    from 0 to 1023.  They are what [main] computes: in mode 1 its [switch]
    takes the sample [readADC(pin_voltage)] returns once the banner is sent,
    a number from 0 to 1023, and its value, sent between the label and the
    unit, is that sample times [VOLTS_PER_COUNT]; in mode 4 the same with
    [readADC(pin_current)] and [MILLIAMPS_PER_COUNT]. *)
Theorem direct_readings_linear :
  (forall sample,
     Resistance.toVoltage sample =
     (Float32.of_Z sample * Resistance.VOLTS_PER_COUNT)%f32) /\
  (forall sample,
     Resistance.toCurrent sample =
     (Float32.of_Z sample * Resistance.MILLIAMPS_PER_COUNT)%f32) /\
  Resistance.toVoltage 0 = Float32.zero /\
  (forall a b, 0 <= a -> a < b -> b <= 1023 ->
     (Resistance.toVoltage a <? Resistance.toVoltage b)%f32 = true) /\
  (forall s c feed,
     mode s = Resistance.MODE_VOLTAGE ->
     adc_feed s = c :: feed ->
     exists sample s1 s',
       readADC Resistance.TIMER1_OVF_vect Resistance.pin_voltage
         (final (USART_sendData ("Volt meter" ++ LF) s)) = Ret sample s1 /\
       0 <= sample <= 1023 /\
       Resistance.main_switch s =
         Ret (Float32.of_Z sample * Resistance.VOLTS_PER_COUNT)%f32 s' /\
       tx s' = tx s ++
         [TxStr ("Volt meter" ++ LF); TxStr "The Voltage is: ";
          TxFloat (Float32.of_Z sample * Resistance.VOLTS_PER_COUNT)%f32;
          TxStr (" V" ++ LF); TxByte 10]) /\
  (forall s c feed,
     mode s = Resistance.MODE_CURRENT ->
     adc_feed s = c :: feed ->
     exists sample s1 s',
       readADC Resistance.TIMER1_OVF_vect Resistance.pin_current
         (final (USART_sendData ("Ammeter" ++ LF) s)) = Ret sample s1 /\
       0 <= sample <= 1023 /\
       Resistance.main_switch s =
         Ret (Float32.of_Z sample * Resistance.MILLIAMPS_PER_COUNT)%f32 s' /\
       tx s' = tx s ++
         [TxStr ("Ammeter" ++ LF); TxStr "The current is: ";
          TxFloat (Float32.of_Z sample * Resistance.MILLIAMPS_PER_COUNT)%f32;
          TxStr (" mA" ++ LF); TxByte 10]).
Proof.
  split; [reflexivity|]. split; [reflexivity|]. split; [reflexivity|].
  split; [|split].
  - intros a b Ha Hab Hb.
    rewrite <- (nth_samples Resistance.toVoltage a Float32.zero) by lia.
    rewrite <- (nth_samples Resistance.toVoltage b Float32.zero) by lia.
    apply ascending_nth; [exact toVoltage_ascending|].
    rewrite length_map. unfold samples. rewrite length_map, length_seq. lia.
  - intros s c feed Hm Hfeed.
    destruct (main_switch_voltage s c feed Hm Hfeed) as (s' & E & Ht & _).
    exists (sampled (ADMUX s) Resistance.pin_voltage c).
    eexists _, s'. split.
    + rewrite readADC_eq by exact Resistance_isr_frame.
      cbn [final USART_sendData modify adc_feed set_tx]. rewrite Hfeed.
      rewrite fetched_ADC by exact Resistance_isr_frame. reflexivity.
    + split; [apply ten_bits|]. split; [exact E|exact Ht].
  - intros s c feed Hm Hfeed.
    destruct (main_switch_current s c feed Hm Hfeed) as (s' & E & Ht & _).
    exists (sampled (ADMUX s) Resistance.pin_current c).
    eexists _, s'. split.
    + rewrite readADC_eq by exact Resistance_isr_frame.
      cbn [final USART_sendData modify adc_feed set_tx]. rewrite Hfeed.
      rewrite fetched_ADC by exact Resistance_isr_frame. reflexivity.
    + split; [apply ten_bits|]. split; [exact E|exact Ht].
Qed.

(** Two neighbouring samples, and the voltmeter with 200 counts on its
    channel. *)
Lemma direct_readings_linear_witness :
  let s := final (Resistance.checkMode (booted [staircase] [49])) in
  (0 <= 646 /\ 646 < 647 /\ 647 <= 1023 /\
   (Resistance.toVoltage 646 <? Resistance.toVoltage 647)%f32 = true) /\
  (mode s = Resistance.MODE_VOLTAGE /\
   adc_feed s = [staircase] /\
   exists sample s1 s',
     readADC Resistance.TIMER1_OVF_vect Resistance.pin_voltage
       (final (USART_sendData ("Volt meter" ++ LF) s)) = Ret sample s1 /\
     0 <= sample <= 1023 /\
     Resistance.main_switch s =
       Ret (Float32.of_Z sample * Resistance.VOLTS_PER_COUNT)%f32 s' /\
     tx s' = tx s ++
       [TxStr ("Volt meter" ++ LF); TxStr "The Voltage is: ";
        TxFloat (Float32.of_Z sample * Resistance.VOLTS_PER_COUNT)%f32;
        TxStr (" V" ++ LF); TxByte 10]).
Proof.
  intros s.
  assert (H0 : 0 <= 646) by lia.
  assert (H1 : 646 < 647) by lia.
  assert (H2 : 647 <= 1023) by lia.
  assert (Hm : mode s = Resistance.MODE_VOLTAGE) by reflexivity.
  assert (Hf : adc_feed s = [staircase]) by reflexivity.
  split.
  - split; [exact H0|]. split; [exact H1|]. split; [exact H2|].
    exact (proj1 (proj2 (proj2 (proj2 direct_readings_linear)))
             646 647 H0 H1 H2).
  - split; [exact Hm|]. split; [exact Hf|].
    exact (proj1 (proj2 (proj2 (proj2 (proj2 direct_readings_linear))))
             s staircase [] Hm Hf).
Defined.

(** ** Reading the elapsed time *)

Lemma f32_add_sound (x y : float) :
  sound x = true -> sound y = true -> sound (x + y)%f32 = true.
Proof. intros Hx Hy. exact (proj1 (f32_add_key x y Hx Hy)). Qed.

Lemma quotients_ascend_spec (n : nat) :
  forall c prev,
    sound prev = true ->
    quotients_ascend n c prev = true ->
    forall k2, 0 <= k2 <= Z.of_nat n ->
      sound (quotient (c + k2)) = true /\
      fkey prev <= fkey (quotient (c + k2)) /\
      forall k1, 0 <= k1 <= k2 ->
                 fkey (quotient (c + k1)) <= fkey (quotient (c + k2)).
Proof.
  induction n as [|n IH]; intros c prev Hprev H k2 Hk2;
    cbn [quotients_ascend] in H;
    apply andb_true_iff in H; destruct H as [H H3];
    apply andb_true_iff in H; destruct H as [H1 H2];
    unfold Float32.leb in H2; rewrite f32_leb_key in H2 by assumption;
    apply Z.leb_le in H2.
  - assert (k2 = 0) by lia. subst k2. rewrite Z.add_0_r.
    split; [exact H1|]. split; [exact H2|].
    intros k1 Hk1. assert (k1 = 0) by lia. subst k1. rewrite Z.add_0_r. lia.
  - destruct (Z.eq_dec k2 0) as [->|N2].
    + rewrite Z.add_0_r. split; [exact H1|]. split; [exact H2|].
      intros k1 Hk1. assert (k1 = 0) by lia. subst k1. rewrite Z.add_0_r. lia.
    + destruct (IH (c + 1) (quotient c) H1 H3 (k2 - 1) ltac:(lia))
        as (Hs & Hp & Hrest).
      replace (c + 1 + (k2 - 1)) with (c + k2) in Hs, Hp, Hrest by lia.
      split; [exact Hs|]. split; [lia|].
      intros k1 Hk1. destruct (Z.eq_dec k1 0) as [->|N1].
      * rewrite Z.add_0_r. exact Hp.
      * specialize (Hrest (k1 - 1) ltac:(lia)).
        replace (c + 1 + (k1 - 1)) with (c + k1) in Hrest by lia.
        exact Hrest.
Qed.

Lemma quotients_checked :
  quotients_ascend (Z.to_nat 65535) 0 Float32.zero = true.
Proof. vm_compute. reflexivity. Qed.

Lemma quotient_sound (count : Z) :
  0 <= count <= 65535 -> sound (quotient count) = true.
Proof.
  intros H.
  destruct (quotients_ascend_spec _ 0 Float32.zero eq_refl quotients_checked
              count) as [Hs _]; [lia|exact Hs].
Qed.

Lemma quotient_mono (c1 c2 : Z) :
  0 <= c1 <= c2 -> c2 <= 65535 ->
  (quotient c1 <=? quotient c2)%f32 = true.
Proof.
  intros H1 H2. unfold Float32.leb.
  rewrite f32_leb_key by (apply quotient_sound; lia).
  apply Z.leb_le.
  destruct (quotients_ascend_spec _ 0 Float32.zero eq_refl quotients_checked
              c2) as (_ & _ & Hk); [lia|].
  apply (Hk c1). lia.
Qed.

Lemma elapsed_sound (overflow : float) (count : Z) :
  sound overflow = true -> 0 <= count <= 65535 ->
  sound (elapsed overflow count) = true.
Proof.
  intros Ho Hc. apply f32_add_sound; [exact Ho|].
  apply (quotient_sound count Hc).
Qed.

(** With the accumulator fixed, a later count reads a time that is not
    earlier. *)
Lemma elapsed_count_mono (overflow : float) (c1 c2 : Z) :
  sound overflow = true -> 0 <= c1 <= c2 -> c2 <= 65535 ->
  (elapsed overflow c1 <=? elapsed overflow c2)%f32 = true.
Proof.
  intros Ho H1 H2.
  apply (f32_add_mono overflow (quotient c1) (quotient c2)); auto.
  - apply quotient_sound. lia.
  - apply quotient_sound. lia.
  - apply quotient_mono; lia.
Qed.

Lemma ticks_app (isr : machine -> machine) (a b : nat) (s : machine) :
  ticks isr (a + b) s = ticks isr b (ticks isr a s).
Proof. revert s. induction a as [|a IH]; intros s; simpl; auto. Qed.

(** Ticks that do not wrap the counter leave the accumulator alone. *)
Lemma ticks_no_wrap (isr : machine -> machine) (n : nat) :
  forall s, running s -> TCNT1 s + Z.of_nat n < 65536 ->
            timer1_overflow (ticks isr n s) = timer1_overflow s /\
            TCNT1 (ticks isr n s) = TCNT1 s + Z.of_nat n /\
            running (ticks isr n s).
Proof.
  induction n as [|n IH]; intros s Hrun Hn.
  - simpl. repeat split; try lia; apply Hrun.
  - cbn [ticks]. rewrite tick_no_wrap by (try assumption; lia).
    destruct (IH (set_TCNT1 (TCNT1 s + 1) s)) as (Ha & Hc & Hr).
    + destruct Hrun as (H1 & H2 & H3). repeat split; try assumption;
        cbn [TCNT1 set_TCNT1]; lia.
    + cbn [TCNT1 set_TCNT1]. lia.
    + rewrite Ha, Hc. cbn [TCNT1 set_TCNT1 timer1_overflow].
      repeat split; try lia; apply Hr.
Qed.

(** In [Resistance.ino] the tracker stays in order as the timer counts. *)
Lemma tracker_ok_tick (s : machine) :
  tracker_ok s -> tracker_ok (tick Resistance.TIMER1_OVF_vect s).
Proof.
  intros (Hrun & Hs). pose proof Hrun as (H1 & H2 & H3).
  destruct (Z.eq_dec (TCNT1 s) 65535) as [E|N].
  - rewrite tick_wrap by assumption. split.
    + split; [exact H1|]. split; [exact H2|].
      change (TCNT1 (Resistance.TIMER1_OVF_vect (set_TCNT1 0 s))) with 0. lia.
    + apply (elapsed_sound (timer1_overflow s) 65535 Hs). lia.
  - rewrite tick_no_wrap by assumption. split.
    + split; [exact H1|]. split; [exact H2|]. cbn [TCNT1 set_TCNT1]. lia.
    + exact Hs.
Qed.

Lemma startTimer1_tracker_ok (s : machine) :
  tracker_ok (final (Resistance.startTimer1 s)).
Proof.
  split; [split; [reflexivity|split]|reflexivity].
  - cbv [Resistance.startTimer1 Resistance.initTimer1 bind modify final].
    unfold overflow_irq_enabled. cbn [TIMSK1 set_TCNT1 set_TCCR1B
      set_timer1_overflow set_TIMSK1 set_TCCR1A].
    unfold u8. change 256 with (2 ^ 8).
    rewrite Z.mod_pow2_bits_low by lia.
    rewrite Z.lor_spec. apply orb_true_r.
  - cbn. lia.
Qed.

Lemma tracker_ok_ticks (n : nat) :
  forall s, tracker_ok s -> tracker_ok (ticks Resistance.TIMER1_OVF_vect n s).
Proof.
  induction n as [|n IH]; intros s H; [exact H|].
  cbn [ticks]. apply IH. now apply tracker_ok_tick.
Qed.

Lemma elapsed_of_sound (s : machine) :
  tracker_ok s -> sound (elapsed_of s) = true.
Proof.
  intros ((_ & _ & H3) & Hs). apply elapsed_sound; [exact Hs|lia].
Qed.

(** One tick, with the handler run when the counter wraps, does not take the
    elapsed time back. *)
Lemma elapsed_tick (s : machine) :
  tracker_ok s ->
  (elapsed_of s <=? elapsed_of (tick Resistance.TIMER1_OVF_vect s))%f32 = true.
Proof.
  intros Hok. pose proof Hok as (Hrun & Hs). pose proof Hrun as (H1 & H2 & H3).
  destruct (Z.eq_dec (TCNT1 s) 65535) as [E|N].
  - rewrite tick_wrap by assumption. unfold elapsed_of. rewrite E.
    change (elapsed (timer1_overflow
                       (Resistance.TIMER1_OVF_vect (set_TCNT1 0 s)))
                    (TCNT1 (Resistance.TIMER1_OVF_vect (set_TCNT1 0 s))))
      with (elapsed (timer1_overflow s) 65535 + quotient 0)%f32.
    change (quotient 0) with Float32.zero.
    unfold Float32.add at 1, Float32.zero.
    rewrite f32_add_zero_r by (apply elapsed_sound; [exact Hs|lia]).
    apply f32_leb_refl. apply elapsed_sound; [exact Hs|lia].
  - rewrite tick_no_wrap by assumption. unfold elapsed_of.
    cbn [TCNT1 set_TCNT1 timer1_overflow].
    apply elapsed_count_mono; [exact Hs|lia|lia].
Qed.

Lemma elapsed_ticks (n : nat) :
  forall s, tracker_ok s ->
    (elapsed_of s <=?
     elapsed_of (ticks Resistance.TIMER1_OVF_vect n s))%f32 = true.
Proof.
  induction n as [|n IH]; intros s Hok.
  - apply f32_leb_refl. now apply elapsed_of_sound.
  - cbn [ticks].
    apply (f32_leb_trans _ (elapsed_of (tick Resistance.TIMER1_OVF_vect s))).
    + now apply elapsed_of_sound.
    + apply elapsed_of_sound. now apply tracker_ok_tick.
    + apply elapsed_of_sound. apply tracker_ok_ticks. now apply tracker_ok_tick.
    + now apply elapsed_tick.
    + apply IH. now apply tracker_ok_tick.
Qed.

(** *** A read with the overflow between its loads *)

(** With no overflow between its loads, a read returns the value of the
    tracker at one of them. *)
Lemma read_between_overflows (isr : machine -> machine)
    (order : load_order) (between : nat) (s : machine) :
  running s ->
  TCNT1 s + Z.of_nat between < 65536 ->
  getMilliseconds_irq isr order between s =
  Ret match order with
      | OverflowFirst => elapsed_of (ticks isr between s)
      | CountFirst => elapsed_of s
      end
      (ticks isr between s).
Proof.
  intros Hrun Hn.
  destruct (ticks_no_wrap isr between s Hrun Hn) as (Ha & _).
  unfold getMilliseconds_irq, elapsed_of.
  destruct order; rewrite Ha; reflexivity.
Qed.

(** C9, as stated, fails.  One tick before the wrap the tracker of
    [Resistance.ino] reads 65535/250 ms, and right after the overflow it
    reads the same.  A read whose loads straddle the overflow returns
    neither: 0.0 when the accumulator is loaded first (old accumulator, new
    count), twice 65535/250 when the counter is (old count, new
    accumulator). *)
Lemma racing_read_counterexample :
  let isr := Resistance.TIMER1_OVF_vect in
  let before := resistance_at 65535 in
  let after := tick isr before in
  elapsed_of before = FULL_RANGE /\
  elapsed_of after = FULL_RANGE /\
  getMilliseconds_irq isr OverflowFirst 1 before = Ret Float32.zero after /\
  getMilliseconds_irq isr CountFirst 1 before =
    Ret (S754_finite false 8589804 (-14)) after /\
  Float32.eqb Float32.zero FULL_RANGE = false /\
  Float32.eqb (S754_finite false 8589804 (-14)) FULL_RANGE = false.
Proof. vm_compute. repeat split. Qed.

(** C9, amended.  A read with no overflow between its two loads returns the
    consistent value of the tracker at one of them: of the later state when
    the accumulator is loaded first, of the earlier when the counter is. *)
Theorem read_without_overflow_is_consistent (isr : machine -> machine)
    (order : load_order) (between : nat) (s : machine) :
  running s ->
  TCNT1 s + Z.of_nat between < 65536 ->
  getMilliseconds_irq isr order between s =
  Ret match order with
      | OverflowFirst => elapsed_of (ticks isr between s)
      | CountFirst => elapsed_of s
      end
      (ticks isr between s).
Proof. apply read_between_overflows. Qed.

Lemma read_without_overflow_is_consistent_witness :
  let isr := Resistance.TIMER1_OVF_vect in
  let s := resistance_at 65000 in
  running s /\
  TCNT1 s + Z.of_nat 100 < 65536 /\
  getMilliseconds_irq isr OverflowFirst 100 s =
    Ret (elapsed_of (ticks isr 100 s)) (ticks isr 100 s).
Proof.
  intros isr s.
  assert (Hrun : running s) by (vm_compute; intuition discriminate).
  assert (Hn : TCNT1 s + Z.of_nat 100 < 65536) by (vm_compute; reflexivity).
  split; [exact Hrun|]. split; [exact Hn|].
  exact (read_without_overflow_is_consistent isr OverflowFirst 100 s Hrun Hn).
Defined.

(** *** Successive reads *)

(** C2, as stated, fails.  With the counter at 65000 a read returns 260.0 ms;
    535 ticks later a second read loads the accumulator, the counter wraps
    and the handler runs, and the read loads the counter: it returns 0.0. *)
Lemma reads_decrease_counterexample :
  let isr := Resistance.TIMER1_OVF_vect in
  let s := resistance_at 65000 in
  let read1 := S754_finite false 8519680 (-15) in
  let read2 := Float32.zero in
  tracker_ok s /\
  getMilliseconds_irq isr OverflowFirst 0 s = Ret read1 s /\
  getMilliseconds_irq isr OverflowFirst 1 (ticks isr 535 s) =
    Ret read2 (ticks isr 536 s) /\
  (read1 <=? read2)%f32 = false.
Proof.
  split; [|vm_compute; repeat split].
  split; [vm_compute; intuition discriminate|vm_compute; reflexivity].
Qed.

(** C2, amended.  In [Resistance.ino], while the timer runs, two successive
    reads neither of which has an overflow between its own two loads satisfy
    read2 >= read1, however many ticks and overflows pass between them. *)
Theorem reads_never_decrease (first second : load_order) (k1 j k2 : nat)
    (s : machine) (r1 r2 : float) (s1 s2 : machine) :
  tracker_ok s ->
  TCNT1 s + Z.of_nat k1 < 65536 ->
  TCNT1 (ticks Resistance.TIMER1_OVF_vect (k1 + j) s) + Z.of_nat k2 < 65536 ->
  getMilliseconds_irq Resistance.TIMER1_OVF_vect first k1 s = Ret r1 s1 ->
  getMilliseconds_irq Resistance.TIMER1_OVF_vect second k2
    (ticks Resistance.TIMER1_OVF_vect j s1) = Ret r2 s2 ->
  (r1 <=? r2)%f32 = true.
Proof.
  set (isr := Resistance.TIMER1_OVF_vect).
  intros Hok H1 H2 E1 E2.
  pose proof Hok as (Hrun & Hs). pose proof Hrun as (_ & _ & Hc).
  rewrite read_between_overflows in E1 by assumption.
  injection E1 as <- <-.
  set (sa := ticks isr k1 s) in *.
  destruct (ticks_no_wrap isr k1 s Hrun H1) as (Ha & Hca & Hra).
  fold sa in Ha, Hca, Hra.
  assert (Hoka : tracker_ok sa) by (apply tracker_ok_ticks; exact Hok).
  set (sb := ticks isr j sa) in *.
  assert (Hokb : tracker_ok sb) by (apply tracker_ok_ticks; exact Hoka).
  assert (Esb : ticks isr (k1 + j) s = sb) by apply ticks_app.
  rewrite Esb in H2.
  pose proof Hokb as (Hrunb & Hsb). pose proof Hrunb as (_ & _ & Hcb).
  rewrite read_between_overflows in E2 by assumption.
  injection E2 as <- <-.
  set (sc := ticks isr k2 sb) in *.
  destruct (ticks_no_wrap isr k2 sb Hrunb H2) as (Hb & Hcc & Hrc).
  fold sc in Hb, Hcc, Hrc.
  assert (Hokc : tracker_ok sc) by (apply tracker_ok_ticks; exact Hokb).
  unfold Float32.leb.
  apply (f32_leb_trans _ (elapsed_of sa)).
  - destruct first; now apply elapsed_of_sound.
  - now apply elapsed_of_sound.
  - destruct second; now apply elapsed_of_sound.
  - destruct first.
    + apply f32_leb_refl. now apply elapsed_of_sound.
    + unfold elapsed_of. rewrite Ha.
      apply elapsed_count_mono; [exact Hs|lia|lia].
  - apply (f32_leb_trans _ (elapsed_of sb)).
    + now apply elapsed_of_sound.
    + now apply elapsed_of_sound.
    + destruct second; now apply elapsed_of_sound.
    + apply elapsed_ticks. exact Hoka.
    + destruct second.
      * unfold elapsed_of. rewrite Hb.
        apply elapsed_count_mono; [exact Hsb|lia|lia].
      * apply f32_leb_refl. now apply elapsed_of_sound.
Qed.

(** A read at count 65000, then 1000 ticks over the wrap, then a read. *)
Lemma reads_never_decrease_witness :
  let isr := Resistance.TIMER1_OVF_vect in
  let s := resistance_at 65000 in
  let r1 := elapsed_of (ticks isr 100 s) in
  let r2 := elapsed_of (ticks isr 1100 s) in
  tracker_ok s /\
  TCNT1 s + Z.of_nat 100 < 65536 /\
  TCNT1 (ticks isr (100 + 1000) s) + Z.of_nat 50 < 65536 /\
  getMilliseconds_irq isr OverflowFirst 100 s = Ret r1 (ticks isr 100 s) /\
  getMilliseconds_irq isr CountFirst 50 (ticks isr 1000 (ticks isr 100 s)) =
    Ret r2 (ticks isr 1150 s) /\
  (r1 <=? r2)%f32 = true.
Proof.
  intros isr s r1 r2.
  assert (Hok : tracker_ok s)
    by (split; [vm_compute; intuition discriminate|vm_compute; reflexivity]).
  assert (H1 : TCNT1 s + Z.of_nat 100 < 65536) by (vm_compute; reflexivity).
  assert (H2 : TCNT1 (ticks isr (100 + 1000) s) + Z.of_nat 50 < 65536)
    by (vm_compute; reflexivity).
  assert (E1 : getMilliseconds_irq isr OverflowFirst 100 s =
               Ret r1 (ticks isr 100 s)) by (vm_compute; reflexivity).
  assert (E2 : getMilliseconds_irq isr CountFirst 50
                 (ticks isr 1000 (ticks isr 100 s)) =
               Ret r2 (ticks isr 1150 s)) by (vm_compute; reflexivity).
  split; [exact Hok|]. split; [exact H1|]. split; [exact H2|].
  split; [exact E1|]. split; [exact E2|].
  exact (reads_never_decrease OverflowFirst CountFirst 100 1000 50 s r1 r2
           _ _ Hok H1 H2 E1 E2).
Defined.

(** * Further properties *)

(** ** The pin macros *)

(** [!(1 << pin)] is 0 for every pin, so the AND leaves nothing. *)
Lemma PIN_LOW_eq (p : port) (pin : Z) (s : machine) :
  0 <= pin -> PIN_LOW p pin s = Ret tt (set_PORT p 0 s).
Proof.
  intros Hpin.
  assert (Hpos : 0 < Z.shiftl 1 pin)
    by (rewrite Z.shiftl_1_l; apply Z.pow_pos_nonneg; lia).
  unfold PIN_LOW, modify, lnot.
  destruct (Z.eqb_spec (Z.shiftl 1 pin) 0) as [E|_]; [lia|].
  rewrite Z.land_0_r. reflexivity.
Qed.

Lemma u8_bits (x k : Z) : 0 <= k < 8 -> Z.testbit (u8 x) k = Z.testbit x k.
Proof.
  intros Hk. unfold u8. change 256 with (2 ^ 8).
  apply Z.mod_pow2_bits_low. lia.
Qed.

(** X1.  [PIN_LOW] drives every pin of the port low, not only the one it
    names, and leaves the other port alone. *)
Theorem PIN_LOW_clears_port (p : port) (pin : Z) (s : machine) :
  0 <= pin ->
  exists s',
    PIN_LOW p pin s = Ret tt s' /\
    PORT p s' = 0 /\
    (forall q, q <> p -> PORT q s' = PORT q s).
Proof.
  intros Hpin. rewrite PIN_LOW_eq by assumption.
  eexists. split; [reflexivity|]. split.
  - destruct p; reflexivity.
  - intros q Hq. destruct p, q; try congruence; reflexivity.
Qed.

(** The charge pin of [Resistance.ino], with all of port B high. *)
Lemma PIN_LOW_clears_port_witness :
  let s := set_PORTB 255 (power_on [] []) in
  0 <= Resistance.pin_charge /\
  exists s',
    PIN_LOW B Resistance.pin_charge s = Ret tt s' /\
    PORT B s' = 0 /\
    (forall q, q <> B -> PORT q s' = PORT q s).
Proof.
  intros s.
  assert (H : 0 <= Resistance.pin_charge) by (unfold Resistance.pin_charge; lia).
  split; [exact H|].
  exact (PIN_LOW_clears_port B Resistance.pin_charge s H).
Defined.

(** X2.  [PIN_HIGH] sets the pin's bit and keeps the other seven, and leaves
    the other port alone. *)
Theorem PIN_HIGH_sets_one_bit (p : port) (pin : Z) (s : machine) :
  0 <= pin < 8 ->
  exists s',
    PIN_HIGH p pin s = Ret tt s' /\
    (forall k, 0 <= k < 8 ->
       Z.testbit (PORT p s') k = (k =? pin) || Z.testbit (PORT p s) k) /\
    (forall q, q <> p -> PORT q s' = PORT q s).
Proof.
  intros Hpin. eexists. split; [reflexivity|]. split.
  - intros k Hk. destruct p; cbn [PORT set_PORT PORTB PORTD set_PORTB set_PORTD];
      rewrite u8_bits, Z.lor_spec, Z.shiftl_1_l, Z.pow2_bits_eqb by lia;
      rewrite orb_comm, Z.eqb_sym; reflexivity.
  - intros q Hq. destruct p, q; try congruence; reflexivity.
Qed.

(** The trouble-shooting pin, as [initPins] raises it. *)
Lemma PIN_HIGH_sets_one_bit_witness :
  0 <= Resistance.pin_ts < 8 /\
  exists s',
    PIN_HIGH B Resistance.pin_ts (power_on [] []) = Ret tt s' /\
    PORTB s' = 32.
Proof.
  assert (H : 0 <= Resistance.pin_ts < 8) by (unfold Resistance.pin_ts; lia).
  split; [exact H|].
  destruct (PIN_HIGH_sets_one_bit B Resistance.pin_ts (power_on [] []) H)
    as (s' & E & _).
  exists s'. split; [exact E|].
  cbv in E. injection E as <-. reflexivity.
Defined.

(** ** The converter, call by call *)

Lemma land_u8_low (x : Z) : Z.land (u8 x) 15 = Z.land x 15.
Proof.
  unfold u8. change 256 with (2 ^ 8). rewrite <- Z.land_ones by lia.
  rewrite <- Z.land_assoc. reflexivity.
Qed.

Lemma select_clear (admux pin : Z) :
  Z.land admux 15 = 0 -> 0 <= pin < 16 ->
  Z.land (u8 (Z.lor admux (u8 pin))) 15 = pin.
Proof.
  intros Hmux Hpin.
  rewrite land_u8_low, Z.land_lor_distr_l, Hmux, Z.lor_0_l, land_u8_low.
  change 15 with (Z.ones 4). rewrite Z.land_ones by lia.
  apply Z.mod_small. change (2 ^ 4) with 16. lia.
Qed.

Lemma sampled_clear (admux pin : Z) (c : conversion) :
  Z.land admux 15 = 0 -> 0 <= pin < 16 ->
  sampled admux pin c = Z.land (conv_input c pin) 1023.
Proof. intros Hmux Hpin. unfold sampled. now rewrite select_clear. Qed.

Lemma fetched_flags (isr : machine -> machine) (pin : Z) (c : conversion)
    (feed : list conversion) (s : machine) :
  writes_overflow_only isr ->
  Z.testbit (ADCSRA (fetched isr pin c feed s)) ADIF = false /\
  Z.testbit (ADCSRA (fetched isr pin c feed s)) ADSC = false.
Proof.
  intros Hisr. unfold fetched, write_ADCSRA, ADCSRA_stored.
  cbn [ADCSRA set_ADCSRA].
  set (a := ADCSRA (complete_conversion isr c (set_adc_feed feed (started pin s)))).
  assert (Ha : Z.testbit a ADIF = true /\ Z.testbit a ADSC = false).
  { subst a. unfold complete_conversion. cbn [ADCSRA set_ADCSRA set_ADC].
    unfold ADIF, ADSC. rewrite Z.setbit_eq, Z.setbit_neq by lia.
    rewrite Z.clearbit_eq by lia. split; reflexivity. }
  destruct Ha as [Hif Hsc].
  rewrite Z.lor_spec, Hif. cbn [orb]. unfold ADIF, ADSC in *.
  rewrite Z.clearbit_eq, Z.clearbit_neq by lia.
  rewrite Z.lor_spec, Hsc. split; reflexivity.
Qed.

Lemma ADCSRA_stored_bit (v old k : Z) :
  0 <= k -> k <> ADIF ->
  Z.testbit (ADCSRA_stored v old) k = Z.testbit v k.
Proof.
  intros Hk Hne. unfold ADCSRA_stored, ADIF in *.
  destruct (Z.testbit v 4).
  - apply Z.clearbit_neq. lia.
  - rewrite Z.lor_spec, Z.land_spec, Z.shiftl_1_l, Z.pow2_bits_eqb by lia.
    replace (4 =? k) with false by (symmetry; apply Z.eqb_neq; lia).
    now rewrite andb_false_r, orb_false_r.
Qed.

Lemma start_bit (a k : Z) :
  0 <= k -> k <> ADSC ->
  Z.testbit (Z.lor a (Z.shiftl 1 ADSC)) k = Z.testbit a k.
Proof.
  intros Hk Hne. unfold ADSC in *.
  rewrite Z.lor_spec, Z.shiftl_1_l, Z.pow2_bits_eqb by lia.
  replace (6 =? k) with false by (symmetry; apply Z.eqb_neq; lia).
  apply orb_false_r.
Qed.

Lemma clear_flag_bit (a k : Z) :
  0 <= k -> k <> ADIF ->
  Z.testbit (Z.lor a (Z.shiftl 1 ADIF)) k = Z.testbit a k.
Proof.
  intros Hk Hne. unfold ADIF in *.
  rewrite Z.lor_spec, Z.shiftl_1_l, Z.pow2_bits_eqb by lia.
  replace (4 =? k) with false by (symmetry; apply Z.eqb_neq; lia).
  apply orb_false_r.
Qed.

(** A conversion leaves the configuration bits of [ADCSRA] as they were. *)
Lemma fetched_ADCSRA_bit (isr : machine -> machine) (pin : Z) (c : conversion)
    (feed : list conversion) (s : machine) (k : Z) :
  writes_overflow_only isr ->
  0 <= k -> k <> ADIF -> k <> ADSC ->
  Z.testbit (ADCSRA (fetched isr pin c feed s)) k = Z.testbit (ADCSRA s) k.
Proof.
  intros Hisr Hk Hif Hsc. unfold fetched, complete_conversion, write_ADCSRA.
  cbn [ADCSRA set_ADCSRA set_ADC].
  rewrite ADCSRA_stored_bit, clear_flag_bit by assumption.
  unfold ADIF, ADSC in *. rewrite Z.setbit_neq, Z.clearbit_neq by lia.
  rewrite (ticks_frame isr Hisr). unfold started, write_ADCSRA.
  cbn [ADCSRA set_ADCSRA set_ADMUX set_calls set_adc_feed set_TCNT1
       set_timer1_overflow].
  rewrite ADCSRA_stored_bit by (unfold ADIF; lia).
  apply start_bit; unfold ADSC; lia.
Qed.

Lemma low_pin_bit (pin : Z) : 0 <= pin < 16 -> Z.testbit pin ADLAR = false.
Proof.
  intros Hpin. unfold ADLAR.
  destruct (Z.eq_dec pin 0) as [->|Hne]; [reflexivity|].
  apply Z.bits_above_log2; [lia|].
  apply Z.log2_lt_pow2; [lia|]. change (2 ^ 5) with 32. lia.
Qed.

Lemma initADC_ready (s : machine) : converter_ready (final (initADC s)).
Proof.
  unfold converter_ready.
  cbv [initADC bind modify final write_ADCSRA].
  cbn [ADCSRA ADMUX set_ADCSRA set_ADMUX].
  split; [|split; [|split; [|reflexivity]]];
    (rewrite ADCSRA_stored_bit; [reflexivity| |]; cbv; discriminate).
Qed.

Lemma fetched_ready (isr : machine -> machine) (pin : Z) (c : conversion)
    (feed : list conversion) (s : machine) :
  writes_overflow_only isr -> 0 <= pin < 16 ->
  converter_ready s -> converter_ready (fetched isr pin c feed s).
Proof.
  intros Hisr Hpin (H7 & H5 & H3 & Hl). unfold converter_ready.
  rewrite !fetched_ADCSRA_bit by (try assumption; cbv; discriminate).
  split; [exact H7|]. split; [exact H5|]. split; [exact H3|].
  destruct (fetched_polled isr Hisr pin c feed s) as (-> & _).
  rewrite u8_bits, Z.lor_spec, Hl, u8_bits by (unfold ADLAR; lia).
  now apply low_pin_bit.
Qed.

(** X3.  [initADC] leaves the converter enabled, in single-conversion mode,
    without its interrupt and with the result right-adjusted.  With the
    converter so set up, [readADC] of a pin from 0 to 15 makes exactly one
    conversion, also when the flag of an earlier conversion is still raised:
    it never returns when none completes, and otherwise it returns a 10-bit
    value with that one conversion consumed, [ADIF] and [ADSC] both low
    again and the converter set up as before. *)
Theorem readADC_one_conversion (isr : machine -> machine) (pin : Z) :
  writes_overflow_only isr ->
  0 <= pin < 16 ->
  (forall s0, converter_ready (final (initADC s0))) /\
  (forall s,
     converter_ready s ->
     (adc_feed s = [] -> exists s', readADC isr pin s = Hang s') /\
     (forall c feed, adc_feed s = c :: feed ->
        exists v s',
          readADC isr pin s = Ret v s' /\
          0 <= v <= 1023 /\
          adc_feed s' = feed /\
          Z.testbit (ADCSRA s') ADIF = false /\
          Z.testbit (ADCSRA s') ADSC = false /\
          converter_ready s')).
Proof.
  intros Hisr Hpin. split; [exact initADC_ready|].
  intros s Hready. split.
  - intros Hfeed. rewrite readADC_eq, Hfeed by assumption. eexists. reflexivity.
  - intros c feed Hfeed. rewrite readADC_eq, Hfeed by assumption.
    eexists _, _. split; [reflexivity|].
    rewrite fetched_ADC, fetched_feed by assumption.
    split; [apply ten_bits|]. split; [reflexivity|].
    destruct (fetched_flags isr pin c feed s Hisr) as [Hif Hsc].
    split; [exact Hif|]. split; [exact Hsc|].
    now apply fetched_ready.
Qed.

(** A conversion requested after [initADC], with the flag of an earlier one
    still raised. *)
Lemma readADC_one_conversion_witness :
  let s := final (initADC
                    (set_ADCSRA 16 (power_on [reading 7 2000; reading 1 5] [])))
  in
  writes_overflow_only Resistance.TIMER1_OVF_vect /\
  0 <= 0 < 16 /\
  converter_ready s /\
  Z.testbit (ADCSRA s) ADIF = true /\
  exists v s',
    readADC Resistance.TIMER1_OVF_vect 0 s = Ret v s' /\
    0 <= v <= 1023 /\
    adc_feed s' = [reading 1 5] /\
    Z.testbit (ADCSRA s') ADIF = false /\
    Z.testbit (ADCSRA s') ADSC = false /\
    converter_ready s'.
Proof.
  intros s.
  assert (Hpin : 0 <= 0 < 16) by lia.
  pose proof (readADC_one_conversion Resistance.TIMER1_OVF_vect 0
                Resistance_isr_frame Hpin) as [Hinit Hread].
  assert (Hready : converter_ready s) by apply Hinit.
  split; [exact Resistance_isr_frame|]. split; [exact Hpin|].
  split; [exact Hready|]. split; [reflexivity|].
  exact (proj2 (Hread s Hready) (reading 7 2000) [reading 1 5] eq_refl).
Defined.

(** X4.  The first [readADC] after [initADC] converts the channel it names,
    for each of the sixteen channel numbers. *)
Theorem first_readADC_converts_its_pin (isr : machine -> machine) (pin : Z)
    (s : machine) (c : conversion) (feed : list conversion) :
  writes_overflow_only isr ->
  0 <= pin < 16 ->
  adc_feed s = c :: feed ->
  exists s',
    (initADC ;; readADC isr pin) s = Ret (Z.land (conv_input c pin) 1023) s' /\
    channel s' = pin /\
    adc_feed s' = feed.
Proof.
  intros Hisr Hpin Hfeed.
  set (s0 := final (initADC s)).
  assert (E : (initADC ;; readADC isr pin) s = readADC isr pin s0)
    by reflexivity.
  assert (Hmux : Z.land (ADMUX s0) 15 = 0) by reflexivity.
  assert (Hfeed0 : adc_feed s0 = c :: feed) by exact Hfeed.
  rewrite E, readADC_eq, Hfeed0 by assumption.
  exists (fetched isr pin c feed s0).
  rewrite fetched_ADC, fetched_feed by assumption.
  rewrite sampled_clear by assumption.
  split; [reflexivity|]. split; [|reflexivity].
  unfold channel.
  destruct (fetched_polled isr Hisr pin c feed s0) as (-> & _).
  now apply select_clear.
Qed.

Lemma first_readADC_converts_its_pin_witness :
  writes_overflow_only Resistance.TIMER1_OVF_vect /\
  0 <= Resistance.pin_current < 16 /\
  exists s',
    (initADC ;; readADC Resistance.TIMER1_OVF_vect Resistance.pin_current)
      (power_on [staircase] []) = Ret 300 s' /\
    channel s' = Resistance.pin_current /\
    adc_feed s' = [].
Proof.
  assert (Hpin : 0 <= Resistance.pin_current < 16)
    by (unfold Resistance.pin_current; lia).
  split; [exact Resistance_isr_frame|]. split; [exact Hpin|].
  exact (first_readADC_converts_its_pin Resistance.TIMER1_OVF_vect
           Resistance.pin_current (power_on [staircase] []) staircase []
           Resistance_isr_frame Hpin eq_refl).
Defined.

(** X5.  A [readADC] of the pin that the call before it named converts the
    channel that call converted: polling one pin stays on one channel,
    whatever was selected before the first call. *)
Theorem readADC_again_same_channel (isr : machine -> machine) (pin : Z)
    (s : machine) (c1 c2 : conversion) (feed : list conversion) :
  writes_overflow_only isr ->
  adc_feed s = c1 :: c2 :: feed ->
  exists v1 s1 s2,
    readADC isr pin s = Ret v1 s1 /\
    readADC isr pin s1 = Ret (Z.land (conv_input c2 (channel s1)) 1023) s2 /\
    channel s2 = channel s1.
Proof.
  intros Hisr Hfeed.
  rewrite readADC_eq, Hfeed by assumption.
  set (s1 := fetched isr pin c1 (c2 :: feed) s).
  exists (ADC s1), s1. 
  assert (Hf1 : adc_feed s1 = c2 :: feed) by (apply fetched_feed; assumption).
  rewrite readADC_eq, Hf1 by assumption.
  exists (fetched isr pin c2 feed s1).
  split; [reflexivity|].
  pose proof (fetched_polled isr Hisr pin c1 (c2 :: feed) s) as P1.
  fold s1 in P1. destruct P1 as (A1 & _).
  pose proof (fetched_polled isr Hisr pin c2 feed s1) as (A2 & _).
  assert (Hsel : u8 (Z.lor (ADMUX s1) (u8 pin)) = ADMUX s1)
    by (rewrite A1; apply select_idem).
  split.
  - rewrite fetched_ADC by assumption. unfold sampled, channel.
    now rewrite Hsel.
  - unfold channel. now rewrite A2, Hsel.
Qed.

Lemma readADC_again_same_channel_witness :
  let s := final (readADC Resistance.TIMER1_OVF_vect 1
                    (booted [staircase; staircase; staircase] [])) in
  writes_overflow_only Resistance.TIMER1_OVF_vect /\
  exists v1 s1 s2,
    readADC Resistance.TIMER1_OVF_vect 2 s = Ret v1 s1 /\
    readADC Resistance.TIMER1_OVF_vect 2 s1 =
      Ret (Z.land (conv_input staircase (channel s1)) 1023) s2 /\
    channel s2 = channel s1.
Proof.
  intros s. split; [exact Resistance_isr_frame|].
  exact (readADC_again_same_channel Resistance.TIMER1_OVF_vect 2 s
           staircase staircase [] Resistance_isr_frame eq_refl).
Defined.

(** ** The timer, tick by tick *)

Lemma f32_add_zero_l (x : spec_float) :
  sound x = true -> SFadd 24 128 (S754_zero false) x = x.
Proof. destruct x as [[]|[]| |[] m e]; try discriminate; reflexivity. Qed.

Lemma ticks_succ (isr : machine -> machine) (n : nat) (s : machine) :
  ticks isr (S n) s = tick isr (ticks isr n s).
Proof.
  replace (S n) with (n + 1)%nat by lia. now rewrite ticks_app.
Qed.

Lemma lap_step (n : nat) :
  (rest_of n <> 65535 ->
   rest_of (S n) = rest_of n + 1 /\ laps_of (S n) = laps_of n) /\
  (rest_of n = 65535 ->
   rest_of (S n) = 0 /\ laps_of (S n) = S (laps_of n)).
Proof.
  unfold rest_of, laps_of. rewrite Nat2Z.inj_succ.
  set (z := Z.of_nat n). assert (Hz : 0 <= z) by (subst z; lia).
  pose proof (Z.div_mod z 65536 ltac:(lia)) as Hdm.
  pose proof (Z.mod_pos_bound z 65536 ltac:(lia)) as Hb.
  pose proof (Z.div_pos z 65536 Hz ltac:(lia)) as Hq.
  split; intros H.
  - assert (E : Z.succ z = (z mod 65536 + 1) + z / 65536 * 65536) by lia.
    rewrite E. rewrite Z.mod_add, Z.div_add by lia.
    rewrite Z.mod_small, Z.div_small by lia.
    split; [reflexivity|]. now rewrite Z.add_0_l.
  - assert (E : Z.succ z = 0 + (z / 65536 + 1) * 65536) by lia.
    rewrite E. rewrite Z.mod_add, Z.div_add by lia.
    change (0 mod 65536) with 0. change (0 / 65536) with 0.
    split; [reflexivity|]. rewrite Z.add_0_l. rewrite Z2Nat.inj_add by lia.
    change (Z.to_nat 1) with 1%nat. lia.
Qed.

Lemma laps_sound (k : nat) : sound (laps k) = true.
Proof.
  induction k as [|k IH]; [reflexivity|].
  cbn [laps Nat.iter]. apply f32_add_sound; [exact IH|reflexivity].
Qed.

(** The timer of [Resistance.ino] [n] ticks after a start with the overflow
    interrupt enabled. *)
Lemma Resistance_ticks_fresh (n : nat) (s : machine) :
  fresh s -> overflow_irq_enabled s = true ->
  running (ticks Resistance.TIMER1_OVF_vect n s) /\
  TCNT1 (ticks Resistance.TIMER1_OVF_vect n s) = rest_of n /\
  timer1_overflow (ticks Resistance.TIMER1_OVF_vect n s) = laps (laps_of n).
Proof.
  intros (Hc & Hz & Ha) Hi.
  induction n as [|n (Hrun & Hcount & Hacc)].
  - cbn [ticks]. split; [|split].
    + split; [exact Hc|]. split; [exact Hi|]. rewrite Hz. lia.
    + exact Hz.
    + exact Ha.
  - rewrite ticks_succ.
    set (t := ticks Resistance.TIMER1_OVF_vect n s) in *.
    destruct (lap_step n) as [Hstep Hwrap].
    destruct (Z.eq_dec (rest_of n) 65535) as [E|N].
    + destruct (Hwrap E) as [-> ->].
      rewrite tick_wrap by (try assumption; congruence).
      destruct Hrun as (H1 & H2 & H3).
      split; [|split].
      * split; [exact H1|]. split; [exact H2|].
        change (TCNT1 (Resistance.TIMER1_OVF_vect (set_TCNT1 0 t))) with 0.
        lia.
      * reflexivity.
      * change (timer1_overflow (Resistance.TIMER1_OVF_vect (set_TCNT1 0 t)))
          with (timer1_overflow t + FULL_RANGE)%f32.
        rewrite Hacc. reflexivity.
    + destruct (Hstep N) as [-> ->].
      rewrite tick_no_wrap by (try assumption; congruence).
      destruct Hrun as (H1 & H2 & H3).
      cbn [TCNT1 set_TCNT1 timer1_overflow].
      split; [|split].
      * split; [exact H1|]. split; [exact H2|].
        cbn [TCNT1 set_TCNT1]. rewrite Hcount in *.
        pose proof (Z.mod_pos_bound (Z.of_nat n) 65536 ltac:(lia)).
        unfold rest_of in *. lia.
      * now rewrite Hcount.
      * exact Hacc.
Qed.

Lemma Resistance_startTimer1_fresh (s : machine) :
  fresh (final (Resistance.startTimer1 s)) /\
  overflow_irq_enabled (final (Resistance.startTimer1 s)) = true.
Proof.
  destruct (startTimer1_tracker_ok s) as ((H1 & H2 & _) & _).
  split; [|exact H2]. split; [exact H1|]. split; reflexivity.
Qed.

(** X6.  [n] ticks after [startTimer1] of [Resistance.ino], whatever the
    timer held before, the counter holds [n mod 65536] and the accumulator
    one 65535/250 for every wrap, so [getMilliseconds] reads their sum; within
    the first lap that is [n / 250] rounded once. *)
Theorem Resistance_timer_after_ticks (s : machine) (n : nat) :
  let t := ticks Resistance.TIMER1_OVF_vect n
             (final (Resistance.startTimer1 s)) in
  TCNT1 t = rest_of n /\
  timer1_overflow t = laps (laps_of n) /\
  getMilliseconds t = Ret (laps (laps_of n) + quotient (rest_of n))%f32 t /\
  (Z.of_nat n < 65536 -> getMilliseconds t = Ret (quotient (Z.of_nat n)) t).
Proof.
  intros t.
  destruct (Resistance_startTimer1_fresh s) as [Hf Hi].
  destruct (Resistance_ticks_fresh n _ Hf Hi) as (_ & Hc & Ha). fold t in Hc, Ha.
  assert (E : getMilliseconds t =
              Ret (laps (laps_of n) + quotient (rest_of n))%f32 t).
  { unfold getMilliseconds, gets, elapsed. now rewrite Hc, Ha. }
  split; [exact Hc|]. split; [exact Ha|]. split; [exact E|].
  intros Hn. rewrite E. unfold laps_of, rest_of.
  rewrite Z.div_small, Z.mod_small by lia.
  change (laps (Z.to_nat 0)) with (S754_zero false).
  unfold Float32.add. rewrite f32_add_zero_l; [reflexivity|].
  apply quotient_sound. lia.
Qed.

(** A second go of 1000 ticks reads 4.0 ms, whatever the first left. *)
Lemma Resistance_timer_after_ticks_witness :
  let t := ticks Resistance.TIMER1_OVF_vect 1000
             (final (Resistance.startTimer1 (resistance_at 70000))) in
  Z.of_nat 1000 < 65536 /\
  getMilliseconds t = Ret (quotient (Z.of_nat 1000)) t.
Proof.
  intros t.
  assert (H : Z.of_nat 1000 < 65536) by (vm_compute; reflexivity).
  split; [exact H|].
  exact (proj2 (proj2 (proj2
           (Resistance_timer_after_ticks (resistance_at 70000) 1000))) H).
Defined.

(** X7.  The tick that wraps the counter does not advance the reading in
    [Resistance.ino]: the handler credits 65535 ticks for a lap of 65536. *)
Theorem wrap_does_not_advance (s : machine) :
  tracker_ok s ->
  TCNT1 s = 65535 ->
  elapsed_of (tick Resistance.TIMER1_OVF_vect s) = elapsed_of s.
Proof.
  intros (Hrun & Hs) E. rewrite tick_wrap by assumption.
  unfold elapsed_of. rewrite E.
  change (elapsed (timer1_overflow
                     (Resistance.TIMER1_OVF_vect (set_TCNT1 0 s)))
                  (TCNT1 (Resistance.TIMER1_OVF_vect (set_TCNT1 0 s))))
    with (elapsed (timer1_overflow s) 65535 + quotient 0)%f32.
  change (quotient 0) with Float32.zero.
  unfold Float32.add at 1, Float32.zero.
  apply f32_add_zero_r. apply elapsed_sound; [exact Hs|lia].
Qed.

Lemma wrap_does_not_advance_witness :
  tracker_ok (resistance_at 65535) /\
  TCNT1 (resistance_at 65535) = 65535 /\
  elapsed_of (tick Resistance.TIMER1_OVF_vect (resistance_at 65535)) =
  elapsed_of (resistance_at 65535).
Proof.
  assert (Hok : tracker_ok (resistance_at 65535))
    by (split; [vm_compute; intuition discriminate|vm_compute; reflexivity]).
  assert (Hc : TCNT1 (resistance_at 65535) = 65535) by (vm_compute; reflexivity).
  split; [exact Hok|]. split; [exact Hc|].
  exact (wrap_does_not_advance _ Hok Hc).
Defined.

(** The timer of the calibration sketch [n] ticks after a start. *)
Lemma Calibration_ticks_fresh (n : nat) (s : machine) :
  fresh s ->
  clocked (ticks Calibration.TIMER1_OVF_vect n s) = true /\
  TCNT1 (ticks Calibration.TIMER1_OVF_vect n s) = rest_of n /\
  timer1_overflow (ticks Calibration.TIMER1_OVF_vect n s) = Float32.zero.
Proof.
  intros (Hc & Hz & Ha).
  induction n as [|n (Hclk & Hcount & Hacc)].
  - cbn [ticks]. auto.
  - rewrite ticks_succ.
    set (t := ticks Calibration.TIMER1_OVF_vect n s) in *.
    destruct (lap_step n) as [Hstep Hwrap].
    pose proof (Z.mod_pos_bound (Z.of_nat n) 65536 ltac:(lia)) as Hb.
    fold (rest_of n) in Hb.
    unfold tick. rewrite Hclk. cbn [TCNT1 set_TCNT1]. rewrite Hcount.
    destruct (Z.eq_dec (rest_of n) 65535) as [E|N].
    + destruct (Hwrap E) as [-> _]. rewrite E.
      change (u16 (65535 + 1)) with 0. cbn [Z.eqb andb].
      destruct (overflow_irq_enabled (set_TCNT1 0 t)).
      * split; [exact Hclk|]. split; [reflexivity|].
        unfold Calibration.TIMER1_OVF_vect.
        cbn [timer1_overflow set_timer1_overflow TCNT1 set_TCNT1].
        rewrite Hacc. reflexivity.
      * split; [exact Hclk|]. split; [reflexivity|exact Hacc].
    + destruct (Hstep N) as [-> _].
      unfold u16. rewrite Z.mod_small by lia.
      replace (rest_of n + 1 =? 0) with false
        by (symmetry; apply Z.eqb_neq; lia).
      cbn [andb]. split; [exact Hclk|]. split; [reflexivity|exact Hacc].
Qed.

(** X8.  In the calibration sketch the accumulator never leaves zero: [n]
    ticks after [startTimer1], with the overflow interrupt enabled or not,
    [getMilliseconds] reads [(n mod 65536) / 250] -- the time modulo a lap. *)
Theorem Calibration_timer_after_ticks (s : machine) (n : nat) :
  let t := ticks Calibration.TIMER1_OVF_vect n
             (final (Calibration.startTimer1 s)) in
  TCNT1 t = rest_of n /\
  timer1_overflow t = Float32.zero /\
  getMilliseconds t = Ret (quotient (rest_of n)) t.
Proof.
  intros t.
  assert (Hf : fresh (final (Calibration.startTimer1 s)))
    by (split; [reflexivity|split; reflexivity]).
  destruct (Calibration_ticks_fresh n _ Hf) as (_ & Hc & Ha). fold t in Hc, Ha.
  split; [exact Hc|]. split; [exact Ha|].
  unfold getMilliseconds, gets, elapsed. rewrite Hc, Ha.
  unfold Float32.add, Float32.zero. rewrite f32_add_zero_l; [reflexivity|].
  apply quotient_sound.
  pose proof (Z.mod_pos_bound (Z.of_nat n) 65536 ltac:(lia)).
  unfold rest_of. lia.
Qed.

(** X9.  After [stopTimer1] the timer stands still at zero: no number of
    ticks of the system clock changes the machine, and [getMilliseconds]
    reads [+0.0]. *)
Theorem stopped_timer_stands_still (isr : machine -> machine) (n : nat)
    (s : machine) :
  let s0 := final (stopTimer1 s) in
  ticks isr n s0 = s0 /\ getMilliseconds s0 = Ret Float32.zero s0.
Proof.
  intros s0. split.
  - induction n as [|n IH]; [reflexivity|].
    cbn [ticks]. exact IH.
  - reflexivity.
Qed.

(** X10.  Whatever the timer held when [startTimer1] of [Resistance.ino] was
    called and however long it has counted since, [getMilliseconds] reads
    [+0.0], a positive number or [+inf]: never a NaN and never a negative
    number. *)
Theorem Resistance_reading_is_sound (s : machine) (n : nat) :
  let t := ticks Resistance.TIMER1_OVF_vect n
             (final (Resistance.startTimer1 s)) in
  exists r, getMilliseconds t = Ret r t /\ sound r = true.
Proof.
  intros t. exists (elapsed_of t). split; [reflexivity|].
  apply elapsed_of_sound. apply tracker_ok_ticks. apply startTimer1_tracker_ok.
Qed.

(** ** What the measurements time *)

Lemma same_timer_refl (s : machine) : same_timer s s.
Proof. repeat split. Qed.

Lemma same_timer_trans (s t u : machine) :
  same_timer s t -> same_timer t u -> same_timer s u.
Proof.
  intros (A1 & B1 & C1 & D1) (A2 & B2 & C2 & D2). repeat split; congruence.
Qed.

Lemma Resistance_isr_timer : reads_timer_only Resistance.TIMER1_OVF_vect.
Proof.
  intros s t _ Ha. unfold Resistance.TIMER1_OVF_vect.
  cbn [timer1_overflow set_timer1_overflow]. now rewrite Ha.
Qed.

Lemma Calibration_isr_timer : reads_timer_only Calibration.TIMER1_OVF_vect.
Proof.
  intros s t Hc Ha. unfold Calibration.TIMER1_OVF_vect.
  cbn [timer1_overflow set_timer1_overflow]. now rewrite Ha, Hc.
Qed.

Section Timed.

Variable isr : machine -> machine.
Hypothesis isr_frame : writes_overflow_only isr.
Hypothesis isr_timer : reads_timer_only isr.

Lemma tick_same_timer (s t : machine) :
  same_timer s t -> same_timer (tick isr s) (tick isr t).
Proof.
  intros (Hb & Hi & Hc & Ha).
  unfold tick, clocked, overflow_irq_enabled. rewrite Hb.
  destruct (negb (Z.land (TCCR1B t) 7 =? 0)); [|repeat split; assumption].
  cbn [TCNT1 set_TCNT1 TIMSK1]. rewrite Hc, Hi.
  destruct ((u16 (TCNT1 t + 1) =? 0) && Z.testbit (TIMSK1 t) 0).
  - rewrite (isr_frame (set_TCNT1 _ s)), (isr_frame (set_TCNT1 _ t)).
    cbn [TCCR1B TIMSK1 TCNT1 timer1_overflow set_timer1_overflow set_TCNT1].
    repeat split; try assumption.
    apply isr_timer; [reflexivity|exact Ha].
  - repeat split; assumption.
Qed.

Lemma ticks_same_timer (n : nat) :
  forall s t, same_timer s t -> same_timer (ticks isr n s) (ticks isr n t).
Proof.
  induction n as [|n IH]; intros s t H; [exact H|].
  cbn [ticks]. apply IH. now apply tick_same_timer.
Qed.

(** One [readADC] moves the timer as the ticks of its conversion do. *)
Lemma fetched_same_timer (pin : Z) (c : conversion) (feed : list conversion)
    (s : machine) :
  same_timer (fetched isr pin c feed s) (ticks isr (conv_ticks c) s).
Proof.
  apply same_timer_trans
    with (ticks isr (conv_ticks c) (set_adc_feed feed (started pin s))).
  - unfold fetched, complete_conversion. repeat split.
  - apply ticks_same_timer. repeat split.
Qed.

Lemma poll_same_timer (pin : Z) (again : Z -> bool) (pre : list conversion) :
  forall (c : conversion) (post : list conversion) (fuel : nat)
         (s s' : machine),
    adc_feed s = pre ++ c :: post ->
    Forall (goes_on pin again s) pre ->
    again (sampled (ADMUX s) pin c) = false ->
    poll isr fuel pin again s = Ret tt s' ->
    same_timer s' (ticks isr (ticks_of (pre ++ [c])) s).
Proof.
  induction pre as [|a pre IH]; intros c post fuel s s' Hfeed Hpre Hc Hrun;
    (destruct fuel as [|fuel]; [discriminate|]);
    simpl poll in Hrun; unfold bind in Hrun;
    rewrite readADC_eq, Hfeed in Hrun by assumption;
    cbn [app] in Hrun; cbv beta iota in Hrun;
    rewrite fetched_ADC in Hrun by assumption.
  - rewrite Hc in Hrun. injection Hrun as <-.
    cbn [app ticks_of fold_right]. rewrite Nat.add_0_r.
    apply fetched_same_timer.
  - inversion Hpre as [|? ? Ha Hpre']; subst.
    unfold goes_on in Ha. rewrite Ha in Hrun.
    pose proof (fetched_polled isr isr_frame pin a (pre ++ c :: post) s) as Hp.
    set (s1 := fetched isr pin a (pre ++ c :: post) s) in *.
    assert (H1 : same_timer s' (ticks isr (ticks_of (pre ++ [c])) s1)).
    { apply (IH c post fuel s1 s'); [| | |exact Hrun].
      - apply fetched_feed. exact isr_frame.
      - eapply Forall_impl; [|exact Hpre'].
        intros x Hx. now apply (goes_on_polled pin again 1 s _ x Hp).
      - now rewrite (sampled_polled pin 1 s _ c Hp). }
    eapply same_timer_trans; [exact H1|].
    change (ticks_of ((a :: pre) ++ [c]))
      with (conv_ticks a + ticks_of (pre ++ [c]))%nat.
    rewrite ticks_app. apply ticks_same_timer. apply fetched_same_timer.
Qed.

Variable pin : Z.
Variables discharging charging : Z -> bool.
Variables (before between : M unit).
Hypothesis before_quiet : quiet before.
Hypothesis between_quiet : quiet between.

(** Where the charge loop ends, the timer is where the ticks of the charge
    loop's conversions have taken it from where [between] left it. *)
Lemma until_crossing_timer (s : machine) (rest charge : list conversion) :
  charges_over pin discharging charging (ADMUX s) (adc_feed s) rest charge ->
  exists s1 s2 s3,
    between s1 = Ret tt s2 /\
    until_crossing isr pin discharging charging before between s = Ret tt s3 /\
    adc_feed s3 = rest /\
    same_timer s3 (ticks isr (ticks_of charge) s2).
Proof.
  intros (pre_d & d & pre_c & c & Hfeed & Hpd & Hd & Hpc & Hc & ->).
  unfold until_crossing, bind.
  destruct (before_quiet s) as ([] & s0 & -> & Hm0 & Hf0).
  rewrite <- Hm0 in Hpd, Hd, Hpc, Hc. rewrite <- Hf0 in Hfeed.
  destruct (while_readADC_returns isr isr_frame pin discharging s0
              pre_d d (pre_c ++ c :: rest) Hfeed Hpd Hd)
    as (s1 & -> & Hf1 & _ & Hp1).
  destruct (between_quiet s1) as ([] & s2 & E2 & Hm2 & Hf2). rewrite E2.
  assert (Hsame : forall x,
             sampled (ADMUX s2) pin x = sampled (ADMUX s0) pin x).
  { intros x. rewrite Hm2. eapply sampled_polled. exact Hp1. }
  assert (Hpc2 : Forall (goes_on pin charging s2) pre_c).
  { eapply Forall_impl; [|exact Hpc]. intros x Hx. unfold goes_on.
    now rewrite Hsame. }
  assert (Hc2 : charging (sampled (ADMUX s2) pin c) = false)
    by now rewrite Hsame.
  assert (Hfeed2 : adc_feed s2 = pre_c ++ c :: rest) by congruence.
  destruct (while_readADC_returns isr isr_frame pin charging s2
              pre_c c rest Hfeed2 Hpc2 Hc2) as (s3 & E3 & Hf3 & _ & _).
  rewrite E3. exists s1, s2, s3.
  split; [exact E2|]. split; [reflexivity|]. split; [exact Hf3|].
  unfold while_readADC in E3.
  exact (poll_same_timer pin charging pre_c c rest _ s2 s3 Hfeed2 Hpc2 Hc2 E3).
Qed.

End Timed.

Lemma transient_split (isr : machine -> machine) (pin : Z)
    (discharging charging : Z -> bool) (before between : M unit)
    {A} (after : M A) (s : machine) :
  transient isr pin discharging charging before between after s =
  bind (until_crossing isr pin discharging charging before between)
       (fun _ => after) s.
Proof.
  unfold transient, until_crossing, bind.
  destruct (before s) as [[] s0|]; [|reflexivity].
  destruct (while_readADC isr pin discharging s0) as [[] s1|]; [|reflexivity].
  destruct (between s1) as [[] s2|]; [|reflexivity].
  destruct (while_readADC isr pin charging s2) as [[] s3|]; reflexivity.
Qed.

Lemma charge_start_fresh (s1 s2 : machine) :
  charge_start s1 = Ret tt s2 ->
  fresh s2 /\ overflow_irq_enabled s2 = true.
Proof.
  intros E. injection E as <-.
  split; [split; [reflexivity|split; reflexivity]|].
  unfold overflow_irq_enabled. cbn [TIMSK1 set_PORT set_PORTB set_TCNT1
    set_TCCR1B set_timer1_overflow set_TIMSK1 set_TCCR1A].
  unfold u8. change 256 with (2 ^ 8).
  rewrite Z.mod_pow2_bits_low by lia.
  rewrite Z.lor_spec. apply orb_true_r.
Qed.

Lemma calibration_start_fresh (s1 s2 : machine) :
  calibration_start s1 = Ret tt s2 -> fresh s2.
Proof.
  intros E. injection E as <-. split; [reflexivity|split; reflexivity].
Qed.

(** No code writes the layout of the reads. *)
Lemma poll_loads (isr : machine -> machine) (pin : Z) (again : Z -> bool)
    (fuel : nat) :
  writes_overflow_only isr ->
  forall s, loads (final (poll isr fuel pin again s)) = loads s.
Proof.
  intros Hisr. induction fuel as [|fuel IH]; intros s; [reflexivity|].
  cbn [poll]. unfold bind. rewrite readADC_eq by assumption.
  destruct (adc_feed s) as [|c feed]; [reflexivity|].
  assert (Hf : loads (fetched isr pin c feed s) = loads s).
  { unfold fetched, complete_conversion. rewrite (ticks_frame isr Hisr).
    reflexivity. }
  destruct (again (ADC (fetched isr pin c feed s))).
  - now rewrite IH.
  - exact Hf.
Qed.

Lemma until_crossing_loads (isr : machine -> machine) (pin : Z)
    (discharging charging : Z -> bool) (before between : M unit)
    (s s3 : machine) :
  writes_overflow_only isr ->
  (forall s0, loads (final (before s0)) = loads s0) ->
  (forall s0, loads (final (between s0)) = loads s0) ->
  until_crossing isr pin discharging charging before between s = Ret tt s3 ->
  loads s3 = loads s.
Proof.
  intros Hisr Hb Hm. unfold until_crossing, bind. intros Hrun.
  pose proof (Hb s) as L0.
  destruct (before s) as [[] s0|]; [|discriminate].
  pose proof (poll_loads isr pin discharging
                (S (List.length (adc_feed s0))) Hisr s0) as L1.
  fold (while_readADC isr pin discharging s0) in L1.
  destruct (while_readADC isr pin discharging s0) as [[] s1|]; [|discriminate].
  pose proof (Hm s1) as L2.
  destruct (between s1) as [[] s2|]; [|discriminate].
  pose proof (poll_loads isr pin charging
                (S (List.length (adc_feed s2))) Hisr s2) as L3.
  fold (while_readADC isr pin charging s2) in L3.
  destruct (while_readADC isr pin charging s2) as [[] s4|]; [|discriminate].
  injection Hrun as <-. cbn [final] in *. congruence.
Qed.

(** What a measurement of [Resistance.ino] reads at the crossing. *)
Lemma Resistance_crossing_time (pin : Z) (charging : Z -> bool)
    (before : M unit) (s : machine) (rest charge : list conversion) :
  quiet before ->
  (forall s0, loads (final (before s0)) = loads s0) ->
  charges_over pin (fun v => negb (v =? 0)) charging
    (ADMUX s) (adc_feed s) rest charge ->
  exists s3,
    until_crossing Resistance.TIMER1_OVF_vect pin (fun v => negb (v =? 0))
      charging before charge_start s = Ret tt s3 /\
    adc_feed s3 = rest /\
    read_of Resistance.TIMER1_OVF_vect s3 =
    read_after (load_first s) (load_gap s) (ticks_of charge).
Proof.
  intros Hq Hb H. set (isr := Resistance.TIMER1_OVF_vect).
  destruct (until_crossing_timer isr
              Resistance_isr_frame Resistance_isr_timer pin
              (fun v => negb (v =? 0)) charging before charge_start
              Hq charge_start_quiet s rest charge H)
    as (s1 & s2 & s3 & E2 & Hu & Hrest & Hsame).
  assert (L : loads s3 = loads s).
  { apply (until_crossing_loads isr pin (fun v => negb (v =? 0)) charging
             before charge_start s s3 Resistance_isr_frame Hb);
      [intros s0; reflexivity|exact Hu]. }
  injection L as Lf Lg.
  destruct (charge_start_fresh s1 s2 E2) as [Hf Hi].
  set (n := ticks_of charge) in *. set (gap := load_gap s) in *.
  destruct (Resistance_ticks_fresh n s2 Hf Hi) as (_ & Hc & Ha).
  destruct (Resistance_ticks_fresh (n + gap) s2 Hf Hi) as (_ & Hc' & Ha').
  pose proof (ticks_same_timer isr Resistance_isr_frame Resistance_isr_timer
                gap _ _ Hsame) as (_ & _ & Hc2 & Ha2).
  rewrite <- ticks_app in Hc2, Ha2.
  destruct Hsame as (_ & _ & Hc1 & Ha1).
  exists s3. split; [exact Hu|]. split; [exact Hrest|].
  unfold read_of, read_after. rewrite Lf, Lg. subst isr.
  rewrite Hc1, Ha1, Hc2, Ha2, Hc, Ha, Hc', Ha'.
  destruct (load_first s); reflexivity.
Qed.

Lemma capacitance_before_loads (s : machine) :
  loads (final (capacitance_before s)) = loads s.
Proof. reflexivity. Qed.

Lemma resistance_before_loads (s : machine) :
  loads (final (resistance_before s)) = loads s.
Proof. reflexivity. Qed.

Lemma calculateCapacitance_timed (s : machine)
    (rest charge : list conversion) :
  charges_over Resistance.pin_capacitance
    (fun v => negb (v =? 0)) (fun v => v <? 647)
    (ADMUX s) (adc_feed s) rest charge ->
  exists s',
    Resistance.calculateCapacitance s =
      Ret (read_after (load_first s) (load_gap s) (ticks_of charge) /
           Float32.of_Z 10)%f32 s' /\
    adc_feed s' = rest.
Proof.
  intros H.
  destruct (Resistance_crossing_time _ _ capacitance_before s rest charge
              capacitance_before_quiet capacitance_before_loads H)
    as (s3 & Hu & Hrest & Ht).
  rewrite calculateCapacitance_shape, transient_split.
  unfold bind. rewrite Hu, read_out_eq, Ht.
  rewrite (ticks_frame _ Resistance_isr_frame).
  eexists. split; [reflexivity|exact Hrest].
Qed.

Lemma calculateResistance_timed (s : machine)
    (rest charge : list conversion) :
  charges_over Resistance.pin_resistance
    (fun v => negb (v =? 0)) (fun v => u16 (1023 - v) <? 647)
    (ADMUX s) (adc_feed s) rest charge ->
  exists s',
    Resistance.calculateResistance s =
      Ret (read_after (load_first s) (load_gap s) (ticks_of charge) /
           Float32.of_Z 100)%f32 s' /\
    adc_feed s' = rest.
Proof.
  intros H.
  destruct (Resistance_crossing_time _ _ resistance_before s rest charge
              resistance_before_quiet resistance_before_loads H)
    as (s3 & Hu & Hrest & Ht).
  rewrite calculateResistance_shape, transient_split.
  unfold bind. rewrite Hu, read_out_eq, Ht.
  rewrite (ticks_frame _ Resistance_isr_frame).
  eexists. split; [reflexivity|exact Hrest].
Qed.

(** X11.  [calculateCapacitance] and [calculateResistance] return on every
    feed that leads them through their loops, and what they return is fixed
    by the [n] ticks that go by during the conversions of the charge loop
    and by the way the machine lays out the read of the time: the
    accumulator and the counter are loaded [load_gap] ticks apart, so one of
    them is taken [n] ticks and the other [n + load_gap] ticks after the
    start -- one 65535/250 for each 65536 ticks on the side of the
    accumulator, the rest modulo 65536 over 250 on the side of the counter --
    and the sum is divided by 10 or 100.  When the two loads fall together
    it is the time of [n] ticks; when a wrap of the counter falls between
    them it is a lap too much or too little. *)
Theorem measurements_time_the_charge (s : machine)
    (rest charge : list conversion) :
  let n := ticks_of charge in
  let tau := read_after (load_first s) (load_gap s) n in
  (charges_over Resistance.pin_capacitance
     (fun v => negb (v =? 0)) (fun v => v <? 647)
     (ADMUX s) (adc_feed s) rest charge ->
   exists s',
     Resistance.calculateCapacitance s = Ret (tau / Float32.of_Z 10)%f32 s' /\
     adc_feed s' = rest) /\
  (charges_over Resistance.pin_resistance
     (fun v => negb (v =? 0)) (fun v => u16 (1023 - v) <? 647)
     (ADMUX s) (adc_feed s) rest charge ->
   exists s',
     Resistance.calculateResistance s = Ret (tau / Float32.of_Z 100)%f32 s' /\
     adc_feed s' = rest) /\
  (load_gap s = 0%nat ->
   tau = (laps (laps_of n) + quotient (rest_of n))%f32).
Proof.
  intros n tau. split; [|split].
  - apply calculateCapacitance_timed.
  - apply calculateResistance_timed.
  - intros Hgap. unfold tau, read_after. rewrite Hgap, Nat.add_0_r.
    destruct (load_first s); reflexivity.
Qed.

(** The slow charge, read with both loads together: three laps and 53502
    ticks, 100.044 uF.  A charge of 65535 ticks, read with the counter loaded
    first and the wrap between the loads: a lap too much. *)
Lemma measurements_time_the_charge_witness :
  let s := booted slow_charge [] in
  let charge := [reading 100 300; reading (Z.to_nat 250000) 646;
                 reading 10 647] in
  let n := ticks_of charge in
  let torn := set_load_first CountFirst
                (set_load_gap 1
                   (booted [reading 1 0; reading (Z.to_nat 65535) 647] [])) in
  let charge' := [reading (Z.to_nat 65535) 647] in
  (charges_over Resistance.pin_capacitance
     (fun v => negb (v =? 0)) (fun v => v <? 647)
     (ADMUX s) (adc_feed s) [] charge /\
   laps_of n = 3%nat /\
   rest_of n = 53502 /\
   load_gap s = 0%nat /\
   read_after (load_first s) (load_gap s) n =
     (laps (laps_of n) + quotient (rest_of n))%f32 /\
   exists s',
     Resistance.calculateCapacitance s =
       Ret (read_after (load_first s) (load_gap s) n / Float32.of_Z 10)%f32 s'
     /\ adc_feed s' = []) /\
  (charges_over Resistance.pin_capacitance
     (fun v => negb (v =? 0)) (fun v => v <? 647)
     (ADMUX torn) (adc_feed torn) [] charge' /\
   read_after (load_first torn) (load_gap torn) (ticks_of charge') =
     (laps 1 + quotient 65535)%f32 /\
   exists s',
     Resistance.calculateCapacitance torn =
       Ret (read_after (load_first torn) (load_gap torn) (ticks_of charge') /
            Float32.of_Z 10)%f32 s'
     /\ adc_feed s' = []).
Proof.
  intros s charge n torn charge'.
  assert (H : charges_over Resistance.pin_capacitance
                (fun v => negb (v =? 0)) (fun v => v <? 647)
                (ADMUX s) (adc_feed s) [] charge).
  { exists [reading 3 5], (reading 3 0),
      [reading 100 300; reading (Z.to_nat 250000) 646], (reading 10 647).
    split; [reflexivity|]. split; [repeat constructor|].
    split; [reflexivity|]. split; [repeat constructor|].
    split; reflexivity. }
  assert (H' : charges_over Resistance.pin_capacitance
                 (fun v => negb (v =? 0)) (fun v => v <? 647)
                 (ADMUX torn) (adc_feed torn) [] charge').
  { exists [], (reading 1 0), [], (reading (Z.to_nat 65535) 647).
    split; [reflexivity|]. split; [constructor|].
    split; [reflexivity|]. split; [constructor|].
    split; reflexivity. }
  assert (Hgap : load_gap s = 0%nat) by reflexivity.
  split.
  - split; [exact H|].
    split; [vm_compute; reflexivity|]. split; [vm_compute; reflexivity|].
    split; [exact Hgap|].
    split; [exact (proj2 (proj2 (measurements_time_the_charge s [] charge))
                     Hgap)|].
    exact (proj1 (measurements_time_the_charge s [] charge) H).
  - split; [exact H'|]. split; [vm_compute; reflexivity|].
    exact (proj1 (measurements_time_the_charge torn [] charge') H').
Defined.

Lemma calibration_read_out_eq (s : machine) :
  calibration_read_out s =
  Ret (elapsed (timer1_overflow s) (TCNT1 s))
      (set_tx (tx s ++ [TxStr ("Callibration complete" ++ LF)])
         (set_PORTD 0
            (set_TCNT1 0
               (set_timer1_overflow Float32.zero (set_TCCR1B 0 s))))).
Proof.
  cbv [calibration_read_out stopTimer1 getMilliseconds PIN_LOW USART_sendData
       bind modify gets ret].
  change (lnot (Z.shiftl 1 Calibration.pin_charge)) with 0.
  cbn [PORT set_PORT]. rewrite Z.land_0_r. reflexivity.
Qed.

Lemma getTimeConstant_timed (s : machine) (rest charge : list conversion) :
  charges_over 0 (fun v => negb (v =? 0)) (fun v => v <? 645)
    (ADMUX s) (adc_feed s) rest charge ->
  exists s3,
    until_crossing Calibration.TIMER1_OVF_vect 0
      (fun v => negb (v =? 0)) (fun v => v <? 645)
      (PIN_LOW D Calibration.pin_charge) calibration_start s = Ret tt s3 /\
    Calibration.getTimeConstant s =
      Ret (quotient (rest_of (ticks_of charge)))
          (set_tx (tx s3 ++ [TxStr ("Callibration complete" ++ LF)])
             (set_PORTD 0
                (set_TCNT1 0
                   (set_timer1_overflow Float32.zero (set_TCCR1B 0 s3))))) /\
    adc_feed s3 = rest.
Proof.
  intros H.
  destruct (until_crossing_timer Calibration.TIMER1_OVF_vect
              Calibration_isr_frame Calibration_isr_timer 0
              (fun v => negb (v =? 0)) (fun v => v <? 645)
              (PIN_LOW D Calibration.pin_charge) calibration_start
              calibration_before_quiet calibration_start_quiet
              s rest charge H)
    as (s1 & s2 & s3 & E2 & Hu & Hrest & (_ & _ & Hc & Ha)).
  pose proof (calibration_start_fresh s1 s2 E2) as Hf.
  destruct (Calibration_ticks_fresh (ticks_of charge) s2 Hf)
    as (_ & Hc' & Ha').
  rewrite getTimeConstant_shape, transient_split.
  unfold bind. rewrite Hu, calibration_read_out_eq, Hc, Ha, Hc', Ha'.
  assert (Hq : elapsed Float32.zero (rest_of (ticks_of charge)) =
               quotient (rest_of (ticks_of charge))).
  { unfold elapsed. fold (quotient (rest_of (ticks_of charge))).
    unfold Float32.add, Float32.zero. apply f32_add_zero_l.
    apply quotient_sound.
    pose proof (Z.mod_pos_bound (Z.of_nat (ticks_of charge)) 65536 ltac:(lia)).
    unfold rest_of. lia. }
  rewrite Hq. exists s3. split; [reflexivity|]. split; [reflexivity|exact Hrest].
Qed.

(** X12.  [getTimeConstant] returns on every feed that leads it through its
    loops, and returns the ticks of its charge loop modulo 65536, over 250:
    a time constant of a lap (262.144 ms) or more comes out a lap or more too
    short. *)
Theorem getTimeConstant_times_modulo_a_lap (s : machine)
    (rest charge : list conversion) :
  charges_over 0 (fun v => negb (v =? 0)) (fun v => v <? 645)
    (ADMUX s) (adc_feed s) rest charge ->
  exists s',
    Calibration.getTimeConstant s =
      Ret (quotient (rest_of (ticks_of charge))) s' /\
    adc_feed s' = rest.
Proof.
  intros H.
  destruct (getTimeConstant_timed s rest charge H) as (s3 & _ & E & Hr).
  eexists. split; [exact E|exact Hr].
Qed.

(** A charge of 70000 ticks (280 ms) comes out as 4464 ticks (17.856 ms). *)
Lemma getTimeConstant_times_modulo_a_lap_witness :
  let charge := [reading (Z.to_nat 70000) 645] in
  let s := booted (reading 1 0 :: charge) [] in
  charges_over 0 (fun v => negb (v =? 0)) (fun v => v <? 645)
    (ADMUX s) (adc_feed s) [] charge /\
  rest_of (ticks_of charge) = 4464 /\
  exists s',
    Calibration.getTimeConstant s =
      Ret (quotient (rest_of (ticks_of charge))) s' /\
    adc_feed s' = [].
Proof.
  intros charge s.
  assert (H : charges_over 0 (fun v => negb (v =? 0)) (fun v => v <? 645)
                (ADMUX s) (adc_feed s) [] charge).
  { exists [], (reading 1 0), [], (reading (Z.to_nat 70000) 645).
    split; [reflexivity|]. split; [constructor|].
    split; [reflexivity|]. split; [constructor|].
    split; reflexivity. }
  split; [exact H|]. split; [vm_compute; reflexivity|].
  exact (getTimeConstant_times_modulo_a_lap s [] charge H).
Defined.

(** ** Measurements that never end *)

Section Stuck.

Variable pin : Z.
Variable charging : Z -> bool.
Variable entry : call.
Variable A : Type.
Variable after : M A.

Variable before : M unit.
Hypothesis enter_eq :
  forall s, before s = Ret tt (set_PORTB 0 (set_calls (calls s ++ [entry]) s)).

Abbreviation measurement :=
  (transient Resistance.TIMER1_OVF_vect pin (fun v => negb (v =? 0)) charging
     before charge_start after).

(** No zero sample: the discharge loop spins, with the charge line low and
    the timer as it was. *)
Lemma stuck_discharging (s : machine) :
  Forall (fun x => sampled (ADMUX s) pin x <> 0) (adc_feed s) ->
  exists s',
    measurement s = Hang s' /\
    PORTB s' = 0 /\ TCCR1B s' = TCCR1B s /\ TIMSK1 s' = TIMSK1 s /\
    tx s' = tx s /\ adc_feed s' = [].
Proof.
  intros Hall. unfold transient, bind. rewrite enter_eq.
  set (s0 := set_PORTB 0 (set_calls (calls s ++ [entry]) s)).
  destruct (while_readADC_hangs Resistance.TIMER1_OVF_vect
              Resistance_isr_frame pin (fun v => negb (v =? 0)) s0)
    as (s' & -> & Hnil & Hp).
  { eapply Forall_impl; [|exact Hall]. intros x Hx. unfold goes_on.
    change (ADMUX s0) with (ADMUX s).
    apply negb_true_iff. now apply Z.eqb_neq. }
  destruct Hp as (_ & Hb & _ & _ & Htb & Hti & _ & _ & Htx & _).
  exists s'. split; [reflexivity|]. repeat split; try assumption.
Qed.

(** A zero sample and then no crossing: the charge loop spins, with the
    charge line high and the timer counting. *)
Lemma stuck_charging (s : machine) (pre_d : list conversion) (d : conversion)
    (post : list conversion) :
  adc_feed s = pre_d ++ d :: post ->
  Forall (fun x => sampled (ADMUX s) pin x <> 0) pre_d ->
  sampled (ADMUX s) pin d = 0 ->
  Forall (fun x => charging (sampled (ADMUX s) pin x) = true) post ->
  exists s',
    measurement s = Hang s' /\
    Z.testbit (PORTB s') Resistance.pin_charge = true /\
    clocked s' = true /\ adc_feed s' = [].
Proof.
  intros Hfeed Hpre Hd Hpost. unfold transient, bind. rewrite enter_eq.
  set (s0 := set_PORTB 0 (set_calls (calls s ++ [entry]) s)).
  destruct (while_readADC_returns Resistance.TIMER1_OVF_vect
              Resistance_isr_frame pin (fun v => negb (v =? 0)) s0
              pre_d d post) as (s1 & -> & Hf1 & _ & Hp1).
  { exact Hfeed. }
  { eapply Forall_impl; [|exact Hpre]. intros x Hx. unfold goes_on.
    change (ADMUX s0) with (ADMUX s).
    apply negb_true_iff. now apply Z.eqb_neq. }
  { change (ADMUX s0) with (ADMUX s). now rewrite Hd. }
  destruct (charge_start s1) as [[] s2|] eqn:E2; [|discriminate].
  injection E2 as E2.
  assert (Hm2 : ADMUX s2 = ADMUX s1) by (now rewrite <- E2).
  assert (Hf2 : adc_feed s2 = post) by (now rewrite <- E2).
  assert (Hb2 : Z.testbit (PORTB s2) Resistance.pin_charge = true).
  { rewrite <- E2. cbv [PIN_HIGH Resistance.startTimer1 Resistance.initTimer1
      bind modify final]. cbn [PORTB PORT set_PORT set_PORTB].
    unfold u8. change 256 with (2 ^ 8).
    rewrite Z.mod_pow2_bits_low by (unfold Resistance.pin_charge; lia).
    rewrite Z.lor_spec. apply orb_true_r. }
  assert (Hc2 : TCCR1B s2 = 3) by (now rewrite <- E2).
  destruct (while_readADC_hangs Resistance.TIMER1_OVF_vect
              Resistance_isr_frame pin charging s2)
    as (s' & -> & Hnil & Hp).
  { rewrite Hf2. eapply Forall_impl; [|exact Hpost].
    intros x Hx. unfold goes_on. rewrite Hm2.
    now rewrite (sampled_polled pin _ s0 s1 x Hp1). }
  destruct Hp as (_ & Hb & _ & _ & Htb & _).
  exists s'. split; [reflexivity|].
  split; [now rewrite Hb|]. split; [|exact Hnil].
  unfold clocked. now rewrite Htb, Hc2.
Qed.

End Stuck.

Lemma capacitance_before_eq (s : machine) :
  capacitance_before s =
  Ret tt (set_PORTB 0 (set_calls (calls s ++ [Call_calculateCapacitance]) s)).
Proof.
  cbv [capacitance_before PIN_LOW bind modify].
  change (lnot (Z.shiftl 1 Resistance.pin_charge)) with 0.
  cbn [PORT set_PORT]. rewrite Z.land_0_r. reflexivity.
Qed.

Lemma resistance_before_eq (s : machine) :
  resistance_before s =
  Ret tt (set_PORTB 0 (set_calls (calls s ++ [Call_calculateResistance]) s)).
Proof.
  cbv [resistance_before PIN_LOW bind modify].
  change (lnot (Z.shiftl 1 Resistance.pin_charge)) with 0.
  cbn [PORT set_PORT]. rewrite Z.land_0_r. reflexivity.
Qed.

(** X13.  A measurement of [Resistance.ino] whose input never reads zero
    never returns, never drives the charge line high and never starts the
    timer; one whose input reads zero but never crosses the threshold
    afterwards never returns either, and is left charging, the timer
    counting. *)
Theorem measurement_without_end (s : machine) :
  (Forall (fun x => sampled (ADMUX s) Resistance.pin_capacitance x <> 0)
     (adc_feed s) ->
   exists s',
     Resistance.calculateCapacitance s = Hang s' /\
     PORTB s' = 0 /\ TCCR1B s' = TCCR1B s /\ TIMSK1 s' = TIMSK1 s /\
     tx s' = tx s /\ adc_feed s' = []) /\
  (forall pre_d d post,
     adc_feed s = pre_d ++ d :: post ->
     Forall (fun x => sampled (ADMUX s) Resistance.pin_capacitance x <> 0)
       pre_d ->
     sampled (ADMUX s) Resistance.pin_capacitance d = 0 ->
     Forall (fun x => (sampled (ADMUX s) Resistance.pin_capacitance x <? 647)
                      = true) post ->
     exists s',
       Resistance.calculateCapacitance s = Hang s' /\
       Z.testbit (PORTB s') Resistance.pin_charge = true /\
       clocked s' = true /\ adc_feed s' = []) /\
  (Forall (fun x => sampled (ADMUX s) Resistance.pin_resistance x <> 0)
     (adc_feed s) ->
   exists s',
     Resistance.calculateResistance s = Hang s' /\
     PORTB s' = 0 /\ TCCR1B s' = TCCR1B s /\ TIMSK1 s' = TIMSK1 s /\
     tx s' = tx s /\ adc_feed s' = []).
Proof.
  split; [|split].
  - intros H. rewrite calculateCapacitance_shape.
    exact (stuck_discharging _ _ _ _ _ _ capacitance_before_eq s H).
  - intros pre_d d post Hf Hpre Hd Hpost. rewrite calculateCapacitance_shape.
    exact (stuck_charging _ _ _ _ _ _ capacitance_before_eq s pre_d d post
             Hf Hpre Hd Hpost).
  - intros H. rewrite calculateResistance_shape.
    exact (stuck_discharging _ _ _ _ _ _ resistance_before_eq s H).
Qed.

(** A capacitor that holds 5 counts, and one that charges to 600 only. *)
Lemma measurement_without_end_witness :
  let held := booted [reading 1 5; reading 1 5] [] in
  let weak := booted [reading 1 0; reading 9 600; reading 9 600] [] in
  Forall (fun x => sampled (ADMUX held) Resistance.pin_capacitance x <> 0)
    (adc_feed held) /\
  (exists s',
     Resistance.calculateCapacitance held = Hang s' /\
     PORTB s' = 0 /\ TCCR1B s' = TCCR1B held /\ TIMSK1 s' = TIMSK1 held /\
     tx s' = tx held /\ adc_feed s' = []) /\
  (exists s',
     Resistance.calculateCapacitance weak = Hang s' /\
     Z.testbit (PORTB s') Resistance.pin_charge = true /\
     clocked s' = true /\ adc_feed s' = []).
Proof.
  intros held weak.
  assert (H : Forall (fun x =>
                sampled (ADMUX held) Resistance.pin_capacitance x <> 0)
                (adc_feed held))
    by (repeat constructor; discriminate).
  split; [exact H|]. split.
  - exact (proj1 (measurement_without_end held) H).
  - apply (proj1 (proj2 (measurement_without_end weak))
             [] (reading 1 0) [reading 9 600; reading 9 600]).
    + reflexivity.
    + constructor.
    + reflexivity.
    + repeat constructor.
Defined.

(** ** What the calibration leaves behind *)

(** X14.  When [getTimeConstant] returns, the timer is stopped, accumulator
    and counter are zero, all of port D is low, and "Callibration complete"
    is the last thing sent. *)
Theorem getTimeConstant_leaves_idle (s : machine) (v : float) (s' : machine) :
  Calibration.getTimeConstant s = Ret v s' ->
  TCCR1B s' = 0 /\ clocked s' = false /\
  timer1_overflow s' = Float32.zero /\ TCNT1 s' = 0 /\
  PORTD s' = 0 /\
  exists sent, tx s' = sent ++ [TxStr ("Callibration complete" ++ LF)].
Proof.
  intros Hrun. rewrite getTimeConstant_shape in Hrun.
  apply transient_after in Hrun; [|exact Calibration_isr_frame].
  destruct Hrun as (s3 & _ & _ & Hout).
  rewrite calibration_read_out_eq in Hout. injection Hout as _ <-.
  repeat split. eexists. reflexivity.
Qed.

Lemma getTimeConstant_leaves_idle_witness :
  let run := Calibration.getTimeConstant
               (booted [reading 1 0; reading 500 645] []) in
  run = Ret (quotient 500) (final run) /\
  TCCR1B (final run) = 0 /\ clocked (final run) = false /\
  timer1_overflow (final run) = Float32.zero /\ TCNT1 (final run) = 0 /\
  PORTD (final run) = 0 /\
  exists sent,
    tx (final run) = sent ++ [TxStr ("Callibration complete" ++ LF)].
Proof.
  intros run.
  assert (E : run = Ret (quotient 500) (final run)) by (vm_compute; reflexivity).
  split; [exact E|].
  exact (getTimeConstant_leaves_idle _ _ (final run) E).
Defined.

(** ** The front end *)

Lemma checkMode_eq (s : machine) (byte : Z) (rx : list Z) :
  rx_feed s = byte :: rx ->
  Resistance.checkMode s =
  Ret tt (set_mode (u8 (u8 byte - 48))
            (set_rx_feed rx (set_tx (tx s ++ menu) s))).
Proof.
  intros Hrx.
  cbv [Resistance.checkMode USART_sendData bind modify].
  cbn [rx_feed set_tx tx]. rewrite Hrx.
  rewrite <- !app_assoc. reflexivity.
Qed.

(** What the unsigned [mode -= '0'] makes of a byte. *)
Lemma mode_of_byte (byte : Z) :
  0 <= byte < 256 ->
  (In (u8 (u8 byte - 48)) [1; 2; 3; 4] <-> 49 <= byte <= 52) /\
  0 <= u8 (u8 byte - 48) < 256.
Proof.
  intros Hb.
  assert (Hu : u8 byte = byte) by (apply Z.mod_small; lia).
  rewrite Hu. unfold u8.
  pose proof (Z.mod_pos_bound (byte - 48) 256 ltac:(lia)) as Hr.
  split; [|exact Hr].
  destruct (Z_lt_le_dec byte 48) as [Hlo|Hhi].
  - assert (E : (byte - 48) mod 256 = byte + 208).
    { symmetry. apply (Z.mod_unique _ _ (-1)); lia. }
    rewrite E. cbn [In]. split; intros H; lia.
  - rewrite Z.mod_small by lia. cbn [In]. split; intros H; lia.
Qed.

(** X15.  [checkMode] waits for one byte and never returns without it; of
    the 256 bytes exactly the characters '1' to '4' give a mode from 1 to 4,
    the digit itself, and the unsigned subtraction turns no other byte into
    one. *)
Theorem checkMode_recognises_four_keys (s : machine) :
  (rx_feed s = [] -> exists s', Resistance.checkMode s = Hang s') /\
  (forall byte rx,
     rx_feed s = byte :: rx ->
     0 <= byte < 256 ->
     exists s',
       Resistance.checkMode s = Ret tt s' /\
       rx_feed s' = rx /\
       tx s' = tx s ++ menu /\
       0 <= mode s' < 256 /\
       (In (mode s') [1; 2; 3; 4] <-> 49 <= byte <= 52) /\
       (49 <= byte <= 52 -> mode s' = byte - 48)).
Proof.
  split.
  - intros Hrx. cbv [Resistance.checkMode USART_sendData bind modify].
    cbn [rx_feed set_tx]. rewrite Hrx. eexists. reflexivity.
  - intros byte rx Hrx Hb. rewrite (checkMode_eq s byte rx Hrx).
    eexists. split; [reflexivity|]. split; [reflexivity|].
    split; [reflexivity|]. cbn [mode set_mode].
    destruct (mode_of_byte byte Hb) as [Hiff Hrange].
    split; [exact Hrange|]. split; [exact Hiff|].
    intros Hin. unfold u8. rewrite (Z.mod_small byte) by lia.
    apply Z.mod_small. lia.
Qed.

Lemma checkMode_recognises_four_keys_witness :
  let s := power_on [] [47; 51] in
  rx_feed s = 47 :: [51] /\ 0 <= 47 < 256 /\
  exists s',
    Resistance.checkMode s = Ret tt s' /\
    rx_feed s' = [51] /\
    tx s' = tx s ++ menu /\
    0 <= mode s' < 256 /\
    (In (mode s') [1; 2; 3; 4] <-> 49 <= 47 <= 52) /\
    (49 <= 47 <= 52 -> mode s' = 47 - 48).
Proof.
  intros s.
  assert (Hrx : rx_feed s = 47 :: [51]) by reflexivity.
  assert (Hb : 0 <= 47 < 256) by lia.
  split; [exact Hrx|]. split; [exact Hb|].
  exact (proj2 (checkMode_recognises_four_keys s) 47 [51] Hrx Hb).
Defined.

Lemma updateLED_eq (s : machine) :
  Resistance.updateLED s = Ret tt (set_PORTD (led_lit (mode s)) s).
Proof.
  unfold Resistance.updateLED, bind.
  rewrite !PIN_LOW_eq by (cbv; discriminate).
  cbn [set_PORT]. unfold gets. cbn [mode set_PORTD]. unfold led_lit.
  destruct ((1 <=? mode s) && (mode s <=? 4)) eqn:E.
  - apply andb_true_iff in E. destruct E as [E1 E2].
    apply Z.leb_le in E1, E2.
    assert (H : mode s = 1 \/ mode s = 2 \/ mode s = 3 \/ mode s = 4) by lia.
    destruct H as [-> | [-> | [-> | ->]]]; reflexivity.
  - unfold ret. now destruct s.
Qed.

(** X16.  [updateLED] leaves exactly one LED on for a mode from 1 to 4 --
    pin 4 for mode 1 up to pin 7 for mode 4 -- and none for any other mode;
    the low four pins of port D are driven low either way, and nothing but
    port D is written. *)
Theorem updateLED_lights_the_mode (s : machine) :
  exists s',
    Resistance.updateLED s = Ret tt s' /\
    s' = set_PORTD (PORTD s') s /\
    (forall k, 0 <= k ->
       Z.testbit (PORTD s') k =
       (1 <=? mode s) && (mode s <=? 4) && (k =? mode s + 3)).
Proof.
  rewrite updateLED_eq.
  eexists. split; [reflexivity|]. split; [reflexivity|].
  intros k Hk. cbn [PORTD set_PORTD]. unfold led_lit.
  destruct ((1 <=? mode s) && (mode s <=? 4)) eqn:E; cbn [andb].
  - apply andb_true_iff in E. destruct E as [E1 E2].
    apply Z.leb_le in E1, E2.
    rewrite Z.pow2_bits_eqb by lia. apply Z.eqb_sym.
  - apply Z.bits_0.
Qed.

(** Capacitance mode, from a port with every pin high. *)
Lemma updateLED_lights_the_mode_witness :
  let s := set_PORTD 255 (set_mode 3 (power_on [] [])) in
  0 <= 6 /\
  exists s',
    Resistance.updateLED s = Ret tt s' /\
    Z.testbit (PORTD s') 6 = true /\
    PORTD s' = 64.
Proof.
  intros s. assert (H : 0 <= 6) by lia. split; [exact H|].
  destruct (updateLED_lights_the_mode s) as (s' & E & Hs & Hbits).
  exists s'. split; [exact E|]. split; [exact (Hbits 6 H)|].
  cbv in E. injection E as <-. reflexivity.
Defined.

Lemma Resistance_initPins_eq (b : board) :
  Resistance.initPins b =
  Returned tt
    (set_mcu (set_PORTD 0 (set_PORTB 32 (mcu b)))
       (set_DDRD (u8 (Z.lor (DDRD b) 240))
          (set_DDRB (u8 (Z.lor (DDRB b) 48)) (set_DDRC 0 b)))).
Proof.
  unfold Resistance.initPins, bindB, modifyB, on_mcu.
  rewrite !PIN_LOW_eq by (cbv; discriminate).
  cbn [mcu set_mcu set_DDRD set_DDRB set_DDRC].
  unfold PIN_HIGH, modify. cbn [mcu set_mcu set_PORT PORT PORTB set_PORTB].
  rewrite !PIN_LOW_eq by (cbv; discriminate). reflexivity.
Qed.

Lemma Calibration_initPins_eq (b : board) :
  Calibration.initPins b =
  Returned tt
    (set_mcu (set_PORTD 0 (mcu b))
       (set_DDRC 0 (set_DDRD (u8 (Z.lor (DDRD b) 4)) b))).
Proof.
  unfold Calibration.initPins, bindB, modifyB, on_mcu.
  rewrite !PIN_LOW_eq by (cbv; discriminate).
  cbn [mcu set_mcu set_DDRD set_DDRC DDRC].
  change (lnot (Z.shiftl 1 Calibration.pin_capacitor)) with 0.
  rewrite Z.land_0_r. reflexivity.
Qed.

(** X17.  [initPins] of [Resistance.ino] makes port C inputs, adds the charge
    and the trouble-shooting pin of port B and the four LED pins of port D to
    the outputs, and leaves port B with the trouble-shooting pin alone high
    and port D all low.  [initPins] of the calibration sketch makes all of
    port C inputs, not only the capacitor pin, and drives all of port D
    low. *)
Theorem initPins_sets_directions_and_levels (b : board) :
  (exists b',
     Resistance.initPins b = Returned tt b' /\
     DDRC b' = 0 /\
     (forall k, 0 <= k < 8 ->
        Z.testbit (DDRB b') k = (k =? 4) || (k =? 5) || Z.testbit (DDRB b) k) /\
     (forall k, 0 <= k < 8 ->
        Z.testbit (DDRD b') k = (4 <=? k) || Z.testbit (DDRD b) k) /\
     PORTB (mcu b') = 32 /\ PORTD (mcu b') = 0) /\
  (exists b',
     Calibration.initPins b = Returned tt b' /\
     DDRC b' = 0 /\
     (forall k, 0 <= k < 8 ->
        Z.testbit (DDRD b') k = (k =? 2) || Z.testbit (DDRD b) k) /\
     PORTB (mcu b') = PORTB (mcu b) /\ PORTD (mcu b') = 0).
Proof.
  split.
  - rewrite Resistance_initPins_eq. eexists. split; [reflexivity|].
    split; [reflexivity|]. split; [|split; [|split; reflexivity]].
    + intros k Hk. cbn [DDRB set_mcu set_DDRD set_DDRB].
      rewrite u8_bits, Z.lor_spec by assumption.
      change 48 with (Z.lor (2 ^ 4) (2 ^ 5)).
      rewrite Z.lor_spec, !Z.pow2_bits_eqb by lia.
      rewrite (Z.eqb_sym 4 k), (Z.eqb_sym 5 k). apply orb_comm.
    + intros k Hk. cbn [DDRD set_mcu set_DDRD].
      rewrite u8_bits, Z.lor_spec by assumption.
      assert (E : Z.testbit 240 k = (4 <=? k)).
      { assert (H : k = 0 \/ k = 1 \/ k = 2 \/ k = 3 \/
                    k = 4 \/ k = 5 \/ k = 6 \/ k = 7) by lia.
        destruct H as [-> | [-> | [-> | [-> | [-> | [-> | [-> | ->]]]]]]];
          reflexivity. }
      rewrite E. apply orb_comm.
  - rewrite Calibration_initPins_eq. eexists. split; [reflexivity|].
    split; [reflexivity|]. split; [|split; reflexivity].
    intros k Hk. cbn [DDRD set_mcu set_DDRD set_DDRC].
    rewrite u8_bits, Z.lor_spec by assumption.
    change 4 with (2 ^ 2). rewrite Z.pow2_bits_eqb by lia.
    rewrite (Z.eqb_sym 2 k). apply orb_comm.
Qed.


(** A board on which pin 0 of port B and all of port C were outputs. *)
Lemma initPins_sets_directions_and_levels_witness :
  let b := set_DDRC 255 (set_DDRB 1 (reset_board (power_on [] []))) in
  0 <= 0 < 8 /\ 0 <= 4 < 8 /\
  exists b',
    Resistance.initPins b = Returned tt b' /\
    DDRC b' = 0 /\
    Z.testbit (DDRB b') 0 = true /\
    Z.testbit (DDRB b') 4 = true /\
    PORTB (mcu b') = 32.
Proof.
  intros b.
  assert (H0 : 0 <= 0 < 8) by lia.
  assert (H4 : 0 <= 4 < 8) by lia.
  split; [exact H0|]. split; [exact H4|].
  destruct (proj1 (initPins_sets_directions_and_levels b))
    as (b' & E & Hc & Hb & _ & Hp & _).
  exists b'. split; [exact E|]. split; [exact Hc|].
  split; [exact (Hb 0 H0)|]. split; [exact (Hb 4 H4)|exact Hp].
Defined.

(** ** [main], end to end *)

Lemma bindB_on_mcu {A C} (m : M A) (k : A -> MB C) (b : board)
    (a : A) (s : machine) :
  m (mcu b) = Ret a s -> bindB (on_mcu m) k b = k a (set_mcu s b).
Proof. intros E. unfold bindB, on_mcu. now rewrite E. Qed.

Lemma bindB_on_mcu_hang {A C} (m : M A) (k : A -> MB C) (b : board)
    (s : machine) :
  m (mcu b) = Hang s -> bindB (on_mcu m) k b = Stuck (set_mcu s b).
Proof. intros E. unfold bindB, on_mcu. now rewrite E. Qed.

Section Front.

Variable isr : machine -> machine.
Hypothesis isr_frame : writes_overflow_only isr.
Variable pin : Z.
Variables discharging charging : Z -> bool.
Variables (before between : M unit).
Variable A : Type.
Variable after : M A.

(** A part of the machine that [readADC] leaves alone. *)
Variable X : Type.
Variable part : machine -> X.
Hypothesis part_polled :
  forall p n s s', polled p n s s' -> part s' = part s.

Hypothesis before_keeps : forall s s', before s = Ret tt s' -> part s' = part s.
Hypothesis between_keeps :
  forall s s', between s = Ret tt s' -> part s' = part s.
Hypothesis after_keeps : forall s v s', after s = Ret v s' -> part s' = part s.

Lemma transient_keeps (s : machine) (v : A) (s' : machine) :
  transient isr pin discharging charging before between after s = Ret v s' ->
  part s' = part s.
Proof.
  unfold transient, bind. intros Hrun.
  destruct (before s) as [[] s0|] eqn:E0; [|discriminate].
  destruct (while_readADC isr pin discharging s0) as [[] s1|] eqn:E1;
    [|discriminate].
  destruct (between s1) as [[] s2|] eqn:E2; [|discriminate].
  destruct (while_readADC isr pin charging s2) as [[] s3|] eqn:E3;
    [|discriminate].
  destruct (while_readADC_inv isr isr_frame pin discharging s0 s1 E1)
    as (? & ? & _ & _ & _ & _ & P1).
  destruct (while_readADC_inv isr isr_frame pin charging s2 s3 E3)
    as (? & ? & _ & _ & _ & _ & P3).
  rewrite (after_keeps s3 v s' Hrun), (part_polled _ _ _ _ P3),
    (between_keeps s1 s2 E2), (part_polled _ _ _ _ P1).
  exact (before_keeps s s0 E0).
Qed.

End Front.

Lemma tx_polled (p : Z) (n : nat) (s s' : machine) :
  polled p n s s' -> tx s' = tx s.
Proof. intros (_ & _ & _ & _ & _ & _ & _ & _ & H & _). exact H. Qed.

Lemma PORTD_polled (p : Z) (n : nat) (s s' : machine) :
  polled p n s s' -> PORTD s' = PORTD s.
Proof. intros (_ & _ & H & _). exact H. Qed.

Lemma calculateCapacitance_kept (s : machine) (v : float) (s' : machine) :
  Resistance.calculateCapacitance s = Ret v s' -> kept s s'.
Proof.
  rewrite calculateCapacitance_shape. intros E. split.
  - revert E. apply transient_keeps.
    + exact Resistance_isr_frame.
    + exact PORTD_polled.
    + intros s0 s1 E. rewrite capacitance_before_eq in E. now injection E as <-.
    + intros s0 s1 E. now injection E as <-.
    + intros s0 v0 s1 E. rewrite read_out_eq in E. injection E as _ <-.
      now rewrite (ticks_frame _ Resistance_isr_frame).
  - revert E. apply transient_keeps.
    + exact Resistance_isr_frame.
    + exact tx_polled.
    + intros s0 s1 E. rewrite capacitance_before_eq in E. now injection E as <-.
    + intros s0 s1 E. now injection E as <-.
    + intros s0 v0 s1 E. rewrite read_out_eq in E. injection E as _ <-.
      now rewrite (ticks_frame _ Resistance_isr_frame).
Qed.

Lemma calculateResistance_kept (s : machine) (v : float) (s' : machine) :
  Resistance.calculateResistance s = Ret v s' -> kept s s'.
Proof.
  rewrite calculateResistance_shape. intros E. split.
  - revert E. apply transient_keeps.
    + exact Resistance_isr_frame.
    + exact PORTD_polled.
    + intros s0 s1 E. rewrite resistance_before_eq in E. now injection E as <-.
    + intros s0 s1 E. now injection E as <-.
    + intros s0 v0 s1 E. rewrite read_out_eq in E. injection E as _ <-.
      now rewrite (ticks_frame _ Resistance_isr_frame).
  - revert E. apply transient_keeps.
    + exact Resistance_isr_frame.
    + exact tx_polled.
    + intros s0 s1 E. rewrite resistance_before_eq in E. now injection E as <-.
    + intros s0 s1 E. now injection E as <-.
    + intros s0 v0 s1 E. rewrite read_out_eq in E. injection E as _ <-.
      now rewrite (ticks_frame _ Resistance_isr_frame).
Qed.

Lemma main_front (b : board) (byte : Z) (rx : list Z) :
  rx_feed (mcu b) = byte :: rx ->
  Resistance.main b =
  (value <- on_mcu Resistance.main_switch ;;
   on_mcu (USART_sendData (LF ++ "RESET to reuse")) ;;
   retB 0)%board (front b byte rx).
Proof.
  intros Hrx. unfold Resistance.main.
  unfold bindB at 1. rewrite Resistance_initPins_eq.
  unfold bindB at 1. unfold sei at 1. unfold modifyB at 1.
  unfold bindB at 1. unfold initUSART at 1. unfold bindB at 1 2, modifyB at 1 2 3.
  rewrite (bindB_on_mcu initADC _ _ tt _ eq_refl).
  erewrite (bindB_on_mcu Resistance.checkMode);
    [|apply checkMode_eq with (byte := byte) (rx := rx); exact Hrx].
  erewrite (bindB_on_mcu Resistance.updateLED); [|apply updateLED_eq].
  erewrite (bindB_on_mcu (USART_sendData "MODE: ")); [|reflexivity].
  f_equal. unfold front.
  cbn [mcu set_mcu tx set_tx set_PORTD set_mode set_rx_feed mode].
  rewrite <- app_assoc. reflexivity.
Qed.

(** The end of [main], from the value of the [switch] on. *)
Lemma main_end (b : board) (value : float) (s : machine) :
  Resistance.main_switch (mcu b) = Ret value s ->
  (value <- on_mcu Resistance.main_switch ;;
   on_mcu (USART_sendData (LF ++ "RESET to reuse")) ;;
   retB 0)%board b =
  Returned 0
    (set_mcu (set_tx (tx s ++ [TxStr (LF ++ "RESET to reuse")]) s) b).
Proof.
  intros E. rewrite (bindB_on_mcu _ _ _ _ _ E). reflexivity.
Qed.



Lemma main_switch_capacitance (s : machine) (v : float) (s1 : machine) :
  mode s = Resistance.MODE_CAPACITANCE ->
  Resistance.calculateCapacitance
    (set_tx (tx s ++ [TxStr ("Capacitance meter" ++ LF);
                      TxStr ("Calculating time constant..." ++ LF)]) s) =
    Ret v s1 ->
  exists s',
    Resistance.main_switch s = Ret v s' /\
    tx s' = tx s ++ [TxStr ("Capacitance meter" ++ LF);
                     TxStr ("Calculating time constant..." ++ LF);
                     TxStr "The capacitance is: "; TxFloat v;
                     TxStr (" uF" ++ LF); TxByte 10] /\
    PORTD s' = PORTD s /\ adc_feed s' = adc_feed s1.
Proof.
  intros Hm E. unfold Resistance.main_switch. rewrite bind_gets, Hm.
  change (Resistance.MODE_CAPACITANCE =? Resistance.MODE_CAPACITANCE) with true.
  cbv iota. rewrite !bind_send. cbn [tx set_tx].
  rewrite <- app_assoc. cbn [app].
  match goal with
  | |- context [set_tx ?l (set_tx _ s)] =>
      change (set_tx l (set_tx _ s)) with (set_tx l s)
  end.
  unfold bind at 1. rewrite E.
  destruct (calculateCapacitance_kept _ _ _ E) as [Hd Ht].
  eexists. split; [reflexivity|].
  cbn [tx set_tx PORTD adc_feed]. rewrite Ht, Hd.
  split; [|split; reflexivity].
  cbn [tx set_tx]. rewrite <- !app_assoc. reflexivity.
Qed.

Lemma main_switch_resistance (s : machine) (v : float) (s1 : machine) :
  mode s = Resistance.MODE_RESISTANCE ->
  Resistance.calculateResistance
    (set_tx (tx s ++ [TxStr ("Resistance meter" ++ LF);
                      TxStr ("Calculating time constant..." ++ LF)]) s) =
    Ret v s1 ->
  exists s',
    Resistance.main_switch s = Ret v s' /\
    tx s' = tx s ++ [TxStr ("Resistance meter" ++ LF);
                     TxStr ("Calculating time constant..." ++ LF);
                     TxStr "The resistance is: "; TxFloat v;
                     TxStr (" k ohm" ++ LF); TxByte 10] /\
    PORTD s' = PORTD s /\ adc_feed s' = adc_feed s1.
Proof.
  intros Hm E. unfold Resistance.main_switch. rewrite bind_gets, Hm.
  change (Resistance.MODE_RESISTANCE =? Resistance.MODE_CAPACITANCE) with false.
  change (Resistance.MODE_RESISTANCE =? Resistance.MODE_RESISTANCE) with true.
  cbv iota. rewrite !bind_send. cbn [tx set_tx].
  rewrite <- app_assoc. cbn [app].
  match goal with
  | |- context [set_tx ?l (set_tx _ s)] =>
      change (set_tx l (set_tx _ s)) with (set_tx l s)
  end.
  unfold bind at 1. rewrite E.
  destruct (calculateResistance_kept _ _ _ E) as [Hd Ht].
  eexists. split; [reflexivity|].
  cbn [tx set_tx PORTD adc_feed]. rewrite Ht, Hd.
  split; [|split; reflexivity].
  cbn [tx set_tx]. rewrite <- !app_assoc. reflexivity.
Qed.

(** X19.  With key '3' or '2' and samples that lead the measurement through
    its loops, [main] prints between its banners what the read of the time
    returns when the charge loop has ended, over 10 or over 100, leaves the
    LED of the mode lit and returns 0.  The read is laid out as the machine
    has it: one operand [n] ticks and the other [n + load_gap] ticks after
    the start, [n] being the ticks of the charge loop. *)
Theorem main_measures (b : board) (rx : list Z)
    (rest charge : list conversion) :
  let n := ticks_of charge in
  let tau := read_after (load_first (mcu b)) (load_gap (mcu b)) n in
  (rx_feed (mcu b) = key 3 :: rx ->
   charges_over Resistance.pin_capacitance
     (fun v => negb (v =? 0)) (fun v => v <? 647)
     (Z.shiftl 1 REFS0) (adc_feed (mcu b)) rest charge ->
   exists b',
     Resistance.main b = Returned 0 b' /\
     tx (mcu b') =
       tx (mcu b) ++ menu ++
       [TxStr "MODE: "; TxStr ("Capacitance meter" ++ LF);
        TxStr ("Calculating time constant..." ++ LF);
        TxStr "The capacitance is: "; TxFloat (tau / Float32.of_Z 10)%f32;
        TxStr (" uF" ++ LF); TxByte 10; TxStr (LF ++ "RESET to reuse")] /\
     PORTD (mcu b') = 2 ^ 6 /\
     adc_feed (mcu b') = rest) /\
  (rx_feed (mcu b) = key 2 :: rx ->
   charges_over Resistance.pin_resistance
     (fun v => negb (v =? 0)) (fun v => u16 (1023 - v) <? 647)
     (Z.shiftl 1 REFS0) (adc_feed (mcu b)) rest charge ->
   exists b',
     Resistance.main b = Returned 0 b' /\
     tx (mcu b') =
       tx (mcu b) ++ menu ++
       [TxStr "MODE: "; TxStr ("Resistance meter" ++ LF);
        TxStr ("Calculating time constant..." ++ LF);
        TxStr "The resistance is: "; TxFloat (tau / Float32.of_Z 100)%f32;
        TxStr (" k ohm" ++ LF); TxByte 10; TxStr (LF ++ "RESET to reuse")] /\
     PORTD (mcu b') = 2 ^ 5 /\
     adc_feed (mcu b') = rest).
Proof.
  intros n tau. split; intros Hrx H; rewrite (main_front b _ rx Hrx).
  - set (s := mcu (front b (key 3) rx)).
    destruct (calculateCapacitance_timed
                (set_tx (tx s ++ [TxStr ("Capacitance meter" ++ LF);
                                  TxStr ("Calculating time constant..." ++ LF)])
                   s) rest charge H) as (s1 & E & Hrest).
    destruct (main_switch_capacitance s _ s1 eq_refl E)
      as (s' & E' & Ht & Hd & Hf).
    rewrite (main_end _ _ _ E'). eexists. split; [reflexivity|].
    cbn [mcu set_mcu tx set_tx PORTD adc_feed]. rewrite Ht, Hd, Hf, Hrest.
    split; [|split; reflexivity].
    subst s. cbn [front mcu set_mcu tx set_tx].
    rewrite <- !app_assoc. reflexivity.
  - set (s := mcu (front b (key 2) rx)).
    destruct (calculateResistance_timed
                (set_tx (tx s ++ [TxStr ("Resistance meter" ++ LF);
                                  TxStr ("Calculating time constant..." ++ LF)])
                   s) rest charge H) as (s1 & E & Hrest).
    destruct (main_switch_resistance s _ s1 eq_refl E)
      as (s' & E' & Ht & Hd & Hf).
    rewrite (main_end _ _ _ E'). eexists. split; [reflexivity|].
    cbn [mcu set_mcu tx set_tx PORTD adc_feed]. rewrite Ht, Hd, Hf, Hrest.
    split; [|split; reflexivity].
    subst s. cbn [front mcu set_mcu tx set_tx].
    rewrite <- !app_assoc. reflexivity.
Qed.

(** A node that reads 700 and then 376 counts while 2500 ticks (10 ms) go
    by, read with both loads together: 0.1 k ohm. *)
Lemma main_measures_witness :
  let charge := [reading 1500 700; reading 1000 376] in
  let b := reset_board (power_on (reading 5 0 :: charge) [key 2]) in
  rx_feed (mcu b) = [key 2] /\
  charges_over Resistance.pin_resistance
    (fun v => negb (v =? 0)) (fun v => u16 (1023 - v) <? 647)
    (Z.shiftl 1 REFS0) (adc_feed (mcu b)) [] charge /\
  laps_of (ticks_of charge) = 0%nat /\ rest_of (ticks_of charge) = 2500 /\
  load_gap (mcu b) = 0%nat /\
  exists b',
    Resistance.main b = Returned 0 b' /\
    tx (mcu b') =
      tx (mcu b) ++ menu ++
      [TxStr "MODE: "; TxStr ("Resistance meter" ++ LF);
       TxStr ("Calculating time constant..." ++ LF);
       TxStr "The resistance is: ";
       TxFloat (read_after (load_first (mcu b)) (load_gap (mcu b))
                  (ticks_of charge) / Float32.of_Z 100)%f32;
       TxStr (" k ohm" ++ LF); TxByte 10; TxStr (LF ++ "RESET to reuse")] /\
    PORTD (mcu b') = 2 ^ 5 /\
    adc_feed (mcu b') = [].
Proof.
  intros charge b.
  assert (Hrx : rx_feed (mcu b) = [key 2]) by reflexivity.
  assert (H : charges_over Resistance.pin_resistance
                (fun v => negb (v =? 0)) (fun v => u16 (1023 - v) <? 647)
                (Z.shiftl 1 REFS0) (adc_feed (mcu b)) [] charge).
  { exists [], (reading 5 0), [reading 1500 700], (reading 1000 376).
    split; [reflexivity|]. split; [constructor|].
    split; [reflexivity|]. split; [repeat constructor|].
    split; reflexivity. }
  split; [exact Hrx|]. split; [exact H|].
  split; [vm_compute; reflexivity|]. split; [vm_compute; reflexivity|].
  split; [reflexivity|].
  exact (proj2 (main_measures b [] [] charge) Hrx H).
Defined.

Lemma main_switch_invalid (s : machine) :
  ~ In (mode s) [1; 2; 3; 4] ->
  Resistance.main_switch s =
  Ret Float32.zero (set_tx (tx s ++ [TxStr ("Invalid" ++ LF)]) s).
Proof.
  intros Hm. simpl in Hm.
  unfold Resistance.main_switch. rewrite bind_gets.
  replace (mode s =? Resistance.MODE_CAPACITANCE) with false
    by (symmetry; apply Z.eqb_neq; unfold Resistance.MODE_CAPACITANCE; lia).
  replace (mode s =? Resistance.MODE_RESISTANCE) with false
    by (symmetry; apply Z.eqb_neq; unfold Resistance.MODE_RESISTANCE; lia).
  replace (mode s =? Resistance.MODE_VOLTAGE) with false
    by (symmetry; apply Z.eqb_neq; unfold Resistance.MODE_VOLTAGE; lia).
  replace (mode s =? Resistance.MODE_CURRENT) with false
    by (symmetry; apply Z.eqb_neq; unfold Resistance.MODE_CURRENT; lia).
  reflexivity.
Qed.

(** X20.  With any byte other than '1' to '4' [main] prints the menu,
    "MODE: ", "Invalid" and the closing line, lights no LED, makes no
    conversion and returns 0; with no byte at all it prints the menu and
    waits for ever. *)
Theorem main_rejects_other_keys (b : board) :
  (forall byte rx,
     rx_feed (mcu b) = byte :: rx ->
     0 <= byte < 256 ->
     ~ 49 <= byte <= 52 ->
     exists b',
       Resistance.main b = Returned 0 b' /\
       tx (mcu b') =
         tx (mcu b) ++ menu ++
         [TxStr "MODE: "; TxStr ("Invalid" ++ LF);
          TxStr (LF ++ "RESET to reuse")] /\
       PORTD (mcu b') = 0 /\
       adc_feed (mcu b') = adc_feed (mcu b) /\
       calls (mcu b') = calls (mcu b)) /\
  (rx_feed (mcu b) = [] ->
   exists b',
     Resistance.main b = Stuck b' /\
     tx (mcu b') = tx (mcu b) ++ menu /\
     adc_feed (mcu b') = adc_feed (mcu b)).
Proof.
  split.
  - intros byte rx Hrx Hb Hout. rewrite (main_front b _ rx Hrx).
    destruct (mode_of_byte byte Hb) as [Hiff Hrange].
    assert (Hm : ~ In (mode (mcu (front b byte rx))) [1; 2; 3; 4]).
    { intros Hin. apply Hout. apply Hiff. exact Hin. }
    rewrite (main_end _ _ _ (main_switch_invalid _ Hm)).
    eexists. split; [reflexivity|].
    cbn [front mcu set_mcu tx set_tx PORTD set_PORTD adc_feed calls].
    split; [rewrite <- !app_assoc; reflexivity|].
    split; [|split; reflexivity].
    unfold led_lit.
    destruct ((1 <=? u8 (u8 byte - 48)) && (u8 (u8 byte - 48) <=? 4)) eqn:E;
      [|reflexivity].
    exfalso. apply Hout, Hiff.
    apply andb_true_iff in E. destruct E as [E1 E2].
    apply Z.leb_le in E1, E2. cbn [In]. lia.
  - intros Hrx. unfold Resistance.main.
    unfold bindB at 1. rewrite Resistance_initPins_eq.
    unfold bindB at 1. unfold sei at 1. unfold modifyB at 1.
    unfold bindB at 1. unfold initUSART at 1.
    unfold bindB at 1 2, modifyB at 1 2 3.
    rewrite (bindB_on_mcu initADC _ _ tt _ eq_refl).
    assert (E : forall s, rx_feed s = [] ->
              Resistance.checkMode s = Hang (set_tx (tx s ++ menu) s)).
    { intros s Hs. cbv [Resistance.checkMode USART_sendData bind modify].
      cbn [rx_feed set_tx tx]. rewrite Hs. rewrite <- !app_assoc.
      reflexivity. }
    erewrite (bindB_on_mcu_hang Resistance.checkMode); [|apply E; exact Hrx].
    eexists. split; [reflexivity|]. split; reflexivity.
Qed.

(** The host sends the letter 'c'. *)
Lemma main_rejects_other_keys_witness :
  let b := reset_board (power_on [staircase] [99]) in
  rx_feed (mcu b) = [99] /\ 0 <= 99 < 256 /\ ~ 49 <= 99 <= 52 /\
  exists b',
    Resistance.main b = Returned 0 b' /\
    tx (mcu b') =
      tx (mcu b) ++ menu ++
      [TxStr "MODE: "; TxStr ("Invalid" ++ LF);
       TxStr (LF ++ "RESET to reuse")] /\
    PORTD (mcu b') = 0 /\
    adc_feed (mcu b') = adc_feed (mcu b) /\
    calls (mcu b') = calls (mcu b).
Proof.
  intros b.
  assert (Hrx : rx_feed (mcu b) = [99]) by reflexivity.
  assert (Hb : 0 <= 99 < 256) by lia.
  assert (Hout : ~ 49 <= 99 <= 52) by lia.
  split; [exact Hrx|]. split; [exact Hb|]. split; [exact Hout|].
  exact (proj1 (main_rejects_other_keys b) 99 [] Hrx Hb Hout).
Defined.

(** ** [main] of the calibration sketch *)

Lemma main_loop_sends (rounds : nat) :
  forall b, exists b',
    Calibration.main_loop rounds b = Returned tt b' /\
    tx (mcu b') =
      tx (mcu b) ++ List.concat (repeat (report (time_constant b)) rounds) /\
    time_constant b' = time_constant b /\
    adc_feed (mcu b') = adc_feed (mcu b).
Proof.
  induction rounds as [|rounds IH]; intros b.
  - exists b. split; [reflexivity|]. cbn [repeat List.concat].
    rewrite app_nil_r. auto.
  - cbn [Calibration.main_loop].
    rewrite (bindB_on_mcu (USART_sendData "Time constant: ") _ _ tt _ eq_refl).
    unfold bindB at 1. unfold getsB at 1.
    cbn [time_constant set_mcu].
    rewrite (bindB_on_mcu (USART_sendFloat (time_constant b)) _ _ tt _ eq_refl).
    rewrite (bindB_on_mcu (USART_sendByte 10) _ _ tt _ eq_refl).
    match goal with
    | |- context [Calibration.main_loop rounds ?b1] =>
        destruct (IH b1) as (b' & E & Ht & Hc & Hf)
    end.
    exists b'. split; [exact E|]. rewrite Ht, Hc, Hf.
    cbn [mcu set_mcu tx set_tx time_constant adc_feed repeat List.concat report].
    rewrite <- !app_assoc. auto.
Qed.

(** X21.  On samples that lead [getTimeConstant] through its loops, [main]
    of the calibration sketch stores the time it read in [time_constant],
    prints "Callibration complete" once, and then the same three items --
    the label, that time and a line feed -- in every round of its loop. *)
Theorem Calibration_main_repeats_one_reading (b : board) (rounds : nat)
    (rest charge : list conversion) :
  charges_over 0 (fun v => negb (v =? 0)) (fun v => v <? 645)
    (Z.shiftl 1 REFS0) (adc_feed (mcu b)) rest charge ->
  let tc := quotient (rest_of (ticks_of charge)) in
  exists b',
    Calibration.main rounds b = Returned tt b' /\
    time_constant b' = tc /\
    tx (mcu b') =
      tx (mcu b) ++ TxStr ("Callibration complete" ++ LF)
                 :: List.concat (repeat (report tc) rounds) /\
    adc_feed (mcu b') = rest.
Proof.
  intros H tc. unfold Calibration.main.
  unfold bindB at 1. rewrite Calibration_initPins_eq.
  unfold bindB at 1. unfold sei at 1. unfold modifyB at 1.
  rewrite (bindB_on_mcu initADC _ _ tt _ eq_refl).
  rewrite (bindB_on_mcu Calibration.initTimers _ _ tt _ eq_refl).
  unfold bindB at 1. unfold initUSART at 1.
  unfold bindB at 1 2, modifyB at 1 2 3.
  match goal with
  | |- context [bindB (on_mcu Calibration.getTimeConstant) _ ?b1] =>
      set (b0 := b1)
  end.
  destruct (getTimeConstant_timed (mcu b0) rest charge H)
    as (s3 & Hu & E & Hrest).
  assert (Hk : tx s3 = tx (mcu b0)).
  { apply (transient_keeps Calibration.TIMER1_OVF_vect Calibration_isr_frame 0
             (fun v => negb (v =? 0)) (fun v => v <? 645)
             (PIN_LOW D Calibration.pin_charge) calibration_start
             unit (ret tt) _ tx tx_polled) with (v := tt).
    - intros s0 s1 E0. rewrite PIN_LOW_eq in E0 by (cbv; discriminate).
      now injection E0 as <-.
    - intros s0 s1 E0. now injection E0 as <-.
    - intros s0 v0 s1 E0. now injection E0 as _ <-.
    - rewrite transient_split. unfold bind. now rewrite Hu. }
  rewrite (bindB_on_mcu _ _ _ _ _ E).
  unfold bindB at 1. unfold modifyB at 1.
  match goal with
  | |- context [Calibration.main_loop rounds ?b1] =>
      destruct (main_loop_sends rounds b1) as (b' & E' & Ht & Hc & Hf)
  end.
  exists b'. split; [exact E'|]. rewrite Ht, Hc, Hf.
  cbn [mcu set_mcu tx set_tx time_constant set_time_constant adc_feed].
  split; [reflexivity|]. split; [|exact Hrest].
  rewrite Hk. subst b0. cbn [mcu set_mcu tx].
  rewrite <- !app_assoc. reflexivity.
Qed.

Lemma Calibration_main_repeats_one_reading_witness :
  let charge := [reading 1000 644; reading 1000 645] in
  let b := reset_board (power_on (reading 1 0 :: charge) []) in
  charges_over 0 (fun v => negb (v =? 0)) (fun v => v <? 645)
    (Z.shiftl 1 REFS0) (adc_feed (mcu b)) [] charge /\
  rest_of (ticks_of charge) = 2000 /\
  exists b',
    Calibration.main 2 b = Returned tt b' /\
    time_constant b' = quotient (rest_of (ticks_of charge)) /\
    tx (mcu b') =
      tx (mcu b) ++ TxStr ("Callibration complete" ++ LF)
                 :: List.concat (repeat (report (quotient
                                              (rest_of (ticks_of charge)))) 2)
    /\ adc_feed (mcu b') = [].
Proof.
  intros charge b.
  assert (H : charges_over 0 (fun v => negb (v =? 0)) (fun v => v <? 645)
                (Z.shiftl 1 REFS0) (adc_feed (mcu b)) [] charge).
  { exists [], (reading 1 0), [reading 1000 644], (reading 1000 645).
    split; [reflexivity|]. split; [constructor|].
    split; [reflexivity|]. split; [repeat constructor|].
    split; reflexivity. }
  split; [exact H|]. split; [vm_compute; reflexivity|].
  exact (Calibration_main_repeats_one_reading b 2 [] charge H).
Defined.

(** ** The ammeter *)

Lemma toCurrent_ascending : ascending (map Resistance.toCurrent samples) = true.
Proof. vm_compute. reflexivity. Qed.

(** X22.  The ammeter reading is strictly increasing in the sample over the
    whole 10-bit range, so two different samples are never shown as the same
    current, and no reading exceeds that of sample 1023. *)
Theorem toCurrent_increasing (a b : Z) :
  0 <= a -> a < b -> b <= 1023 ->
  (Resistance.toCurrent a <? Resistance.toCurrent b)%f32 = true.
Proof.
  intros Ha Hab Hb.
  rewrite <- (nth_samples Resistance.toCurrent a Float32.zero) by lia.
  rewrite <- (nth_samples Resistance.toCurrent b Float32.zero) by lia.
  apply ascending_nth; [exact toCurrent_ascending|].
  rewrite length_map. unfold samples. rewrite length_map, length_seq. lia.
Qed.

Lemma toCurrent_increasing_witness :
  0 <= 0 /\ 0 < 1023 /\ 1023 <= 1023 /\
  (Resistance.toCurrent 0 <? Resistance.toCurrent 1023)%f32 = true.
Proof.
  assert (H0 : 0 <= 0) by lia.
  assert (H1 : 0 < 1023) by lia.
  assert (H2 : 1023 <= 1023) by lia.
  split; [exact H0|]. split; [exact H1|]. split; [exact H2|].
  exact (toCurrent_increasing 0 1023 H0 H1 H2).
Defined.
